(** * Case converters: toKebabCase, camelCase, dotCase, to_snake_case

    A shallow embedding of the four string case converters of the
    repository, and the properties their specification states about them.

    - [toKebabCase]   : src/chain_prompt.js
    - [camelCase], [dotCase] : the second JavaScript file
    - [to_snake_case] : the Python file
    - [makeCamelCase] : src/basic_prompt.js, on strings

    The second half of the file states what each converter returns on
    words, at capitals, at digits and at the characters it deletes.

    A JavaScript string is the list of its UTF-16 code units, a Python
    string the list of its code points.  The regular expressions of the
    source are kept as syntax ([regex]) and run by a backtracking matcher
    ([rmatch]) with greedy [+]; [replaceAll], [split] and the other string
    methods are written after ECMA-262. *)

From Stdlib Require Import Strings.String Strings.Ascii.
From Stdlib Require Import List NArith Bool Lia Arith Btauto.
Import ListNotations.

Local Open Scope N_scope.

(** ** Characters and strings *)

(** A code unit (JavaScript) or a code point (Python, and the regular
    expressions with the [u] flag). *)
Definition char : Type := N.

Definition jsstring : Type := list char.
Definition pystring : Type := list char.

Definition ch (a : ascii) : char := N_of_ascii a.
Arguments ch a%_char.

Definition in_range (lo hi c : char) : bool := (lo <=? c) && (c <=? hi).

Definition is_lower (c : char) : bool := in_range (ch "a") (ch "z") c.
Definition is_upper (c : char) : bool := in_range (ch "A") (ch "Z") c.
Definition is_digit (c : char) : bool := in_range (ch "0") (ch "9") c.
Definition is_letter (c : char) : bool := is_lower c || is_upper c.
Definition is_alnum (c : char) : bool := is_letter c || is_digit c.
Definition is_ascii (c : char) : bool := c <? 0x80.

(** ECMA-262 WhiteSpace and LineTerminator: what [\s] matches and what
    [String.prototype.trim] removes. *)
Definition isWhiteSpace (c : char) : bool :=
  in_range 0x09 0x0D c || (c =? 0x20) || (c =? 0xA0) || (c =? 0x1680)
  || in_range 0x2000 0x200A c || (c =? 0x2028) || (c =? 0x2029)
  || (c =? 0x202F) || (c =? 0x205F) || (c =? 0x3000) || (c =? 0xFEFF).

(** Python's [str.isspace] on one character, which is what [\s] matches in
    a [str] pattern. *)
Definition py_isspace (c : char) : bool :=
  in_range 0x09 0x0D c || in_range 0x1C 0x20 c || (c =? 0x85) || (c =? 0xA0)
  || (c =? 0x1680) || in_range 0x2000 0x200A c || (c =? 0x2028)
  || (c =? 0x2029) || (c =? 0x202F) || (c =? 0x205F) || (c =? 0x3000).

(** *** String literals

    The source files are UTF-8; a literal of the source is read here from
    the same bytes. *)
Fixpoint utf8_decode (bs : list N) : list char :=
  match bs with
  | [] => []
  | b0 :: t0 =>
    if b0 <? 0x80 then b0 :: utf8_decode t0
    else match t0 with
    | [] => []
    | b1 :: t1 =>
      if b0 <? 0xE0 then ((b0 mod 0x20) * 0x40 + b1 mod 0x40) :: utf8_decode t1
      else match t1 with
      | [] => []
      | b2 :: t2 =>
        if b0 <? 0xF0
        then ((b0 mod 0x10) * 0x1000 + (b1 mod 0x40) * 0x40 + b2 mod 0x40)
               :: utf8_decode t2
        else match t2 with
        | [] => []
        | b3 :: t3 =>
          ((b0 mod 0x08) * 0x40000 + (b1 mod 0x40) * 0x1000
           + (b2 mod 0x40) * 0x40 + b3 mod 0x40) :: utf8_decode t3
        end
      end
    end
  end.

(** UTF-16: a code point above the basic plane is a pair of surrogates. *)
Definition is_lead (c : char) : bool := in_range 0xD800 0xDBFF c.
Definition is_trail (c : char) : bool := in_range 0xDC00 0xDFFF c.

Definition code_unit_seq (cp : char) : list char :=
  if cp <? 0x10000 then [cp]
  else [0xD800 + (cp - 0x10000) / 0x400; 0xDC00 + (cp - 0x10000) mod 0x400].

Definition code_units (cps : list char) : jsstring := flat_map code_unit_seq cps.

(** The code points of a string, as a [u]-flag regular expression reads
    them; a surrogate with no partner is a code point of its own. *)
Fixpoint code_points (s : jsstring) : list char :=
  match s with
  | [] => []
  | h :: t =>
    match t with
    | l :: t' =>
      if is_lead h && is_trail l
      then (0x10000 + (h - 0xD800) * 0x400 + (l - 0xDC00)) :: code_points t'
      else h :: code_points t
    | [] => [h]
    end
  end.

Definition py (s : string) : pystring :=
  utf8_decode (map N_of_ascii (list_ascii_of_string s)).

Definition js (s : string) : jsstring := code_units (py s).

(** ** The Unicode tables of the runtime

    [\p{L}], [\p{N}] and the case conversions read the Unicode Character
    Database of the engine, which is no part of the repository.  It is a
    parameter; only ASCII and the basic Cyrillic letters U+0410..U+044F,
    the characters the properties below speak about, are written out. *)
Record UnicodeData : Type := {
  ucd_L : char -> bool;                 (* General_Category = L* *)
  ucd_N : char -> bool;                 (* General_Category = N* *)
  ucd_lower : jsstring -> jsstring;     (* String.prototype.toLowerCase *)
  ucd_upper : jsstring -> jsstring;     (* String.prototype.toUpperCase *)
  ucd_pylower : pystring -> pystring    (* str.lower *)
}.

(** Tables that know nothing beyond the characters written out. *)
Definition no_tables : UnicodeData :=
  {| ucd_L := fun _ => false;
     ucd_N := fun _ => false;
     ucd_lower := fun s => s;
     ucd_upper := fun s => s;
     ucd_pylower := fun s => s |}.

Definition is_cyrillic (c : char) : bool := in_range 0x410 0x44F c.
Definition written_out (c : char) : bool := is_ascii c || is_cyrillic c.

Definition lower1 (c : char) : char :=
  if is_upper c || in_range 0x410 0x42F c then c + 32 else c.

Definition upper1 (c : char) : char :=
  if is_lower c then c - 32 else c.

(** ** Values, errors and results of a call *)

Inductive value : Type :=
| VUndefined
| VNull
| VBoolean (b : bool)
| VNumber (bits : N)          (* the 64 bits of the double *)
| VBigInt (z : Z)
| VString (s : jsstring)
| VSymbol (id : nat)
| VObject (ref : nat)
| VFunction (ref : nat).

Definition typeof (v : value) : string :=
  match v with
  | VUndefined => "undefined"
  | VNull => "object"
  | VBoolean _ => "boolean"
  | VNumber _ => "number"
  | VBigInt _ => "bigint"
  | VString _ => "string"
  | VSymbol _ => "symbol"
  | VObject _ => "object"
  | VFunction _ => "function"
  end.

Inductive error : Type :=
| TypeError (message : string).

Inductive completion : Type :=
| Return (s : jsstring)
| Throw (e : error).

(** ** Regular expressions *)

Inductive class_item : Type :=
| Chr (c : char)             (* a character *)
| Rng (lo hi : char)         (* lo-hi *)
| WhiteSpace                 (* \s in JavaScript *)
| PyWhiteSpace               (* \s in Python *)
| Prop_L                     (* \p{L} *)
| Prop_N.                    (* \p{N} *)

Inductive regex : Type :=
| Cls (negated : bool) (items : list class_item)       (* [...] or [^...] *)
| ClsPlus (negated : bool) (items : list class_item)   (* [...]+, greedy *)
| Seq (r1 r2 : regex)
| Group (r : regex).                                   (* ( ... ) *)

(** A replacement pattern: text and references [$n] (Python: [\n]). *)
Inductive tpl_item : Type :=
| Text (t : list char)
| Ref (n : nat).

Definition groups : Type := list (list char).
Definition match_result : Type := option (groups * list char).

Definition expand (tpl : list tpl_item) (g : groups) : list char :=
  flat_map (fun i => match i with
                     | Text t => t
                     | Ref n => nth (pred n) g []
                     end) tpl.

(** ** String methods that read no table *)

Fixpoint dropWhile (p : char -> bool) (s : list char) : list char :=
  match s with
  | [] => []
  | c :: t => if p c then dropWhile p t else s
  end.

Definition dropWhileEnd (p : char -> bool) (s : list char) : list char :=
  rev (dropWhile p (rev s)).

(** [String.prototype.trim]. *)
Definition trim (s : jsstring) : jsstring :=
  dropWhileEnd isWhiteSpace (dropWhile isWhiteSpace s).

(** [str.strip(chars)]. *)
Definition py_strip (chars : pystring) (s : pystring) : pystring :=
  let p := fun c => existsb (N.eqb c) chars in
  dropWhileEnd p (dropWhile p s).

Definition is_empty (s : list char) : bool :=
  match s with [] => true | _ :: _ => false end.

(** [Array.prototype.join]. *)
Fixpoint join (sep : jsstring) (l : list jsstring) : jsstring :=
  match l with
  | [] => []
  | [w] => w
  | w :: l' => w ++ sep ++ join sep l'
  end.

(** [s.split(sep)] for a separator of one code unit (the source splits
    on a single space). *)
Fixpoint split_on (sep : char) (cur : list char) (s : jsstring) : list jsstring :=
  match s with
  | [] => [rev cur]
  | c :: t =>
    if c =? sep then rev cur :: split_on sep [] t
    else split_on sep (c :: cur) t
  end.

(** [word.charAt(0)] and [word.slice(1)]. *)
Definition charAt0 (w : jsstring) : jsstring :=
  match w with [] => [] | c :: _ => [c] end.

Definition slice1 (w : jsstring) : jsstring := tl w.

(** [Array.prototype.map] with the index passed to the callback. *)
Fixpoint mapi_from {A B : Type} (f : A -> nat -> B) (i : nat) (l : list A) : list B :=
  match l with
  | [] => []
  | x :: l' => f x i :: mapi_from f (S i) l'
  end.

Definition mapi {A B : Type} (f : A -> nat -> B) (l : list A) : list B :=
  mapi_from f 0 l.

Section Converters.

Context (U : UnicodeData).

(** *** Character properties and case conversion

    On the characters written out the value is the one of the Unicode
    Character Database: the ASCII letters and U+0410..U+044F are letters,
    the ASCII digits are numbers, a string of such characters is lowered
    character by character ([A-Z] and U+0410..U+042F move up by 32), and an
    ASCII string is raised character by character.  Everywhere else the
    value is read from [U]. *)

Definition gc_L (c : char) : bool :=
  if written_out c then is_letter c || is_cyrillic c else ucd_L U c.

Definition gc_N (c : char) : bool :=
  if written_out c then is_digit c else ucd_N U c.

Definition toLowerCase (s : jsstring) : jsstring :=
  if forallb written_out s then map lower1 s else ucd_lower U s.

Definition toUpperCase (s : jsstring) : jsstring :=
  if forallb is_ascii s then map upper1 s else ucd_upper U s.

Definition py_lower (s : pystring) : pystring :=
  if forallb is_ascii s then map lower1 s else ucd_pylower U s.

(** *** Matching *)

Definition item_matches (c : char) (i : class_item) : bool :=
  match i with
  | Chr d => c =? d
  | Rng lo hi => in_range lo hi c
  | WhiteSpace => isWhiteSpace c
  | PyWhiteSpace => py_isspace c
  | Prop_L => gc_L c
  | Prop_N => gc_N c
  end.

Definition in_class (negated : bool) (items : list class_item) (c : char) : bool :=
  xorb negated (existsb (item_matches c) items).

(** [p+] after its first character: as many more as possible, giving one
    back each time the rest of the pattern fails. *)
Fixpoint greedy (p : char -> bool) (k : list char -> match_result) (s : list char)
  : match_result :=
  match s with
  | [] => k []
  | c :: t =>
    if p c
    then match greedy p k t with
         | Some r => Some r
         | None => k s
         end
    else k s
  end.

(** [rmatch r s k]: match [r] at the start of [s], then the rest of the
    pattern [k] on the groups captured and the input left; [None] when no
    way of matching [r] lets [k] succeed. *)
Fixpoint rmatch (r : regex) (s : list char)
    (k : groups -> list char -> match_result) : match_result :=
  match r with
  | Cls n items =>
    match s with
    | c :: t => if in_class n items c then k [] t else None
    | [] => None
    end
  | ClsPlus n items =>
    match s with
    | c :: t => if in_class n items c then greedy (in_class n items) (k []) t else None
    | [] => None
    end
  | Seq r1 r2 =>
    rmatch r1 s (fun g1 s1 => rmatch r2 s1 (fun g2 s2 => k (g1 ++ g2) s2))
  | Group r1 =>
    rmatch r1 s (fun g s1 => k (firstn (length s - length s1) s :: g) s1)
  end.

(** The match of [r] at the start of [s]: its groups and the input after it. *)
Definition exec (r : regex) (s : list char) : match_result :=
  rmatch r s (fun g rest => Some (g, rest)).

(** [s.replace(/r/g, tpl)] and [re.sub(r, tpl, s)]: left to right, each
    match replaced, the search resumed after it.  [skip] counts the
    characters of the last match still to pass. *)
Fixpoint replace_from (r : regex) (tpl : list tpl_item) (skip : nat) (s : list char)
  : list char :=
  match s with
  | [] => []
  | c :: t =>
    match skip with
    | S n => replace_from r tpl n t
    | O =>
      match exec r s with
      | Some (g, rest) =>
        expand tpl g ++ replace_from r tpl (length t - length rest) t
      | None => c :: replace_from r tpl 0 t
      end
    end
  end.

Definition replaceAll (r : regex) (tpl : list tpl_item) (s : list char) : list char :=
  replace_from r tpl 0 s.

(** [s.split(/r/)]: [cur] is the piece being read, last character first. *)
Fixpoint split_from (r : regex) (skip : nat) (cur : list char) (s : list char)
  : list (list char) :=
  match s with
  | [] => [rev cur]
  | c :: t =>
    match skip with
    | S n => split_from r n cur t
    | O =>
      match exec r s with
      | Some (_, rest) => rev cur :: split_from r (length t - length rest) [] t
      | None => split_from r 0 (c :: cur) t
      end
    end
  end.

Definition split (r : regex) (s : list char) : list (list char) :=
  split_from r 0 [] s.

(** With the [u] flag the pattern runs over code points. *)
Definition replaceAll_u (r : regex) (tpl : list tpl_item) (s : jsstring) : jsstring :=
  code_units (replaceAll r tpl (code_points s)).

Definition split_u (r : regex) (s : jsstring) : list jsstring :=
  map code_units (split r (code_points s)).

(** *** The converters *)

Definition lower_az : class_item := Rng (ch "a") (ch "z").
Definition upper_AZ : class_item := Rng (ch "A") (ch "Z").
Definition digit_09 : class_item := Rng (ch "0") (ch "9").

Definition must_be_string : completion :=
  Throw (TypeError "Input must be a string").

(** src/chain_prompt.js, [toKebabCase]. *)
Definition toKebabCase (input : value) : completion :=
  match input with
  | VString input =>
    if is_empty (trim input) then Return []
    else
      (* /[_\-\s]+/g -> ' ' *)
      let str := replaceAll (ClsPlus false [Chr (ch "_"); Chr (ch "-"); WhiteSpace])
                            [Text (js " ")] input in
      (* /([a-z0-9])([A-Z])/g -> '$1 $2' *)
      let str := replaceAll (Seq (Group (Cls false [lower_az; digit_09]))
                                 (Group (Cls false [upper_AZ])))
                            [Ref 1; Text (js " "); Ref 2] str in
      (* /([A-Z]+)([A-Z][a-z0-9]+)/g -> '$1 $2' *)
      let str := replaceAll (Seq (Group (ClsPlus false [upper_AZ]))
                                 (Group (Seq (Cls false [upper_AZ])
                                             (ClsPlus false [lower_az; digit_09]))))
                            [Ref 1; Text (js " "); Ref 2] str in
      (* /([a-zA-Z])([0-9])/g -> '$1 $2' *)
      let str := replaceAll (Seq (Group (Cls false [lower_az; upper_AZ]))
                                 (Group (Cls false [digit_09])))
                            [Ref 1; Text (js " "); Ref 2] str in
      (* /([0-9])([a-zA-Z])/g -> '$1 $2' *)
      let str := replaceAll (Seq (Group (Cls false [digit_09]))
                                 (Group (Cls false [lower_az; upper_AZ])))
                            [Ref 1; Text (js " "); Ref 2] str in
      (* /[^\p{L}\p{N}\s]+/gu -> '' *)
      let str := replaceAll_u (ClsPlus true [Prop_L; Prop_N; WhiteSpace]) [] str in
      Return (toLowerCase
                (join (js "-")
                   (filter (fun w => negb (is_empty w))
                      (split_u (ClsPlus false [WhiteSpace]) str))))
  | _ => must_be_string
  end.

(** [cleaned] of [camelCase] and [dotCase]:
    [input.replace(/[\s\-_\.]+/g, ' ').replace(/[^a-zA-Z0-9 ]+/g, '').trim()]. *)
Definition cleaned (input : jsstring) : jsstring :=
  trim
    (replaceAll (ClsPlus true [lower_az; upper_AZ; digit_09; Chr (ch " ")]) []
       (replaceAll (ClsPlus false [WhiteSpace; Chr (ch "-"); Chr (ch "_"); Chr (ch ".")])
          [Text (js " ")] input)).

(** The callback of [camelCase]'s [map]. *)
Definition camel_word (word : jsstring) (idx : nat) : jsstring :=
  match idx with
  | O => toLowerCase word
  | S _ => toUpperCase (charAt0 word) ++ toLowerCase (slice1 word)
  end.

Definition camelCase (input : value) : completion :=
  match input with
  | VString input =>
    if is_empty (trim input) then Return []
    else
      let cleaned := cleaned input in
      if is_empty cleaned then Return []
      else
        let words := split_on (ch " ") [] cleaned in
        Return (join [] (mapi camel_word words))
  | _ => must_be_string
  end.

Definition dotCase (input : value) : completion :=
  match input with
  | VString input =>
    if is_empty (trim input) then Return []
    else
      let cleaned := cleaned input in
      if is_empty cleaned then Return []
      else
        let words := split_on (ch " ") [] cleaned in
        Return (join (js ".") (map toLowerCase words))
  | _ => must_be_string
  end.

(** The Python file, [to_snake_case]. *)
Definition to_snake_case (text : pystring) : pystring :=
  let text := replaceAll (Group (ClsPlus false [upper_AZ])) [Text (py "_"); Ref 1] text in
  let text := replaceAll (ClsPlus false [PyWhiteSpace; Chr (ch "-")]) [Text (py "_")] text in
  py_strip (py "_") (py_lower text).

(** ** What the string methods do, without the matcher *)

(** [s.replace(/([p])([q])/g, '$1 $2')] written directly. *)
Fixpoint insert_between (p q : char -> bool) (s : list char) : list char :=
  match s with
  | [] => []
  | a :: t =>
    match t with
    | [] => [a]
    | b :: t' =>
      if p a && q b then a :: 0x20 :: b :: insert_between p q t'
      else a :: insert_between p q t
    end
  end.

(** No two neighbours of [s] are related by [bad]. *)
Fixpoint adj_free (bad : char -> char -> bool) (s : list char) : bool :=
  match s with
  | [] => true
  | a :: t =>
    match t with
    | [] => true
    | b :: _ => negb (bad a b) && adj_free bad t
    end
  end.

(** A letter next to a digit, in either order. *)
Definition letter_digit (a b : char) : bool :=
  (is_letter a && is_digit b) || (is_digit a && is_letter b).

(** The characters a pattern can start a match with. *)
Fixpoint can_start (r : regex) (c : char) : bool :=
  match r with
  | Cls n items | ClsPlus n items => in_class n items c
  | Seq r1 _ => can_start r1 c
  | Group r1 => can_start r1 c
  end.

(** The separators of [toKebabCase] ([[_\-\s]]) and of [camelCase] and
    [dotCase] ([[\s\-_\.]]). *)
Definition kebab_separator (c : char) : bool :=
  (c =? ch "_") || (c =? ch "-") || isWhiteSpace c.

Definition camel_separator (c : char) : bool :=
  isWhiteSpace c || (c =? ch "-") || (c =? ch "_") || (c =? ch ".").

(** What [camelCase] and [dotCase] keep: [[a-zA-Z0-9 ]]. *)
Definition alnum_or_space (c : char) : bool := is_alnum c || (c =? ch " ").

(** A function that fails exactly on a non-string argument, with the
    [TypeError] of the source. *)
Definition fails_on_non_strings_only (f : value -> completion) : Prop :=
  forall v : value,
    (f v = Throw (TypeError "Input must be a string")
     <-> typeof v <> "string"%string)
    /\ (forall e, f v = Throw e -> e = TypeError "Input must be a string")
    /\ (typeof v = "string"%string -> exists o, f v = Return o).

(** A word of a kebab-case string: not empty, lower-case ASCII letters and
    digits, no letter next to a digit. *)
Definition kebab_word (w : jsstring) : bool :=
  negb (is_empty w)
  && forallb (fun c => is_lower c || is_digit c) w
  && adj_free letter_digit w.

(** ** Tactics and abbreviations *)

Ltac char_numbers :=
  repeat match goal with
         | |- context [ch ?a] =>
           let v := eval vm_compute in (ch a) in change (ch a) with v
         | H : context [ch ?a] |- _ =>
           let v := eval vm_compute in (ch a) in change (ch a) with v in H
         end.

(** Facts about ranges of characters, by arithmetic. *)
Ltac char_solve :=
  unfold alnum_or_space, kebab_separator, camel_separator,
    written_out, lower1, upper1, is_cyrillic, is_alnum, is_letter, is_lower,
    is_upper, is_digit, is_ascii, isWhiteSpace, py_isspace, in_range in *;
  char_numbers;
  repeat match goal with
         | |- context [if ?b then _ else _] => destruct b eqn:?
         | H : context [if ?b then _ else _] |- _ => destruct b eqn:?
         end;
  repeat rewrite ?orb_true_iff, ?andb_true_iff, ?orb_false_iff, ?andb_false_iff,
    ?negb_true_iff, ?negb_false_iff, ?N.leb_le, ?N.leb_gt, ?N.eqb_eq, ?N.eqb_neq,
    ?N.ltb_lt, ?N.ltb_ge in *;
  lia.

(** A class of a pattern written as a predicate: by Boolean algebra. *)
Ltac class_eval :=
  unfold in_class, lower_az, upper_AZ, digit_09; cbn [existsb item_matches];
  unfold alnum_or_space, kebab_separator, camel_separator,
    is_alnum, is_letter, is_lower, is_upper, is_digit;
  btauto.


(** The patterns of [toKebabCase]. *)
Local Notation "'sep_re'" := (ClsPlus false [Chr (ch "_"); Chr (ch "-"); WhiteSpace]).
Local Notation "'lower_upper_re'" :=
  (Seq (Group (Cls false [lower_az; digit_09])) (Group (Cls false [upper_AZ]))).
Local Notation "'acronym_re'" :=
  (Seq (Group (ClsPlus false [upper_AZ]))
       (Group (Seq (Cls false [upper_AZ]) (ClsPlus false [lower_az; digit_09])))).
Local Notation "'letter_digit_re'" :=
  (Seq (Group (Cls false [lower_az; upper_AZ])) (Group (Cls false [digit_09]))).
Local Notation "'digit_letter_re'" :=
  (Seq (Group (Cls false [digit_09])) (Group (Cls false [lower_az; upper_AZ]))).
Local Notation "'space_between'" := [Ref 1; Text (js " "); Ref 2].

(** ** The first JavaScript file: [makeCamelCase] *)

(** [.]: any code unit but a line terminator. *)
Definition any_char : regex :=
  Cls true [Chr 0x0A; Chr 0x0D; Chr 0x2028; Chr 0x2029].

(** [s.replace(/r/g, f)] with a function [f], called on each match and its
    groups; [skip] as in [replace_from]. *)
Fixpoint replace_fn_from (r : regex) (f : list char -> groups -> list char)
    (skip : nat) (s : list char) : list char :=
  match s with
  | [] => []
  | c :: t =>
    match skip with
    | S n => replace_fn_from r f n t
    | O =>
      match exec r s with
      | Some (g, rest) =>
        f (firstn (length s - length rest) s) g
          ++ replace_fn_from r f (length t - length rest) t
      | None => c :: replace_fn_from r f 0 t
      end
    end
  end.

Definition replaceAll_fn (r : regex) (f : list char -> groups -> list char)
    (s : list char) : list char :=
  replace_fn_from r f 0 s.

(** src/basic_prompt.js, [makeCamelCase], on a string:
    [text.toLowerCase().replace(/[^a-zA-Z0-9]+(.)/g, (_, chr) => chr.toUpperCase())]. *)
Definition makeCamelCase (text : jsstring) : jsstring :=
  replaceAll_fn (Seq (ClsPlus true [lower_az; upper_AZ; digit_09]) (Group any_char))
                (fun _ g => toUpperCase (nth 0 g []))
                (toLowerCase text).

(** ** Words *)

(** A word: not empty, of characters of [q]. *)
Definition word_of (q : char -> bool) (w : list char) : bool :=
  negb (is_empty w) && forallb q w.

(** A word with its first letter raised and the others lowered. *)
Definition capitalize (w : jsstring) : jsstring :=
  match w with
  | [] => []
  | c :: t => upper1 c :: map lower1 t
  end.

(** ASCII characters that are neither letters nor digits. *)
Definition ascii_special (c : char) : bool := is_ascii c && negb (is_alnum c).

(** A capitalised word: an upper-case letter, then lower-case letters,
    at least one. *)
Definition cap_word (w : jsstring) : bool :=
  match w with
  | [] => false
  | c :: t => is_upper c && word_of is_lower t
  end.

(** The pattern and the callback of [makeCamelCase]. *)
Local Notation "'camel_re'" :=
  (Seq (ClsPlus true [lower_az; upper_AZ; digit_09]) (Group any_char)).
Local Notation "'raise_group'" :=
  (fun (_ : list char) (g : groups) => toUpperCase (nth 0 g [])).


(** ** The Python file *)

Definition lower_or_digit (c : char) : bool := is_lower c || is_digit c.

(** What [[\s\-]] matches. *)
Definition snake_separator (c : char) : bool := py_isspace c || (c =? ch "-").

(** An ASCII character that neither substitution of [to_snake_case] matches
    and that [lower] leaves as it is. *)
Definition snake_plain (c : char) : bool :=
  is_ascii c && negb (is_upper c) && negb (snake_separator c).

(** What [strip('_')] removes at both ends. *)
Definition underscore (c : char) : bool := existsb (N.eqb c) (py "_").

(** Upper-case letters, then lower-case letters and digits, at least one of
    each kind: [Http], [XMLFile], [V2]. *)
Definition run_word (w : pystring) : bool :=
  match w with
  | [] => false
  | c :: t => is_upper c && word_of lower_or_digit (dropWhile is_upper t)
  end.

Local Notation "'capitals_re'" := (Group (ClsPlus false [upper_AZ])).
Local Notation "'underscore_before'" := [Text (py "_"); Ref 1].
Local Notation "'snake_sep_re'" := (ClsPlus false [PyWhiteSpace; Chr (ch "-")]).

Ltac snake_solve :=
  unfold snake_plain, snake_separator, lower_or_digit in *; char_solve.

(** ** The characters of a result of [toKebabCase] *)



(** ** Lists, [trim] and [join] *)

Lemma dropWhile_all (p : char -> bool) (s : list char) :
  forallb p s = true -> dropWhile p s = [].
Proof.
  induction s as [|c t IH]; simpl; [reflexivity|].
  destruct (p c); simpl; [exact IH | discriminate].
Qed.

Lemma dropWhile_head (p : char -> bool) (c : char) (t : list char) :
  p c = false -> dropWhile p (c :: t) = c :: t.
Proof. intros H; simpl; rewrite H; reflexivity. Qed.

Lemma dropWhile_split (p : char -> bool) (s : list char) :
  exists pre, s = pre ++ dropWhile p s /\ forallb p pre = true.
Proof.
  induction s as [|c t [pre [E F]]]; simpl.
  - exists []; split; reflexivity.
  - destruct (p c) eqn:Hc.
    + exists (c :: pre); simpl; rewrite Hc, F; split; [f_equal; exact E | reflexivity].
    + exists []; split; reflexivity.
Qed.

Lemma dropWhile_empty_iff (p : char -> bool) (s : list char) :
  is_empty (dropWhile p s) = forallb p s.
Proof.
  induction s as [|c t IH]; simpl; [reflexivity|].
  destruct (p c); simpl; [exact IH | reflexivity].
Qed.

Lemma forallb_rev (p : char -> bool) (s : list char) :
  forallb p (rev s) = forallb p s.
Proof.
  induction s as [|c t IH]; simpl; [reflexivity|].
  rewrite forallb_app, IH; simpl. rewrite andb_true_r, andb_comm; reflexivity.
Qed.

Lemma is_empty_rev (s : list char) : is_empty (rev s) = is_empty s.
Proof.
  destruct s as [|c t]; simpl; [reflexivity|].
  destruct (rev t); reflexivity.
Qed.

Lemma forallb_dropWhile (p q : char -> bool) (s : list char) :
  forallb q s = true -> forallb q (dropWhile p s) = true.
Proof.
  induction s as [|c t IH]; simpl; [trivial|].
  intros H; apply andb_true_iff in H as [Hc Ht].
  destruct (p c); simpl; [auto | rewrite Hc, Ht; reflexivity].
Qed.

Lemma forallb_dropWhileEnd (p q : char -> bool) (s : list char) :
  forallb q s = true -> forallb q (dropWhileEnd p s) = true.
Proof.
  intros H; unfold dropWhileEnd.
  rewrite forallb_rev. apply forallb_dropWhile. rewrite forallb_rev; exact H.
Qed.

Lemma dropWhileEnd_keep (p : char -> bool) (x y : list char) :
  y <> [] -> forallb (fun c => negb (p c)) y = true ->
  dropWhileEnd p (x ++ y) = x ++ y.
Proof.
  intros Hy Hn. unfold dropWhileEnd.
  rewrite rev_app_distr.
  destruct (rev y) as [|c t] eqn:E.
  - apply (f_equal (@rev char)) in E; rewrite rev_involutive in E; contradiction.
  - assert (Hc : p c = false).
    { rewrite <- forallb_rev, E in Hn; simpl in Hn.
      apply andb_true_iff in Hn as [Hn _]. now apply negb_true_iff in Hn. }
    change ((c :: t) ++ rev x) with (c :: (t ++ rev x)).
    rewrite dropWhile_head by exact Hc.
    change (c :: t ++ rev x) with ((c :: t) ++ rev x).
    rewrite <- E, <- rev_app_distr, rev_involutive.
    reflexivity.
Qed.

(** [trim] leaves nothing exactly when every character is white space. *)
Lemma trim_empty_iff (s : jsstring) :
  is_empty (trim s) = forallb isWhiteSpace s.
Proof.
  unfold trim, dropWhileEnd.
  rewrite is_empty_rev, dropWhile_empty_iff, forallb_rev.
  destruct (dropWhile_split isWhiteSpace s) as [pre [E F]].
  rewrite E at 2. rewrite forallb_app, F; simpl.
  remember (dropWhile isWhiteSpace s) as d eqn:Hd.
  destruct d as [|c t]; [reflexivity|].
  assert (Hc : isWhiteSpace c = false).
  { clear E F. revert Hd. induction s as [|a s IH]; simpl; [discriminate|].
    destruct (isWhiteSpace a) eqn:Ha; [exact IH|].
    intros H; injection H as -> _; exact Ha. }
  simpl; rewrite Hc; reflexivity.
Qed.

Lemma trim_keep (x : jsstring) (a : char) (y : jsstring) :
  isWhiteSpace a = false ->
  y <> [] -> forallb (fun c => negb (isWhiteSpace c)) y = true ->
  trim (a :: x ++ y) = a :: x ++ y.
Proof.
  intros Ha Hy Hn. unfold trim.
  rewrite dropWhile_head by exact Ha.
  apply (dropWhileEnd_keep isWhiteSpace (a :: x) y Hy Hn).
Qed.

Lemma trim_no_space (s : jsstring) :
  forallb (fun c => negb (isWhiteSpace c)) s = true -> trim s = s.
Proof.
  intros H. destruct s as [|a t]; [reflexivity|].
  unfold trim. rewrite dropWhile_head.
  - apply (dropWhileEnd_keep isWhiteSpace [] (a :: t)); [discriminate | exact H].
  - simpl in H. apply andb_true_iff in H as [H _]. now apply negb_true_iff in H.
Qed.

Lemma forallb_trim (q : char -> bool) (s : jsstring) :
  forallb q s = true -> forallb q (trim s) = true.
Proof.
  intros H. unfold trim. apply forallb_dropWhileEnd, forallb_dropWhile, H.
Qed.

Lemma forallb_impl (p q : char -> bool) (s : list char) :
  (forall c, p c = true -> q c = true) ->
  forallb p s = true -> forallb q s = true.
Proof.
  intros Hpq. induction s as [|c t IH]; simpl; [trivial|].
  intros H; apply andb_true_iff in H as [Hc Ht].
  rewrite (Hpq c Hc), (IH Ht); reflexivity.
Qed.

Lemma forallb_join (q : char -> bool) (sep : jsstring) (l : list jsstring) :
  forallb q sep = true ->
  forallb (forallb q) l = true ->
  forallb q (join sep l) = true.
Proof.
  intros Hs. induction l as [|w l IH]; simpl; [trivial|].
  intros H; apply andb_true_iff in H as [Hw Hl].
  destruct l as [|w' l']; [exact Hw|].
  rewrite !forallb_app, Hw, Hs, (IH Hl); reflexivity.
Qed.

Lemma map_id_on (f : char -> char) (s : list char) :
  (forall c, In c s -> f c = c) -> map f s = s.
Proof.
  induction s as [|c t IH]; simpl; intros H; [reflexivity|].
  rewrite (H c (or_introl eq_refl)), IH; [reflexivity|].
  intros d Hd; apply H; right; exact Hd.
Qed.

Lemma join_cons (sep w : jsstring) (w' : jsstring) (l : list jsstring) :
  join sep (w :: w' :: l) = w ++ sep ++ join sep (w' :: l).
Proof. reflexivity. Qed.

(** Ranges of characters. *)
Lemma in_range_iff (lo hi c : char) :
  in_range lo hi c = true <-> lo <= c <= hi.
Proof.
  unfold in_range. rewrite andb_true_iff, !N.leb_le. tauto.
Qed.

Lemma in_range_false (lo hi c : char) :
  c < lo \/ hi < c -> in_range lo hi c = false.
Proof.
  intros H. destruct (in_range lo hi c) eqn:E; [|reflexivity].
  apply in_range_iff in E. lia.
Qed.

(** ** The matcher *)

Lemma list_length_ind (P : list char -> Prop) :
  (forall s, (forall s', (length s' < length s)%nat -> P s') -> P s) ->
  forall s, P s.
Proof.
  intros H s.
  assert (G : forall n s', (length s' < n)%nat -> P s').
  { induction n as [|n IH]; intros s' Hn; [lia|].
    apply H. intros s'' Hlt. apply IH. lia. }
  apply (G (S (length s))). lia.
Qed.

Lemma skipn_length_app (pre rest : list char) :
  skipn (length pre) (pre ++ rest) = rest.
Proof. induction pre as [|c pre IH]; simpl; [reflexivity | exact IH]. Qed.

Lemma In_firstn (n : nat) (s : list char) (x : char) :
  In x (firstn n s) -> In x s.
Proof.
  revert s; induction n as [|n IH]; intros [|c t]; simpl; try tauto.
  intros [H|H]; [left; exact H | right; apply IH, H].
Qed.

Lemma greedy_exec (p : char -> bool) (g : groups) (s : list char) :
  greedy p (fun rest => Some (g, rest)) s = Some (g, dropWhile p s).
Proof.
  induction s as [|c t IH]; simpl; [reflexivity|].
  destruct (p c); [rewrite IH|]; reflexivity.
Qed.

Lemma exec_ClsPlus (n : bool) (items : list class_item) (s : list char) :
  exec (ClsPlus n items) s =
  match s with
  | [] => None
  | c :: t =>
    if in_class n items c then Some ([], dropWhile (in_class n items) t) else None
  end.
Proof.
  destruct s as [|c t]; [reflexivity|].
  unfold exec; cbn [rmatch].
  destruct (in_class n items c); [apply greedy_exec | reflexivity].
Qed.

Lemma greedy_sound (p : char -> bool) (k : list char -> match_result)
    (s : list char) (res : groups * list char) :
  greedy p k s = Some res ->
  exists pre rest, s = pre ++ rest /\ k rest = Some res.
Proof.
  revert res; induction s as [|c t IH]; simpl; intros res H.
  - exists [], []; split; [reflexivity | exact H].
  - destruct (p c).
    + destruct (greedy p k t) as [r|] eqn:E.
      * destruct (IH r eq_refl) as (pre & rest & Ht & Hk).
        exists (c :: pre), rest. subst t. split; [reflexivity|].
        rewrite Hk; exact H.
      * exists [], (c :: t); split; [reflexivity | exact H].
    + exists [], (c :: t); split; [reflexivity | exact H].
Qed.

(** A match consumes a non-empty prefix of the input, and its groups are
    made of characters of the input. *)
Lemma rmatch_sound (r : regex) :
  forall (s : list char) (k : groups -> list char -> match_result)
         (res : groups * list char),
  rmatch r s k = Some res ->
  exists g pre rest,
    s = pre ++ rest /\ pre <> [] /\ k g rest = Some res
    /\ (forall w, In w g -> incl w s).
Proof.
  induction r as [n items | n items | r1 IH1 r2 IH2 | r1 IH1]; intros s k res H.
  - destruct s as [|c t]; cbn [rmatch] in H; [discriminate|].
    destruct (in_class n items c); [|discriminate].
    exists [], [c], t. repeat split; [discriminate | exact H | intros w []].
  - destruct s as [|c t]; cbn [rmatch] in H; [discriminate|].
    destruct (in_class n items c); [|discriminate].
    apply greedy_sound in H as (pre & rest & -> & Hk).
    exists [], (c :: pre), rest.
    repeat split; [discriminate | exact Hk | intros w []].
  - cbn [rmatch] in H.
    apply IH1 in H as (g1 & pre1 & s1 & -> & Hne & H & Hg1).
    apply IH2 in H as (g2 & pre2 & s2 & -> & _ & H & Hg2).
    exists (g1 ++ g2), (pre1 ++ pre2), s2.
    repeat split.
    + rewrite app_assoc; reflexivity.
    + destruct pre1; [contradiction | discriminate].
    + exact H.
    + intros w Hw. apply in_app_or in Hw as [Hw|Hw]; [apply Hg1, Hw|].
      apply incl_appr, Hg2, Hw.
  - cbn [rmatch] in H.
    apply IH1 in H as (g & pre & rest & E & Hne & H & Hg).
    eexists _, pre, rest. repeat split; [exact E | exact Hne | exact H |].
    intros w [<-|Hw]; [|apply Hg, Hw].
    intros x Hx. apply (In_firstn _ _ _ Hx).
Qed.

Lemma exec_sound (r : regex) (s : list char) (g : groups) (rest : list char) :
  exec r s = Some (g, rest) ->
  exists pre, s = pre ++ rest /\ pre <> [] /\ (forall w, In w g -> incl w s).
Proof.
  intros H. apply rmatch_sound in H as (g' & pre & rest' & E & Hne & H & Hg).
  injection H as <- <-. exists pre; auto.
Qed.

(** A pattern does not match where its first class does not. *)
Lemma rmatch_cannot_start (r : regex) :
  forall (c : char) (t : list char) (k : groups -> list char -> match_result),
  can_start r c = false -> rmatch r (c :: t) k = None.
Proof.
  induction r as [n items | n items | r1 IH1 r2 IH2 | r1 IH1];
    intros c t k H; cbn [rmatch can_start] in *.
  - rewrite H; reflexivity.
  - rewrite H; reflexivity.
  - apply IH1, H.
  - apply IH1, H.
Qed.

Lemma exec_cannot_start (r : regex) (c : char) (t : list char) :
  can_start r c = false -> exec r (c :: t) = None.
Proof. apply rmatch_cannot_start. Qed.

(** *** [replaceAll], one step at a time *)

Lemma replace_from_skip (r : regex) (tpl : list tpl_item) (n : nat) (s : list char) :
  replace_from r tpl n s = replaceAll r tpl (skipn n s).
Proof.
  revert n; induction s as [|c t IH]; intros [|n]; try reflexivity.
  cbn [replace_from skipn]. apply IH.
Qed.

Lemma replaceAll_nil (r : regex) (tpl : list tpl_item) : replaceAll r tpl [] = [].
Proof. reflexivity. Qed.

Lemma replaceAll_match (r : regex) (tpl : list tpl_item) (c : char)
    (t : list char) (g : groups) (rest : list char) :
  exec r (c :: t) = Some (g, rest) ->
  replaceAll r tpl (c :: t) = expand tpl g ++ replaceAll r tpl rest.
Proof.
  intros E. unfold replaceAll at 1. cbn [replace_from]. rewrite E.
  f_equal. rewrite replace_from_skip. f_equal.
  apply exec_sound in E as (pre & Hs & Hne & _).
  destruct pre as [|c' pre]; [contradiction|].
  injection Hs as _ ->.
  rewrite length_app.
  replace (length pre + length rest - length rest)%nat with (length pre) by lia.
  apply skipn_length_app.
Qed.

Lemma replaceAll_nomatch (r : regex) (tpl : list tpl_item) (c : char) (t : list char) :
  exec r (c :: t) = None ->
  replaceAll r tpl (c :: t) = c :: replaceAll r tpl t.
Proof.
  intros E. unfold replaceAll. cbn [replace_from]. rewrite E. reflexivity.
Qed.

(** Characters that cannot start a match are copied. *)
Lemma replaceAll_copy (r : regex) (tpl : list tpl_item) (w rest : list char) :
  forallb (fun c => negb (can_start r c)) w = true ->
  replaceAll r tpl (w ++ rest) = w ++ replaceAll r tpl rest.
Proof.
  induction w as [|c w IH]; simpl; intros H; [reflexivity|].
  apply andb_true_iff in H as [Hc Hw]. apply negb_true_iff in Hc.
  rewrite replaceAll_nomatch by (apply exec_cannot_start, Hc).
  rewrite (IH Hw); reflexivity.
Qed.

Lemma replaceAll_cannot_start (r : regex) (tpl : list tpl_item) (s : list char) :
  forallb (fun c => negb (can_start r c)) s = true ->
  replaceAll r tpl s = s.
Proof.
  intros H. rewrite <- (app_nil_r s) at 1.
  rewrite (replaceAll_copy r tpl s [] H), replaceAll_nil, app_nil_r.
  reflexivity.
Qed.

Lemma forallb_expand (q : char -> bool) (tpl : list tpl_item) (g : groups) :
  (forall t, In (Text t) tpl -> forallb q t = true) ->
  (forall w, In w g -> forallb q w = true) ->
  forallb q (expand tpl g) = true.
Proof.
  intros Ht Hg. unfold expand.
  induction tpl as [|i tpl IH]; simpl; [reflexivity|].
  rewrite forallb_app. apply andb_true_iff; split.
  - destruct i as [t|n]; [apply Ht; left; reflexivity|].
    destruct (nth_in_or_default (pred n) g []) as [Hin|E]; [apply Hg, Hin | rewrite E; reflexivity].
  - apply IH. intros t Hin; apply Ht; right; exact Hin.
Qed.

(** A replacement only rearranges characters of the input and of the
    replacement text. *)
Lemma forallb_replaceAll (q : char -> bool) (r : regex) (tpl : list tpl_item) :
  (forall t, In (Text t) tpl -> forallb q t = true) ->
  forall s, forallb q s = true -> forallb q (replaceAll r tpl s) = true.
Proof.
  intros Ht s. induction s as [s IH] using list_length_ind. intros Hs.
  destruct s as [|c t]; [reflexivity|].
  destruct (exec r (c :: t)) as [[g rest]|] eqn:E.
  - rewrite (replaceAll_match _ _ _ _ _ _ E).
    destruct (exec_sound _ _ _ _ E) as (pre & Hpre & Hne & Hg).
    rewrite forallb_app. apply andb_true_iff; split.
    + apply forallb_expand; [exact Ht|].
      intros w Hw. apply forallb_forall. intros x Hx.
      apply (proj1 (forallb_forall q (c :: t)) Hs). apply (Hg w Hw), Hx.
    + apply IH.
      * rewrite Hpre, length_app. destruct pre; [contradiction | simpl; lia].
      * rewrite Hpre, forallb_app in Hs. apply andb_true_iff in Hs as [_ Hs]. exact Hs.
  - rewrite (replaceAll_nomatch _ _ _ _ E). simpl in *.
    apply andb_true_iff in Hs as [Hc Hs]. rewrite Hc; simpl.
    apply IH; [simpl; lia | exact Hs].
Qed.

(** *** [[...]+] replaced by a fixed text *)

Lemma replaceAll_ClsPlus_cons (n : bool) (items : list class_item)
    (tpl : list tpl_item) (c : char) (t : list char) :
  replaceAll (ClsPlus n items) tpl (c :: t) =
  if in_class n items c
  then expand tpl [] ++ replaceAll (ClsPlus n items) tpl (dropWhile (in_class n items) t)
  else c :: replaceAll (ClsPlus n items) tpl t.
Proof.
  destruct (in_class n items c) eqn:Hc.
  - apply replaceAll_match. rewrite exec_ClsPlus, Hc. reflexivity.
  - apply replaceAll_nomatch. rewrite exec_ClsPlus, Hc. reflexivity.
Qed.

Lemma dropWhile_length (p : char -> bool) (s : list char) :
  (length (dropWhile p s) <= length s)%nat.
Proof.
  induction s as [|c t IH]; simpl; [lia|].
  destruct (p c); simpl; lia.
Qed.

(** Deleting the runs of a class is filtering. *)
Lemma replaceAll_ClsPlus_delete (n : bool) (items : list class_item) (s : list char) :
  replaceAll (ClsPlus n items) [] s = filter (fun c => negb (in_class n items c)) s.
Proof.
  induction s as [s IH] using list_length_ind.
  destruct s as [|c t]; [reflexivity|].
  rewrite replaceAll_ClsPlus_cons. simpl filter.
  destruct (in_class n items c) eqn:Hc; simpl.
  - rewrite IH by (pose proof (dropWhile_length (in_class n items) t); simpl; lia).
    clear IH. induction t as [|d t IHt]; simpl; [reflexivity|].
    destruct (in_class n items d) eqn:Hd; simpl; [exact IHt | rewrite Hd; reflexivity].
  - rewrite IH by (simpl; lia). reflexivity.
Qed.

(** The characters left after the runs of a class are replaced by [rep]. *)
Lemma forallb_replaceAll_ClsPlus (q : char -> bool) (n : bool)
    (items : list class_item) (rep : list char) (s : list char) :
  forallb q rep = true ->
  forallb (fun c => in_class n items c || q c) s = true ->
  forallb q (replaceAll (ClsPlus n items) [Text rep] s) = true.
Proof.
  intros Hrep. induction s as [s IH] using list_length_ind. intros Hs.
  destruct s as [|c t]; [reflexivity|].
  rewrite replaceAll_ClsPlus_cons. simpl in Hs.
  apply andb_true_iff in Hs as [Hc Ht].
  destruct (in_class n items c) eqn:E.
  - rewrite forallb_app. apply andb_true_iff; split.
    + simpl. rewrite app_nil_r. exact Hrep.
    + apply IH.
      * pose proof (dropWhile_length (in_class n items) t); simpl; lia.
      * apply forallb_dropWhile, Ht.
  - simpl in Hc. simpl. rewrite Hc; simpl. apply IH; [simpl; lia | exact Ht].
Qed.

(** *** [split], one step at a time *)

Lemma split_from_skip (r : regex) (n : nat) (cur s : list char) :
  split_from r n cur s = split_from r 0 cur (skipn n s).
Proof.
  revert n; induction s as [|c t IH]; intros [|n]; try reflexivity.
  cbn [split_from skipn]. apply IH.
Qed.

Lemma split_from_match (r : regex) (cur : list char) (c : char) (t : list char)
    (g : groups) (rest : list char) :
  exec r (c :: t) = Some (g, rest) ->
  split_from r 0 cur (c :: t) = rev cur :: split_from r 0 [] rest.
Proof.
  intros E. cbn [split_from]. rewrite E. f_equal.
  rewrite split_from_skip. f_equal.
  apply exec_sound in E as (pre & Hs & Hne & _).
  destruct pre as [|c' pre]; [contradiction|].
  injection Hs as _ ->.
  rewrite length_app.
  replace (length pre + length rest - length rest)%nat with (length pre) by lia.
  apply skipn_length_app.
Qed.

Lemma split_from_nomatch (r : regex) (cur : list char) (c : char) (t : list char) :
  exec r (c :: t) = None ->
  split_from r 0 cur (c :: t) = split_from r 0 (c :: cur) t.
Proof. intros E. cbn [split_from]. rewrite E. reflexivity. Qed.

Lemma split_from_copy (r : regex) (cur w rest : list char) :
  forallb (fun c => negb (can_start r c)) w = true ->
  split_from r 0 cur (w ++ rest) = split_from r 0 (rev w ++ cur) rest.
Proof.
  revert cur; induction w as [|c w IH]; cbn [app forallb rev]; intros cur H;
    [reflexivity|].
  apply andb_true_iff in H as [Hc Hw]. apply negb_true_iff in Hc.
  rewrite split_from_nomatch by (apply exec_cannot_start, Hc).
  rewrite (IH _ Hw), <- app_assoc. reflexivity.
Qed.

(** A string in which the pattern cannot start anywhere is one piece. *)
Lemma split_cannot_start (r : regex) (s : list char) :
  forallb (fun c => negb (can_start r c)) s = true ->
  split r s = [s].
Proof.
  intros H. unfold split. rewrite <- (app_nil_r s) at 1.
  rewrite (split_from_copy r [] s [] H). cbn [split_from].
  rewrite app_nil_r, rev_involutive. reflexivity.
Qed.

Lemma split_from_ClsPlus_cons (n : bool) (items : list class_item)
    (cur : list char) (c : char) (t : list char) :
  split_from (ClsPlus n items) 0 cur (c :: t) =
  if in_class n items c
  then rev cur :: split_from (ClsPlus n items) 0 [] (dropWhile (in_class n items) t)
  else split_from (ClsPlus n items) 0 (c :: cur) t.
Proof.
  destruct (in_class n items c) eqn:Hc.
  - apply (split_from_match _ _ _ _ []). rewrite exec_ClsPlus, Hc. reflexivity.
  - apply split_from_nomatch. rewrite exec_ClsPlus, Hc. reflexivity.
Qed.

(** Every piece of a split on [[...]+] is a substring of the input with
    no character of the class. *)
Lemma split_from_ClsPlus_infix (n : bool) (items : list class_item) :
  forall (s cur w : list char),
  forallb (fun c => negb (in_class n items c)) cur = true ->
  In w (split_from (ClsPlus n items) 0 cur s) ->
  forallb (fun c => negb (in_class n items c)) w = true
  /\ exists x y, rev cur ++ s = x ++ w ++ y.
Proof.
  intros s. induction s as [s IH] using list_length_ind. intros cur w Hcur Hw.
  destruct s as [|c t].
  - cbn [split_from] in Hw. destruct Hw as [<-|[]].
    split; [rewrite forallb_rev; exact Hcur|].
    exists [], []. rewrite !app_nil_r. reflexivity.
  - rewrite split_from_ClsPlus_cons in Hw.
    destruct (in_class n items c) eqn:Hc.
    + destruct Hw as [<-|Hw].
      * split; [rewrite forallb_rev; exact Hcur|].
        exists [], (c :: t). reflexivity.
      * destruct (dropWhile_split (in_class n items) t) as [pre [Et _]].
        apply IH in Hw as [Hn (x & y & E)]; [| |reflexivity].
        -- split; [exact Hn|].
           exists (rev cur ++ c :: pre ++ x), y.
           rewrite Et at 1. simpl in E. rewrite E.
           rewrite <- !app_assoc. simpl. rewrite <- !app_assoc. reflexivity.
        -- pose proof (dropWhile_length (in_class n items) t). simpl; lia.
    + apply IH in Hw as [Hn (x & y & E)].
      * split; [exact Hn|]. exists x, y. rewrite <- E. simpl.
        rewrite <- app_assoc. reflexivity.
      * simpl; lia.
      * simpl. rewrite Hc, Hcur. reflexivity.
Qed.

(** Words joined by one separator of the class split into the words. *)
Lemma split_join (n : bool) (items : list class_item) (sep : char)
    (ts : list (list char)) :
  in_class n items sep = true ->
  ts <> [] ->
  (forall w, In w ts ->
     w <> [] /\ forallb (fun c => negb (in_class n items c)) w = true) ->
  split (ClsPlus n items) (join [sep] ts) = ts.
Proof.
  intros Hsep Hne Hts. unfold split.
  induction ts as [|w ts IH]; [contradiction|]. clear Hne.
  destruct (Hts w (or_introl eq_refl)) as [_ Hw].
  destruct ts as [|w' ts'].
  - simpl join. rewrite <- (app_nil_r w) at 1.
    rewrite split_from_copy by exact Hw. cbn [split_from].
    rewrite app_nil_r, rev_involutive. reflexivity.
  - rewrite join_cons.
    rewrite split_from_copy by exact Hw.
    change ([sep] ++ join [sep] (w' :: ts')) with (sep :: join [sep] (w' :: ts')).
    rewrite split_from_ClsPlus_cons, Hsep.
    rewrite app_nil_r, rev_involutive. f_equal.
    destruct (Hts w' (or_intror (or_introl eq_refl))) as [Hw'ne Hw'].
    assert (Hd : dropWhile (in_class n items) (join [sep] (w' :: ts'))
                 = join [sep] (w' :: ts')).
    { destruct w' as [|a w']; [contradiction|].
      simpl in Hw'. apply andb_true_iff in Hw' as [Ha _].
      apply negb_true_iff in Ha.
      destruct ts'; simpl; rewrite Ha; reflexivity. }
    rewrite Hd. apply IH; [discriminate|].
    intros x Hx. apply Hts. right; exact Hx.
Qed.

(** *** Neighbours *)

Lemma adj_free_cons (bad : char -> char -> bool) (a b : char) (t : list char) :
  adj_free bad (a :: b :: t) = negb (bad a b) && adj_free bad (b :: t).
Proof. reflexivity. Qed.

Lemma adj_free_tail (bad : char -> char -> bool) (a : char) (t : list char) :
  adj_free bad (a :: t) = true -> adj_free bad t = true.
Proof.
  destruct t as [|b t]; [reflexivity|].
  rewrite adj_free_cons. intros H; apply andb_true_iff in H as [_ H]; exact H.
Qed.

Lemma adj_free_suffix (bad : char -> char -> bool) (x y : list char) :
  adj_free bad (x ++ y) = true -> adj_free bad y = true.
Proof.
  induction x as [|a x IH]; [trivial|].
  intros H. apply IH. apply (adj_free_tail bad a). exact H.
Qed.


(** No neighbours are related when no character can be the second. *)
Lemma adj_free_no_second (p q : char -> bool) (s : list char) :
  forallb (fun c => negb (q c)) s = true ->
  adj_free (fun a b => p a && q b) s = true.
Proof.
  induction s as [|a t IH]; [reflexivity|].
  destruct t as [|b t]; [reflexivity|].
  intros H. rewrite adj_free_cons.
  simpl in H. apply andb_true_iff in H as [_ H].
  rewrite (IH H). simpl in H. apply andb_true_iff in H as [Hb _].
  apply negb_true_iff in Hb. rewrite Hb, andb_false_r. reflexivity.
Qed.

(** *** [([p])([q])] replaced by ['$1 $2'] *)

Lemma insert_between_cons (p q : char -> bool) (a b : char) (t : list char) :
  insert_between p q (a :: b :: t) =
  if p a && q b then a :: 0x20 :: b :: insert_between p q t
  else a :: insert_between p q (b :: t).
Proof. reflexivity. Qed.

Lemma exec_pair (n1 : bool) (i1 : list class_item) (n2 : bool) (i2 : list class_item)
    (s : list char) :
  exec (Seq (Group (Cls n1 i1)) (Group (Cls n2 i2))) s =
  match s with
  | a :: b :: t =>
    if in_class n1 i1 a && in_class n2 i2 b then Some ([[a]; [b]], t) else None
  | _ => None
  end.
Proof.
  assert (one : forall k, (S k - k = 1)%nat) by (intros; lia).
  destruct s as [|a [|b t]]; unfold exec; cbn [rmatch].
  - reflexivity.
  - destruct (in_class n1 i1 a); reflexivity.
  - destruct (in_class n1 i1 a); [|reflexivity].
    destruct (in_class n2 i2 b); [|reflexivity].
    cbn [length]. rewrite !one. reflexivity.
Qed.

Lemma replaceAll_pair (n1 : bool) (i1 : list class_item) (n2 : bool)
    (i2 : list class_item) (s : list char) :
  replaceAll (Seq (Group (Cls n1 i1)) (Group (Cls n2 i2)))
             [Ref 1; Text (js " "); Ref 2] s
  = insert_between (in_class n1 i1) (in_class n2 i2) s.
Proof.
  induction s as [s IH] using list_length_ind.
  destruct s as [|a [|b t]].
  - reflexivity.
  - rewrite replaceAll_nomatch by (rewrite exec_pair; reflexivity). reflexivity.
  - rewrite insert_between_cons.
    destruct (in_class n1 i1 a && in_class n2 i2 b) eqn:E.
    + rewrite (replaceAll_match _ _ _ _ [[a]; [b]] t) by (rewrite exec_pair, E; reflexivity).
      rewrite IH by (simpl; lia). reflexivity.
    + rewrite replaceAll_nomatch by (rewrite exec_pair, E; reflexivity).
      rewrite IH by (simpl; lia). reflexivity.
Qed.

(** Where no neighbours match, nothing is inserted. *)
Lemma insert_between_id (p q : char -> bool) (s : list char) :
  adj_free (fun a b => p a && q b) s = true -> insert_between p q s = s.
Proof.
  induction s as [|a t IH]; [reflexivity|].
  destruct t as [|b t]; [reflexivity|].
  rewrite adj_free_cons. intros H; apply andb_true_iff in H as [H1 H2].
  apply negb_true_iff in H1. rewrite insert_between_cons, H1.
  f_equal. apply IH, H2.
Qed.

(** *** Code points and code units *)

Lemma code_points_bmp (s : jsstring) :
  forallb (fun c => c <? 0xD800) s = true -> code_points s = s.
Proof.
  induction s as [|h t IH]; [reflexivity|].
  intros H. simpl in H. apply andb_true_iff in H as [Hh Ht].
  cbn [code_points]. rewrite (IH Ht).
  destruct t as [|l t']; [reflexivity|].
  replace (is_lead h) with false; [reflexivity|].
  symmetry. apply in_range_false. apply N.ltb_lt in Hh. left; exact Hh.
Qed.

Lemma code_units_bmp (s : list char) :
  forallb (fun c => c <? 0xD800) s = true -> code_units s = s.
Proof.
  induction s as [|h t IH]; [reflexivity|].
  intros H. simpl in H. apply andb_true_iff in H as [Hh Ht].
  unfold code_units in *. cbn [flat_map]. rewrite (IH Ht).
  unfold code_unit_seq. apply N.ltb_lt in Hh.
  replace (h <? 0x10000) with true; [reflexivity|].
  symmetry. apply N.ltb_lt. lia.
Qed.

(** ** Character classes and case conversion *)

Lemma alnum_not_space (c : char) : is_alnum c = true -> isWhiteSpace c = false.
Proof. intros H. char_solve. Qed.

Lemma alnum_not_camel_separator (c : char) :
  is_alnum c = true -> camel_separator c = false.
Proof. intros H. char_solve. Qed.

Lemma alnum_written_out (c : char) : is_alnum c = true -> written_out c = true.
Proof. intros H. char_solve. Qed.

Lemma alnum_ascii (c : char) : is_alnum c = true -> is_ascii c = true.
Proof. intros H. char_solve. Qed.

Lemma alnum_lower1 (c : char) : is_alnum c = true -> is_alnum (lower1 c) = true.
Proof. intros H. char_solve. Qed.

Lemma alnum_upper1 (c : char) : is_alnum c = true -> is_alnum (upper1 c) = true.
Proof. intros H. char_solve. Qed.

Lemma lower1_fixed_iff (c : char) :
  is_alnum c = true -> (lower1 c = c <-> is_upper c = false).
Proof. intros H. split; intros G; char_solve. Qed.

(** The classes of the patterns, as predicates. *)
Lemma class_kebab_separator (c : char) :
  in_class false [Chr (ch "_"); Chr (ch "-"); WhiteSpace] c = kebab_separator c.
Proof. class_eval. Qed.

Lemma class_camel_separator (c : char) :
  in_class false [WhiteSpace; Chr (ch "-"); Chr (ch "_"); Chr (ch ".")] c
  = camel_separator c.
Proof. class_eval. Qed.

Lemma class_not_alnum_or_space (c : char) :
  in_class true [lower_az; upper_AZ; digit_09; Chr (ch " ")] c
  = negb (alnum_or_space c).
Proof. class_eval. Qed.

Lemma class_upper (c : char) : in_class false [upper_AZ] c = is_upper c.
Proof. class_eval. Qed.

Lemma class_digit (c : char) : in_class false [digit_09] c = is_digit c.
Proof. class_eval. Qed.

Lemma class_letter (c : char) : in_class false [lower_az; upper_AZ] c = is_letter c.
Proof. class_eval. Qed.

Lemma class_space (c : char) : in_class false [WhiteSpace] c = isWhiteSpace c.
Proof. class_eval. Qed.

Lemma class_py_separator (c : char) :
  in_class false [PyWhiteSpace; Chr (ch "-")] c = py_isspace c || (c =? ch "-").
Proof. class_eval. Qed.

Lemma class_not_letter_number_space (c : char) :
  written_out c = true ->
  in_class true [Prop_L; Prop_N; WhiteSpace] c
  = negb (is_letter c || is_cyrillic c || is_digit c || isWhiteSpace c).
Proof.
  intros H. unfold in_class; cbn [existsb item_matches].
  unfold gc_L, gc_N. rewrite H. btauto.
Qed.

(** The case conversions, on the characters written out. *)
Lemma toLowerCase_written_out (s : jsstring) :
  forallb written_out s = true -> toLowerCase s = map lower1 s.
Proof. intros H. unfold toLowerCase. rewrite H. reflexivity. Qed.

Lemma toUpperCase_ascii (s : jsstring) :
  forallb is_ascii s = true -> toUpperCase s = map upper1 s.
Proof. intros H. unfold toUpperCase. rewrite H. reflexivity. Qed.

Lemma toLowerCase_alnum (s : jsstring) :
  forallb is_alnum s = true -> toLowerCase s = map lower1 s.
Proof.
  intros H. apply toLowerCase_written_out.
  apply (forallb_impl is_alnum); [exact alnum_written_out | exact H].
Qed.

Lemma forallb_map (q : char -> bool) (f : char -> char) (s : list char) :
  forallb q (map f s) = forallb (fun c => q (f c)) s.
Proof.
  induction s as [|c t IH]; simpl; [reflexivity | rewrite IH; reflexivity].
Qed.

Lemma forallb_filter_same (q : char -> bool) (s : list char) :
  forallb q (filter q s) = true.
Proof.
  induction s as [|c t IH]; simpl; [reflexivity|].
  destruct (q c) eqn:E; simpl; [rewrite E|]; exact IH.
Qed.

Lemma filter_all (q : char -> bool) (s : list char) :
  forallb q s = true -> filter q s = s.
Proof.
  induction s as [|c t IH]; simpl; [reflexivity|].
  intros H; apply andb_true_iff in H as [Hc Ht].
  rewrite Hc, (IH Ht); reflexivity.
Qed.

Lemma filter_ext_bool (p q : char -> bool) (s : list char) :
  (forall c, p c = q c) -> filter p s = filter q s.
Proof.
  intros E. induction s as [|c t IH]; simpl; [reflexivity|].
  rewrite E, IH; reflexivity.
Qed.

Lemma forallb_ext_bool (p q : char -> bool) (s : list char) :
  (forall c, p c = q c) -> forallb p s = forallb q s.
Proof.
  intros E. induction s as [|c t IH]; simpl; [reflexivity|].
  rewrite E, IH; reflexivity.
Qed.

(** ** [camelCase] and [dotCase] *)

(** The second replacement of [cleaned] deletes what is not an ASCII
    letter, a digit or a space. *)
Lemma cleaned_filter (s : jsstring) :
  cleaned s
  = trim (filter alnum_or_space
            (replaceAll
               (ClsPlus false [WhiteSpace; Chr (ch "-"); Chr (ch "_"); Chr (ch ".")])
               [Text (js " ")] s)).
Proof.
  unfold cleaned. rewrite replaceAll_ClsPlus_delete. f_equal.
  apply filter_ext_bool. intros c.
  rewrite class_not_alnum_or_space. apply negb_involutive.
Qed.

(** Only ASCII letters, digits and spaces are left in [cleaned]. *)
Lemma cleaned_chars (s : jsstring) : forallb alnum_or_space (cleaned s) = true.
Proof.
  unfold cleaned. apply forallb_trim. rewrite replaceAll_ClsPlus_delete.
  rewrite (filter_ext_bool _ alnum_or_space)
    by (intros c; rewrite class_not_alnum_or_space; apply negb_involutive).
  apply forallb_filter_same.
Qed.

Lemma split_on_pieces (q : char -> bool) (sep : char) :
  forall s cur,
  forallb q cur = true ->
  forallb (fun c => q c || (c =? sep)) s = true ->
  forallb (forallb q) (split_on sep cur s) = true.
Proof.
  induction s as [|c t IH]; intros cur Hcur Hs; cbn [split_on].
  - simpl. rewrite forallb_rev, Hcur. reflexivity.
  - simpl in Hs. apply andb_true_iff in Hs as [Hc Ht].
    destruct (c =? sep) eqn:E.
    + simpl. rewrite forallb_rev, Hcur. apply IH; [reflexivity | exact Ht].
    + apply IH; [|exact Ht]. rewrite orb_false_r in Hc.
      simpl. rewrite Hc, Hcur. reflexivity.
Qed.

Lemma split_on_copy (sep : char) (w cur rest : list char) :
  forallb (fun c => negb (c =? sep)) w = true ->
  split_on sep cur (w ++ rest) = split_on sep (rev w ++ cur) rest.
Proof.
  revert cur; induction w as [|c w IH]; intros cur H; [reflexivity|].
  simpl in H. apply andb_true_iff in H as [Hc Hw]. apply negb_true_iff in Hc.
  cbn [app split_on rev]. rewrite Hc, (IH _ Hw), <- app_assoc. reflexivity.
Qed.

Lemma split_on_one (sep : char) (s : list char) :
  forallb (fun c => negb (c =? sep)) s = true -> split_on sep [] s = [s].
Proof.
  intros H. rewrite <- (app_nil_r s) at 1.
  rewrite (split_on_copy sep s [] [] H). cbn [split_on].
  rewrite app_nil_r, rev_involutive. reflexivity.
Qed.

Lemma camel_word_alnum (w : jsstring) (i : nat) :
  forallb is_alnum w = true -> forallb is_alnum (camel_word w i) = true.
Proof.
  intros H. destruct i as [|i]; cbn [camel_word].
  - rewrite toLowerCase_alnum, forallb_map by exact H.
    apply (forallb_impl is_alnum); [exact alnum_lower1 | exact H].
  - destruct w as [|c t]; [reflexivity|].
    simpl in H. apply andb_true_iff in H as [Hc Ht].
    cbn [charAt0 slice1 tl].
    rewrite toUpperCase_ascii by (simpl; rewrite (alnum_ascii c Hc); reflexivity).
    rewrite toLowerCase_alnum by exact Ht.
    simpl. rewrite (alnum_upper1 c Hc), forallb_map. simpl.
    apply (forallb_impl is_alnum); [exact alnum_lower1 | exact Ht].
Qed.

Lemma mapi_camel_alnum (ws : list jsstring) (i : nat) :
  forallb (forallb is_alnum) ws = true ->
  forallb (forallb is_alnum) (mapi_from camel_word i ws) = true.
Proof.
  revert i; induction ws as [|w ws IH]; intros i H; [reflexivity|].
  simpl in H. apply andb_true_iff in H as [Hw Hws].
  cbn [mapi_from forallb]. rewrite (camel_word_alnum w i Hw), (IH _ Hws).
  reflexivity.
Qed.

Lemma cleaned_words_alnum (s : jsstring) :
  forallb (forallb is_alnum) (split_on (ch " ") [] (cleaned s)) = true.
Proof.
  apply split_on_pieces; [reflexivity | exact (cleaned_chars s)].
Qed.

(** [camelCase] returns, and returns ASCII letters and digits. *)
Lemma camelCase_output (s : jsstring) :
  exists o, camelCase (VString s) = Return o /\ forallb is_alnum o = true.
Proof.
  unfold camelCase.
  destruct (is_empty (trim s)); [exists []; split; reflexivity|].
  destruct (is_empty (cleaned s)); [exists []; split; reflexivity|].
  eexists; split; [reflexivity|].
  apply forallb_join; [reflexivity|].
  apply mapi_camel_alnum, cleaned_words_alnum.
Qed.

Lemma dotCase_output (s : jsstring) :
  exists o, dotCase (VString s) = Return o
            /\ forallb (fun c => is_alnum c || (c =? ch ".")) o = true.
Proof.
  unfold dotCase.
  destruct (is_empty (trim s)); [exists []; split; reflexivity|].
  destruct (is_empty (cleaned s)); [exists []; split; reflexivity|].
  eexists; split; [reflexivity|].
  apply forallb_join; [reflexivity|].
  pose proof (cleaned_words_alnum s) as H.
  induction (split_on (ch " ") [] (cleaned s)) as [|w ws IH]; [reflexivity|].
  simpl in H. apply andb_true_iff in H as [Hw Hws].
  cbn [map forallb]. rewrite (IH Hws), andb_true_r.
  rewrite toLowerCase_alnum, forallb_map by exact Hw.
  apply (forallb_impl is_alnum); [|exact Hw].
  intros c Hc. rewrite (alnum_lower1 c Hc). reflexivity.
Qed.

(** ASCII letters and digits pass [cleaned] unchanged. *)
Lemma cleaned_alnum (o : jsstring) :
  forallb is_alnum o = true -> cleaned o = o.
Proof.
  intros H. unfold cleaned.
  rewrite (replaceAll_cannot_start (ClsPlus false _) [Text _]).
  - rewrite replaceAll_ClsPlus_delete, filter_all.
    + apply trim_no_space. apply (forallb_impl is_alnum); [|exact H].
      intros c Hc. rewrite (alnum_not_space c Hc). reflexivity.
    + apply (forallb_impl is_alnum); [|exact H].
      intros c Hc. rewrite class_not_alnum_or_space, negb_involutive.
      unfold alnum_or_space. rewrite Hc. reflexivity.
  - apply (forallb_impl is_alnum); [|exact H].
    intros c Hc. cbn [can_start].
    rewrite class_camel_separator, (alnum_not_camel_separator c Hc). reflexivity.
Qed.

(** On its own output [camelCase] sees one word, and lowers it. *)
Lemma camelCase_alnum (o : jsstring) :
  forallb is_alnum o = true -> camelCase (VString o) = Return (toLowerCase o).
Proof.
  intros H. destruct o as [|c t]; [reflexivity|].
  assert (Hsp : forallb (fun c => negb (isWhiteSpace c)) (c :: t) = true).
  { apply (forallb_impl is_alnum); [|exact H].
    intros d Hd. rewrite (alnum_not_space d Hd). reflexivity. }
  unfold camelCase. rewrite (trim_no_space _ Hsp). cbn [is_empty].
  rewrite (cleaned_alnum _ H). cbn [is_empty].
  rewrite split_on_one.
  - reflexivity.
  - apply (forallb_impl is_alnum); [|exact H].
    intros d Hd. apply negb_true_iff. char_solve.
Qed.

Lemma map_lower1_fixed (o : jsstring) :
  forallb is_alnum o = true ->
  (map lower1 o = o <-> forallb (fun c => negb (is_upper c)) o = true).
Proof.
  induction o as [|c t IH]; intros H; [split; reflexivity|].
  simpl in H. apply andb_true_iff in H as [Hc Ht].
  cbn [map forallb]. rewrite andb_true_iff, negb_true_iff.
  rewrite <- (IH Ht), <- (lower1_fixed_iff c Hc).
  split; [intros E; injection E; auto | intros [-> ->]; reflexivity].
Qed.

(** No ASCII letter or digit in the input: nothing is left in [cleaned]. *)
Lemma cleaned_nothing (s : jsstring) :
  forallb (fun c => negb (is_ascii c) || isWhiteSpace c) s = true ->
  cleaned s = [].
Proof.
  intros H. unfold cleaned.
  set (inner := replaceAll _ [Text (js " ")] s).
  assert (Hin : forallb (fun c => negb (is_alnum c)) inner = true).
  { apply forallb_replaceAll.
    - intros t [E|[]]. injection E as <-. reflexivity.
    - apply (forallb_impl (fun c => negb (is_ascii c) || isWhiteSpace c));
        [|exact H].
      intros c Hc. apply negb_true_iff. char_solve. }
  rewrite replaceAll_ClsPlus_delete.
  set (kept := filter _ inner).
  assert (Hk : forallb isWhiteSpace kept = true).
  { subst kept. clearbody inner. induction inner as [|c t IH]; [reflexivity|].
    simpl in Hin. apply andb_true_iff in Hin as [Hc Ht].
    cbn [filter]. rewrite class_not_alnum_or_space, negb_involutive.
    destruct (alnum_or_space c) eqn:E; [|exact (IH Ht)].
    cbn [forallb]. rewrite (IH Ht), andb_true_r.
    apply negb_true_iff in Hc. char_solve. }
  rewrite <- trim_empty_iff in Hk.
  destruct (trim kept); [reflexivity | discriminate].
Qed.

(** ** [toKebabCase] *)

Lemma adj_free_app_sep (bad : char -> char -> bool) (sep : char) (w r : list char) :
  (forall x, bad x sep = false /\ bad sep x = false) ->
  adj_free bad w = true -> adj_free bad r = true ->
  adj_free bad (w ++ sep :: r) = true.
Proof.
  intros Hsep Hw Hr. induction w as [|a w IH].
  - destruct r as [|b r]; [reflexivity|].
    cbn [app]. rewrite adj_free_cons, (proj2 (Hsep b)), Hr. reflexivity.
  - destruct w as [|b w].
    + cbn [app]. rewrite adj_free_cons, (proj1 (Hsep a)).
      cbn [negb andb]. exact (IH eq_refl).
    + change ((a :: b :: w) ++ sep :: r) with (a :: b :: (w ++ sep :: r)).
      rewrite adj_free_cons in *. apply andb_true_iff in Hw as [Hab Hw].
      rewrite Hab. cbn [andb]. apply IH, Hw.
Qed.

Lemma adj_free_join (bad : char -> char -> bool) (sep : char) (ts : list jsstring) :
  (forall x, bad x sep = false /\ bad sep x = false) ->
  forallb (adj_free bad) ts = true ->
  adj_free bad (join [sep] ts) = true.
Proof.
  intros Hsep. induction ts as [|w ts IH]; [reflexivity|].
  intros H. cbn [forallb] in H. apply andb_true_iff in H as [Hw Hts].
  destruct ts as [|w' ts']; [exact Hw|].
  rewrite join_cons. apply adj_free_app_sep; [exact Hsep | exact Hw | apply IH, Hts].
Qed.

Lemma letter_digit_space (x : char) :
  letter_digit x 0x20 = false /\ letter_digit 0x20 x = false.
Proof.
  unfold letter_digit.
  replace (is_letter 0x20) with false by reflexivity.
  replace (is_digit 0x20) with false by reflexivity.
  rewrite !andb_false_r. split; reflexivity.
Qed.

Lemma lower1_letter (c : char) : is_letter (lower1 c) = is_letter c.
Proof. destruct (is_letter c) eqn:E; char_solve. Qed.

Lemma map_join (f : char -> char) (sep : jsstring) (ts : list jsstring) :
  map f (join sep ts) = join (map f sep) (map (map f) ts).
Proof.
  induction ts as [|w ts IH]; [reflexivity|].
  destruct ts as [|w' ts']; [reflexivity|].
  rewrite join_cons. cbn [map]. rewrite join_cons, !map_app, IH. reflexivity.
Qed.

Lemma map_fixed {A : Type} (f : A -> A) (l : list A) :
  (forall x, In x l -> f x = x) -> map f l = l.
Proof.
  induction l as [|x l IH]; simpl; intros H; [reflexivity|].
  rewrite (H x (or_introl eq_refl)), IH; [reflexivity|].
  intros y Hy; apply H; right; exact Hy.
Qed.

(** *** The steps of [toKebabCase] on strings that need none *)

(** No capital: [/([a-z0-9])([A-Z])/] and [/([A-Z]+)([A-Z][a-z0-9]+)/]
    change nothing. *)
Lemma lower_upper_step_id (y : jsstring) :
  forallb (fun c => negb (is_upper c)) y = true ->
  replaceAll (Seq (Group (Cls false [lower_az; digit_09]))
                  (Group (Cls false [upper_AZ])))
             [Ref 1; Text (js " "); Ref 2] y = y.
Proof.
  intros H. rewrite replaceAll_pair. apply insert_between_id.
  apply adj_free_no_second.
  rewrite (forallb_ext_bool _ (fun c => negb (is_upper c))); [exact H|].
  intros c. rewrite class_upper. reflexivity.
Qed.

Lemma acronym_step_id (y : jsstring) :
  forallb (fun c => negb (is_upper c)) y = true ->
  replaceAll (Seq (Group (ClsPlus false [upper_AZ]))
                  (Group (Seq (Cls false [upper_AZ])
                              (ClsPlus false [lower_az; digit_09]))))
             [Ref 1; Text (js " "); Ref 2] y = y.
Proof.
  intros H. apply replaceAll_cannot_start.
  rewrite (forallb_ext_bool _ (fun c => negb (is_upper c))); [exact H|].
  intros c. cbn [can_start]. rewrite class_upper. reflexivity.
Qed.

(** No letter next to a digit: [/([a-zA-Z])([0-9])/] and
    [/([0-9])([a-zA-Z])/] change nothing. *)
Lemma letter_digit_step_id (y : jsstring) :
  adj_free letter_digit y = true ->
  replaceAll (Seq (Group (Cls false [lower_az; upper_AZ]))
                  (Group (Cls false [digit_09])))
             [Ref 1; Text (js " "); Ref 2] y = y.
Proof.
  intros H. rewrite replaceAll_pair. apply insert_between_id.
  revert H. induction y as [|a t IH]; [reflexivity|].
  destruct t as [|b t]; [reflexivity|].
  rewrite !adj_free_cons. intros H. apply andb_true_iff in H as [Hab Ht].
  rewrite (IH Ht), andb_true_r. rewrite class_letter, class_digit.
  apply negb_true_iff in Hab. unfold letter_digit in Hab.
  apply orb_false_iff in Hab as [Hab _]. rewrite Hab. reflexivity.
Qed.

Lemma digit_letter_step_id (y : jsstring) :
  adj_free letter_digit y = true ->
  replaceAll (Seq (Group (Cls false [digit_09]))
                  (Group (Cls false [lower_az; upper_AZ])))
             [Ref 1; Text (js " "); Ref 2] y = y.
Proof.
  intros H. rewrite replaceAll_pair. apply insert_between_id.
  revert H. induction y as [|a t IH]; [reflexivity|].
  destruct t as [|b t]; [reflexivity|].
  rewrite !adj_free_cons. intros H. apply andb_true_iff in H as [Hab Ht].
  rewrite (IH Ht), andb_true_r. rewrite class_letter, class_digit.
  apply negb_true_iff in Hab. unfold letter_digit in Hab.
  apply orb_false_iff in Hab as [_ Hab]. rewrite Hab. reflexivity.
Qed.

Lemma written_out_bmp (s : jsstring) :
  forallb written_out s = true -> forallb (fun c => c <? 0xD800) s = true.
Proof.
  apply forallb_impl. intros c Hc. apply N.ltb_lt. char_solve.
Qed.

(** [/[^\p{L}\p{N}\s]+/gu] on characters that are written out. *)
Lemma strip_written_out (y : jsstring) :
  forallb written_out y = true ->
  replaceAll_u (ClsPlus true [Prop_L; Prop_N; WhiteSpace]) [] y
  = filter (fun c => is_letter c || is_cyrillic c || is_digit c || isWhiteSpace c) y.
Proof.
  intros H. unfold replaceAll_u.
  rewrite (code_points_bmp y (written_out_bmp y H)).
  rewrite replaceAll_ClsPlus_delete.
  rewrite (filter_ext_in _
             (fun c => is_letter c || is_cyrillic c || is_digit c || isWhiteSpace c)).
  - apply code_units_bmp.
    apply forallb_forall. intros c Hc. apply filter_In in Hc as [Hc _].
    apply (proj1 (forallb_forall _ _) (written_out_bmp y H) c Hc).
  - intros c Hc.
    rewrite class_not_letter_number_space, negb_involutive; [reflexivity|].
    apply (proj1 (forallb_forall _ _) H c Hc).
Qed.

(** From the first replacement on, for a string that needs no boundary:
    delete what is neither letter, digit nor space, split, join. *)
Lemma toKebabCase_plain (s y : jsstring) (ws : list jsstring) :
  is_empty (trim s) = false ->
  replaceAll (ClsPlus false [Chr (ch "_"); Chr (ch "-"); WhiteSpace])
             [Text (js " ")] s = y ->
  forallb (fun c => negb (is_upper c)) y = true ->
  adj_free letter_digit y = true ->
  forallb written_out y = true ->
  split (ClsPlus false [WhiteSpace])
        (filter (fun c => is_letter c || is_cyrillic c || is_digit c || isWhiteSpace c) y)
  = ws ->
  toKebabCase (VString s)
  = Return (toLowerCase (join (js "-") (filter (fun w => negb (is_empty w)) ws))).
Proof.
  intros Hne Hy Hup Hadj Hwr Hws.
  unfold toKebabCase. rewrite Hne, Hy.
  rewrite (lower_upper_step_id y Hup), (acronym_step_id y Hup).
  rewrite (letter_digit_step_id y Hadj), (digit_letter_step_id y Hadj).
  rewrite (strip_written_out y Hwr).
  set (z := filter _ y) in *.
  assert (Hz : forallb (fun c => c <? 0xD800) z = true).
  { apply forallb_forall. intros c Hc. apply filter_In in Hc as [Hc _].
    apply (proj1 (forallb_forall _ _) (written_out_bmp y Hwr) c Hc). }
  unfold split_u. rewrite (code_points_bmp z Hz).
  rewrite map_fixed; [rewrite Hws; reflexivity|].
  intros w Hw. apply code_units_bmp.
  apply split_from_ClsPlus_infix in Hw as [_ (x & y' & E)]; [|reflexivity].
  cbn [rev app] in E. rewrite E, !forallb_app in Hz.
  apply andb_true_iff in Hz as [_ Hz]. apply andb_true_iff in Hz as [Hz _].
  exact Hz.
Qed.

(** *** Kebab-case strings are fixed points *)

Lemma kebab_word_inv (w : jsstring) :
  kebab_word w = true ->
  w <> []
  /\ forallb (fun c => is_lower c || is_digit c) w = true
  /\ adj_free letter_digit w = true.
Proof.
  unfold kebab_word. intros H.
  apply andb_true_iff in H as [H Hadj]. apply andb_true_iff in H as [Hne Hch].
  repeat split; [|exact Hch | exact Hadj].
  intros ->. discriminate.
Qed.

Lemma kebab_words_chars (q : char -> bool) (ts : list jsstring) :
  (forall c, is_lower c || is_digit c = true -> q c = true) ->
  forallb kebab_word ts = true -> forallb (forallb q) ts = true.
Proof.
  intros Hq. induction ts as [|w ts IH]; [reflexivity|].
  cbn [forallb]. intros H. apply andb_true_iff in H as [Hw Hts].
  destruct (kebab_word_inv w Hw) as (_ & Hch & _).
  rewrite (IH Hts), andb_true_r.
  apply (forallb_impl (fun c => is_lower c || is_digit c)); [exact Hq | exact Hch].
Qed.

Lemma kebab_words_head (sep : jsstring) (w : jsstring) (ts : list jsstring) :
  kebab_word w = true ->
  exists a r, join sep (w :: ts) = a :: r /\ is_lower a || is_digit a = true.
Proof.
  intros Hw. destruct (kebab_word_inv w Hw) as (Hne & Hch & _).
  destruct w as [|a w]; [contradiction|].
  cbn [forallb] in Hch. apply andb_true_iff in Hch as [Ha _].
  destruct ts as [|w' ts]; [exists a, w | eexists a, _]; split;
    try exact Ha; reflexivity.
Qed.

Lemma filter_nonempty_all (ts : list jsstring) :
  forallb kebab_word ts = true ->
  filter (fun w => negb (is_empty w)) ts = ts.
Proof.
  induction ts as [|w ts IH]; [reflexivity|].
  cbn [forallb filter]. intros H. apply andb_true_iff in H as [Hw Hts].
  destruct (kebab_word_inv w Hw) as (Hne & _).
  destruct w; [contradiction|]. cbn [is_empty negb]. rewrite (IH Hts). reflexivity.
Qed.

(** [/[_\-\s]+/g]: each hyphen between two words becomes one space. *)
Lemma separators_of_join (ts : list jsstring) :
  forallb kebab_word ts = true ->
  replaceAll sep_re [Text (js " ")] (join (js "-") ts) = join (js " ") ts.
Proof.
  assert (Hcopy : forall w, kebab_word w = true ->
            forallb (fun c => negb (can_start sep_re c)) w = true).
  { intros w Hw. destruct (kebab_word_inv w Hw) as (_ & Hch & _).
    apply (forallb_impl (fun c => is_lower c || is_digit c)); [|exact Hch].
    intros c Hc. cbn [can_start]. rewrite class_kebab_separator.
    apply negb_true_iff. char_solve. }
  induction ts as [|w ts IH]; [reflexivity|].
  cbn [forallb]. intros H. apply andb_true_iff in H as [Hw Hts].
  destruct ts as [|w' ts'].
  - apply replaceAll_cannot_start, Hcopy, Hw.
  - rewrite !join_cons. rewrite replaceAll_copy by (apply Hcopy, Hw).
    f_equal.
    change (js "-" ++ join (js "-") (w' :: ts'))
      with (ch "-" :: join (js "-") (w' :: ts')).
    rewrite replaceAll_ClsPlus_cons.
    replace (in_class false [Chr (ch "_"); Chr (ch "-"); WhiteSpace] (ch "-"))
      with true by reflexivity.
    cbn [forallb] in Hts. apply andb_true_iff in Hts as [Hw' Hts'].
    destruct (kebab_words_head (js "-") w' ts' Hw') as (a & r & E & Ha).
    rewrite E, dropWhile_head, <- E.
    + rewrite IH by (cbn [forallb]; rewrite Hw', Hts'; reflexivity).
      reflexivity.
    + rewrite class_kebab_separator. char_solve.
Qed.

(** A kebab-case string, words joined by single hyphens, is returned as it
    is. *)
Lemma kebab_fixed (ts : list jsstring) :
  forallb kebab_word ts = true ->
  toKebabCase (VString (join (js "-") ts)) = Return (join (js "-") ts).
Proof.
  intros H. destruct ts as [|w ts]; [reflexivity|].
  assert (Hw : kebab_word w = true)
    by (cbn [forallb] in H; apply andb_true_iff in H as [Hw _]; exact Hw).
  rewrite (toKebabCase_plain _ (join (js " ") (w :: ts)) (w :: ts)).
  - rewrite (filter_nonempty_all _ H).
    rewrite toLowerCase_written_out.
    + f_equal. apply map_id_on. intros c Hc.
      assert (G : forallb (fun c => is_lower c || is_digit c || (c =? ch "-"))
                    (join (js "-") (w :: ts)) = true).
      { apply forallb_join; [reflexivity|].
        apply kebab_words_chars; [|exact H]. intros d Hd. rewrite Hd. reflexivity. }
      apply (proj1 (forallb_forall _ _) G) in Hc. char_solve.
    + apply forallb_join; [reflexivity|].
      apply kebab_words_chars; [|exact H]. intros d Hd. char_solve.
  - rewrite trim_empty_iff.
    destruct (kebab_words_head (js "-") w ts Hw) as (a & r & E & Ha).
    rewrite E. cbn [forallb].
    replace (isWhiteSpace a) with false; [reflexivity|].
    symmetry. char_solve.
  - apply separators_of_join, H.
  - apply forallb_join; [reflexivity|].
    apply kebab_words_chars; [|exact H].
    intros d Hd. apply negb_true_iff. char_solve.
  - apply (adj_free_join letter_digit 0x20); [exact letter_digit_space|].
    clear Hw. induction (w :: ts) as [|x l IH]; [reflexivity|].
    cbn [forallb] in *. apply andb_true_iff in H as [Hx Hl].
    destruct (kebab_word_inv x Hx) as (_ & _ & Hadj).
    rewrite Hadj, (IH Hl). reflexivity.
  - apply forallb_join; [reflexivity|].
    apply kebab_words_chars; [|exact H]. intros d Hd. char_solve.
  - rewrite filter_all.
    + apply (split_join false [WhiteSpace] 0x20); [reflexivity | discriminate |].
      intros x Hx.
      apply (proj1 (forallb_forall _ _) H) in Hx.
      destruct (kebab_word_inv x Hx) as (Hne & Hch & _).
      split; [exact Hne|].
      apply (forallb_impl (fun c => is_lower c || is_digit c)); [|exact Hch].
      intros c Hc. rewrite class_space. apply negb_true_iff. char_solve.
    + apply forallb_join; [reflexivity|].
      apply kebab_words_chars; [|exact H]. intros d Hd.
      unfold is_letter. apply orb_true_iff in Hd as [Hd|Hd]; rewrite Hd;
        rewrite ?orb_true_r; reflexivity.
Qed.

(** ** The literal scenarios *)

(** C1. The specification and the test of the source expect
    [toKebabCase("item123Name")] to be ["item123-name"]; the function
    also splits between the letter [m] and the digit [1], and returns
    ["item-123-name"]. *)
Theorem toKebabCase_item123Name :
  toKebabCase (VString (js "item123Name")) = Return (js "item-123-name")
  /\ toKebabCase (VString (js "item123Name")) <> Return (js "item123-name").
Proof.
  assert (E : toKebabCase (VString (js "item123Name")) = Return (js "item-123-name"))
    by (vm_compute; reflexivity).
  split; [exact E|]. rewrite E. vm_compute. discriminate.
Qed.

(** C2. The specification and the test of the source expect
    [toKebabCase("ПриветМир")] to be ["привет-мир"]; the patterns that
    split on a change of case know ASCII letters only, and the function
    returns ["приветмир"]. *)
Theorem toKebabCase_PrivetMir :
  toKebabCase (VString (js "ПриветМир")) = Return (js "приветмир")
  /\ toKebabCase (VString (js "ПриветМир")) <> Return (js "привет-мир").
Proof.
  assert (E : toKebabCase (VString (js "ПриветМир")) = Return (js "приветмир"))
    by (vm_compute; reflexivity).
  split; [exact E|]. rewrite E. vm_compute. discriminate.
Qed.

(** C6. [toKebabCase("XMLHttpRequest")] is ["xml-http-request"]: the
    replacement of [/([a-z0-9])([A-Z])/] sets the boundary before
    [Request], the one of [/([A-Z]+)([A-Z][a-z0-9]+)/] the boundary between
    [XML] and [Http]. *)
Theorem toKebabCase_XMLHttpRequest :
  toKebabCase (VString (js "XMLHttpRequest")) = Return (js "xml-http-request")
  /\ replaceAll (Seq (Group (Cls false [lower_az; digit_09]))
                     (Group (Cls false [upper_AZ])))
                [Ref 1; Text (js " "); Ref 2] (js "XMLHttpRequest")
     = js "XMLHttp Request"
  /\ replaceAll (Seq (Group (ClsPlus false [upper_AZ]))
                     (Group (Seq (Cls false [upper_AZ])
                                 (ClsPlus false [lower_az; digit_09]))))
                [Ref 1; Text (js " "); Ref 2] (js "XMLHttp Request")
     = js "XML Http Request".
Proof. repeat split; vm_compute; reflexivity. Qed.

(** C7. [camelCase("fooBar")] is ["foobar"]: the input is one word, lowered
    as a whole. *)
Theorem camelCase_fooBar :
  camelCase (VString (js "fooBar")) = Return (js "foobar")
  /\ split_on (ch " ") [] (cleaned (js "fooBar")) = [js "fooBar"].
Proof. split; vm_compute; reflexivity. Qed.

(** ** The type check *)

Lemma typeof_string (v : value) :
  typeof v = "string"%string <-> exists s, v = VString s.
Proof.
  split.
  - destruct v; simpl; try discriminate. intros _. eexists; reflexivity.
  - intros [s ->]. reflexivity.
Qed.

Lemma fails_on_non_strings_only_intro (f : value -> completion) :
  (forall s, exists o, f (VString s) = Return o) ->
  (forall v, typeof v <> "string"%string -> f v = must_be_string) ->
  fails_on_non_strings_only f.
Proof.
  intros Hs Hn v. destruct (string_dec (typeof v) "string") as [E|E].
  - destruct (proj1 (typeof_string v) E) as [s ->].
    destruct (Hs s) as [o Ho]. rewrite Ho.
    repeat split; try discriminate.
    + intros G; contradiction.
    + intros _. exists o; reflexivity.
  - rewrite (Hn v E). unfold must_be_string.
    repeat split; try tauto.
    intros e G; injection G as <-; reflexivity.
Qed.

(** C4. Each of [toKebabCase], [camelCase] and [dotCase] throws the
    [TypeError] "Input must be a string" exactly when its argument is not
    a string, throws nothing else, and returns for every string. *)
Theorem type_check_is_the_only_failure :
  fails_on_non_strings_only toKebabCase
  /\ fails_on_non_strings_only camelCase
  /\ fails_on_non_strings_only dotCase.
Proof.
  split; [|split]; apply fails_on_non_strings_only_intro.
  - intros s. unfold toKebabCase.
    destruct (is_empty (trim s)); eexists; reflexivity.
  - intros v Hv. destruct v; try reflexivity. contradiction Hv; reflexivity.
  - intros s. destruct (camelCase_output s) as [o [Ho _]]. exists o; exact Ho.
  - intros v Hv. destruct v; try reflexivity. contradiction Hv; reflexivity.
  - intros s. destruct (dotCase_output s) as [o [Ho _]]. exists o; exact Ho.
  - intros v Hv. destruct v; try reflexivity. contradiction Hv; reflexivity.
Qed.

(** ** Blank input *)

Lemma blank_trim (s : jsstring) :
  forallb isWhiteSpace s = true -> is_empty (trim s) = true.
Proof. intros H. rewrite trim_empty_iff. exact H. Qed.

Lemma to_snake_case_blank (t : pystring) :
  forallb py_isspace t = true -> to_snake_case t = [].
Proof.
  intros H. unfold to_snake_case.
  rewrite (replaceAll_cannot_start (Group _)).
  - destruct t as [|c t]; [reflexivity|].
    rewrite replaceAll_ClsPlus_cons.
    simpl in H. apply andb_true_iff in H as [Hc Ht].
    rewrite class_py_separator, Hc. cbn [orb].
    rewrite dropWhile_all.
    + vm_compute. reflexivity.
    + apply (forallb_impl py_isspace); [|exact Ht].
      intros d Hd. rewrite class_py_separator, Hd. reflexivity.
  - apply (forallb_impl py_isspace); [|exact H].
    intros d Hd. cbn [can_start]. rewrite class_upper.
    apply negb_true_iff. char_solve.
Qed.

(** C5. On the empty string and on a string of white space only, each of
    the four converters returns the empty string.  White space is what the
    language of the function calls so: [\s] and [trim] of ECMAScript for
    the three JavaScript functions, [\s] of Python for [to_snake_case]. *)
Theorem blank_input_gives_empty (s : jsstring) (t : pystring) :
  forallb isWhiteSpace s = true ->
  forallb py_isspace t = true ->
  toKebabCase (VString s) = Return []
  /\ camelCase (VString s) = Return []
  /\ dotCase (VString s) = Return []
  /\ to_snake_case t = [].
Proof.
  intros Hs Ht.
  unfold toKebabCase, camelCase, dotCase.
  rewrite (blank_trim s Hs), (to_snake_case_blank t Ht).
  repeat split; reflexivity.
Qed.

(** ** [camelCase] applied twice *)

(** C3 (amended). [camelCase] applied to its own output lowers it as a
    whole; the output is a fixed point exactly when it has no upper-case
    letter. *)
Theorem camelCase_twice (s : jsstring) :
  exists o,
    camelCase (VString s) = Return o
    /\ camelCase (VString o) = Return (toLowerCase o)
    /\ (camelCase (VString o) = Return o
        <-> forallb (fun c => negb (is_upper c)) o = true).
Proof.
  destruct (camelCase_output s) as [o [Ho Ha]].
  exists o. split; [exact Ho|].
  rewrite (camelCase_alnum o Ha). split; [reflexivity|].
  rewrite (toLowerCase_alnum o Ha), <- (map_lower1_fixed o Ha).
  split; [intros E; injection E; auto | intros ->; reflexivity].
Qed.

(** C9. [camelCase] and [dotCase] keep ASCII letters, digits and spaces
    only before they split into words, so their results are made of ASCII
    letters and digits (and of dots, for [dotCase]); on an input without
    ASCII characters other than white space both return the empty string. *)
Theorem camelCase_dotCase_ascii_only (s : jsstring) :
  cleaned s
  = trim (filter alnum_or_space
            (replaceAll
               (ClsPlus false [WhiteSpace; Chr (ch "-"); Chr (ch "_"); Chr (ch ".")])
               [Text (js " ")] s))
  /\ forallb alnum_or_space (cleaned s) = true
  /\ (exists o, camelCase (VString s) = Return o /\ forallb is_alnum o = true)
  /\ (exists o, dotCase (VString s) = Return o
                /\ forallb (fun c => is_alnum c || (c =? ch ".")) o = true)
  /\ (forallb (fun c => negb (is_ascii c) || isWhiteSpace c) s = true ->
      camelCase (VString s) = Return [] /\ dotCase (VString s) = Return []).
Proof.
  split; [apply cleaned_filter|].
  split; [apply cleaned_chars|].
  split; [apply camelCase_output|].
  split; [apply dotCase_output|].
  intros H. unfold camelCase, dotCase.
  rewrite (cleaned_nothing s H). cbn [is_empty].
  destruct (is_empty (trim s)); split; reflexivity.
Qed.

(** ** The dot *)

Lemma adj_free_no_digit (x : jsstring) :
  forallb (fun c => negb (is_digit c)) x = true -> adj_free letter_digit x = true.
Proof.
  induction x as [|a t IH]; [reflexivity|].
  destruct t as [|b t]; [reflexivity|].
  intros H. cbn [forallb] in H. apply andb_true_iff in H as [Ha H].
  rewrite adj_free_cons, (IH H), andb_true_r.
  cbn [forallb] in H. apply andb_true_iff in H as [Hb _].
  apply negb_true_iff in Ha, Hb. unfold letter_digit.
  rewrite Ha, Hb, andb_false_r. reflexivity.
Qed.

Lemma toLowerCase_lower (w : jsstring) :
  forallb is_lower w = true -> toLowerCase w = w.
Proof.
  intros H. rewrite toLowerCase_written_out.
  - apply map_id_on. intros c Hc.
    apply (proj1 (forallb_forall _ _) H) in Hc. char_solve.
  - apply (forallb_impl is_lower); [|exact H]. intros c Hc. char_solve.
Qed.

Lemma lower_words_sep (q : char -> bool) (sep : char) (w1 w2 : jsstring) :
  (forall c, is_lower c = true -> q c = true) ->
  q sep = true ->
  forallb is_lower w1 = true -> forallb is_lower w2 = true ->
  forallb q (w1 ++ [sep] ++ w2) = true.
Proof.
  intros Hq Hsep H1 H2. rewrite !forallb_app.
  rewrite (forallb_impl is_lower q w1 Hq H1), (forallb_impl is_lower q w2 Hq H2).
  cbn [forallb]. rewrite Hsep. reflexivity.
Qed.

(** [toKebabCase] deletes the dot between two lower-case words. *)
Lemma toKebabCase_dot (w1 w2 : jsstring) :
  w1 <> [] ->
  forallb is_lower w1 = true -> forallb is_lower w2 = true ->
  toKebabCase (VString (w1 ++ js "." ++ w2)) = Return (w1 ++ w2).
Proof.
  intros Hne H1 H2.
  rewrite (toKebabCase_plain _ (w1 ++ js "." ++ w2) [w1 ++ w2]).
  - destruct w1 as [|a w1]; [contradiction|]. cbn [filter is_empty negb app join].
    f_equal. apply toLowerCase_lower.
    change (a :: w1 ++ w2) with ((a :: w1) ++ w2).
    rewrite forallb_app, H1, H2. reflexivity.
  - rewrite trim_empty_iff. destruct w1 as [|a w1]; [contradiction|].
    cbn [forallb app] in *. apply andb_true_iff in H1 as [Ha _].
    replace (isWhiteSpace a) with false; [reflexivity|]. symmetry. char_solve.
  - apply replaceAll_cannot_start.
    apply (lower_words_sep _ (ch ".")); try assumption; [|reflexivity].
    intros c Hc. cbn [can_start]. rewrite class_kebab_separator.
    apply negb_true_iff. char_solve.
  - apply (lower_words_sep _ (ch ".")); try assumption; [|reflexivity].
    intros c Hc. apply negb_true_iff. char_solve.
  - apply adj_free_no_digit.
    apply (lower_words_sep _ (ch ".")); try assumption; [|reflexivity].
    intros c Hc. apply negb_true_iff. char_solve.
  - apply (lower_words_sep _ (ch ".")); try assumption; [|reflexivity].
    intros c Hc. char_solve.
  - rewrite !filter_app.
    rewrite (filter_all _ w1), (filter_all _ w2).
    + apply split_cannot_start. cbn [filter js app]. rewrite forallb_app.
      apply andb_true_iff; split.
      * apply (forallb_impl is_lower); [|exact H1].
        intros c Hc. cbn [can_start]. rewrite class_space.
        apply negb_true_iff. char_solve.
      * apply (forallb_impl is_lower); [|exact H2].
        intros c Hc. cbn [can_start]. rewrite class_space.
        apply negb_true_iff. char_solve.
    + apply (forallb_impl is_lower); [|exact H2].
      intros c Hc. unfold is_letter. rewrite Hc. reflexivity.
    + apply (forallb_impl is_lower); [|exact H1].
      intros c Hc. unfold is_letter. rewrite Hc. reflexivity.
Qed.

(** [camelCase] and [dotCase] read the dot as a separator. *)
Lemma cleaned_dot (w1 w2 : jsstring) :
  w1 <> [] -> w2 <> [] ->
  forallb is_lower w1 = true -> forallb is_lower w2 = true ->
  cleaned (w1 ++ js "." ++ w2) = w1 ++ js " " ++ w2.
Proof.
  intros Hne1 Hne2 H1 H2. unfold cleaned.
  assert (Hsep : forall w, forallb is_lower w = true ->
            forallb (fun c => negb (can_start
              (ClsPlus false [WhiteSpace; Chr (ch "-"); Chr (ch "_"); Chr (ch ".")]) c))
              w = true).
  { intros w Hw. apply (forallb_impl is_lower); [|exact Hw].
    intros c Hc. cbn [can_start]. rewrite class_camel_separator.
    apply negb_true_iff. char_solve. }
  rewrite (replaceAll_copy _ _ w1) by (apply Hsep, H1).
  change (js "." ++ w2) with (ch "." :: w2).
  rewrite replaceAll_ClsPlus_cons.
  replace (in_class false [WhiteSpace; Chr (ch "-"); Chr (ch "_"); Chr (ch ".")] (ch "."))
    with true by reflexivity.
  destruct w2 as [|c w2]; [contradiction|].
  rewrite dropWhile_head.
  2:{ cbn [forallb] in H2. apply andb_true_iff in H2 as [Hc _].
      rewrite class_camel_separator. char_solve. }
  rewrite (replaceAll_cannot_start _ _ (c :: w2)) by (apply Hsep, H2).
  change (expand [Text (js " ")] []) with (js " ").
  rewrite replaceAll_ClsPlus_delete, filter_all.
  - destruct w1 as [|a w1]; [contradiction|].
    change ((a :: w1) ++ js " " ++ c :: w2) with (a :: w1 ++ js " " ++ (c :: w2)).
    rewrite app_assoc. apply trim_keep; [| discriminate |].
    + cbn [forallb] in H1. apply andb_true_iff in H1 as [Ha _]. char_solve.
    + apply (forallb_impl is_lower); [|exact H2].
      intros d Hd. apply negb_true_iff. char_solve.
  - apply (lower_words_sep _ (ch " ")); try assumption; [|reflexivity].
    intros d Hd. rewrite class_not_alnum_or_space, negb_involutive. char_solve.
Qed.

Lemma words_dot (w1 w2 : jsstring) :
  forallb is_lower w1 = true -> forallb is_lower w2 = true ->
  split_on (ch " ") [] (w1 ++ js " " ++ w2) = [w1; w2].
Proof.
  intros H1 H2.
  assert (Hsp : forall w, forallb is_lower w = true ->
            forallb (fun c => negb (c =? ch " ")) w = true).
  { intros w Hw. apply (forallb_impl is_lower); [|exact Hw].
    intros c Hc. apply negb_true_iff. char_solve. }
  rewrite split_on_copy by (apply Hsp, H1).
  change (js " " ++ w2) with (ch " " :: w2). cbn [split_on].
  rewrite N.eqb_refl, app_nil_r, rev_involutive.
  rewrite split_on_one by (apply Hsp, H2). reflexivity.
Qed.

(** C10. [toKebabCase] does not read the dot as a separator: the dot
    between two lower-case ASCII words is deleted and the words become one,
    while [camelCase] and [dotCase], whose separators include the dot, keep
    two words. *)
Theorem dot_is_no_separator_of_toKebabCase (w1 w2 : jsstring) (c : char) :
  w1 <> [] ->
  forallb is_lower w1 = true ->
  forallb is_lower (c :: w2) = true ->
  kebab_separator (ch ".") = false
  /\ camel_separator (ch ".") = true
  /\ toKebabCase (VString (w1 ++ js "." ++ c :: w2)) = Return (w1 ++ c :: w2)
  /\ camelCase (VString (w1 ++ js "." ++ c :: w2)) = Return (w1 ++ upper1 c :: w2)
  /\ dotCase (VString (w1 ++ js "." ++ c :: w2)) = Return (w1 ++ js "." ++ c :: w2).
Proof.
  intros Hne H1 H2.
  split; [reflexivity|]. split; [reflexivity|].
  split; [apply toKebabCase_dot; assumption|].
  assert (Hc : is_lower c = true /\ forallb is_lower w2 = true)
    by (cbn [forallb] in H2; apply andb_true_iff in H2; exact H2).
  destruct Hc as [Hc Hw2].
  assert (Htrim : is_empty (trim (w1 ++ js "." ++ c :: w2)) = false).
  { rewrite trim_empty_iff. destruct w1 as [|a w1]; [contradiction|].
    cbn [forallb app] in *. apply andb_true_iff in H1 as [Ha _].
    replace (isWhiteSpace a) with false; [reflexivity|]. symmetry. char_solve. }
  assert (Hcl : is_empty (w1 ++ js " " ++ c :: w2) = false)
    by (destruct w1; [contradiction | reflexivity]).
  unfold camelCase, dotCase.
  rewrite Htrim, (cleaned_dot w1 (c :: w2)) by (assumption || discriminate).
  rewrite Hcl, (words_dot w1 (c :: w2)) by assumption.
  cbn [mapi mapi_from camel_word charAt0 slice1 tl map join].
  rewrite (toLowerCase_lower w1 H1), (toLowerCase_lower w2 Hw2),
    (toLowerCase_lower (c :: w2) H2).
  rewrite toUpperCase_ascii.
  - cbn [map app]. split; reflexivity.
  - cbn [forallb]. rewrite andb_true_r. char_solve.
Qed.

(** ** Words joined by separators *)

Lemma word_of_inv (q : char -> bool) (w : list char) :
  word_of q w = true -> w <> [] /\ forallb q w = true.
Proof.
  unfold word_of. intros H. apply andb_true_iff in H as [Hne Hq].
  split; [intros ->; discriminate | exact Hq].
Qed.

Lemma word_of_impl (p q : char -> bool) (ws : list (list char)) :
  (forall c, p c = true -> q c = true) ->
  forallb (word_of p) ws = true -> forallb (word_of q) ws = true.
Proof.
  intros Hpq. induction ws as [|w ws IH]; [reflexivity|].
  cbn [forallb]. intros H. apply andb_true_iff in H as [Hw Hws].
  rewrite (IH Hws), andb_true_r.
  destruct (word_of_inv p w Hw) as [Hne Hp].
  unfold word_of. rewrite (forallb_impl p q w Hpq Hp), andb_true_r.
  destruct w; [contradiction | reflexivity].
Qed.

Lemma words_chars (q : char -> bool) (ws : list (list char)) :
  forallb (word_of q) ws = true -> forallb (forallb q) ws = true.
Proof.
  induction ws as [|w ws IH]; [reflexivity|].
  cbn [forallb]. intros H. apply andb_true_iff in H as [Hw Hws].
  destruct (word_of_inv q w Hw) as [_ Hq]. rewrite Hq, (IH Hws). reflexivity.
Qed.

Lemma join_head (q : char -> bool) (sep : jsstring) (w : jsstring) (ws : list jsstring) :
  word_of q w = true ->
  exists a r, join sep (w :: ws) = a :: r /\ q a = true.
Proof.
  intros Hw. destruct (word_of_inv q w Hw) as [Hne Hq].
  destruct w as [|a w]; [contradiction|].
  cbn [forallb] in Hq. apply andb_true_iff in Hq as [Ha _].
  destruct ws as [|w' ws]; [exists a, w | eexists a, _]; split;
    try exact Ha; reflexivity.
Qed.

Lemma join_last (sep : jsstring) (ws : list jsstring) :
  ws <> [] -> exists pre, join sep ws = pre ++ last ws [].
Proof.
  induction ws as [|w ws IH]; [contradiction|]. intros _.
  destruct ws as [|w' ws'].
  - exists []. reflexivity.
  - destruct (IH ltac:(discriminate)) as [pre E].
    exists (w ++ sep ++ pre). rewrite join_cons, E, <- !app_assoc. reflexivity.
Qed.

Lemma last_word (q : char -> bool) (ws : list (list char)) :
  ws <> [] -> forallb (word_of q) ws = true -> word_of q (last ws []) = true.
Proof.
  induction ws as [|w ws IH]; [contradiction|]. intros _ H.
  cbn [forallb] in H. apply andb_true_iff in H as [Hw Hws].
  destruct ws as [|w' ws']; [exact Hw|].
  apply IH; [discriminate | exact Hws].
Qed.

(** Words without white space, joined: [trim] removes nothing. *)
Lemma trim_words (q : char -> bool) (sep : jsstring) (ws : list jsstring) :
  (forall c, q c = true -> isWhiteSpace c = false) ->
  forallb (word_of q) ws = true ->
  trim (join sep ws) = join sep ws.
Proof.
  intros Hq H. destruct ws as [|w ws]; [reflexivity|].
  assert (Hw : word_of q w = true)
    by (cbn [forallb] in H; apply andb_true_iff in H as [Hw _]; exact Hw).
  destruct (join_head q sep w ws Hw) as (a & r & E & Ha).
  destruct (join_last sep (w :: ws) ltac:(discriminate)) as [pre Epre].
  destruct (word_of_inv q _ (last_word q (w :: ws) ltac:(discriminate) H))
    as [Hlne Hl].
  unfold trim. rewrite E, (dropWhile_head _ a r (Hq a Ha)), <- E, Epre.
  apply dropWhileEnd_keep; [exact Hlne|].
  apply (forallb_impl q); [|exact Hl].
  intros c Hc. rewrite (Hq c Hc). reflexivity.
Qed.

Lemma dropWhile_run (p : char -> bool) (x : list char) (a : char) (r : list char) :
  forallb p x = true -> p a = false -> dropWhile p (x ++ a :: r) = a :: r.
Proof.
  intros Hx Ha. induction x as [|c x IH]; cbn [app].
  - apply dropWhile_head, Ha.
  - cbn [forallb] in Hx. apply andb_true_iff in Hx as [Hc Hx].
    cbn [dropWhile]. rewrite Hc. apply IH, Hx.
Qed.

(** [[...]+] replaced by [rep], on words joined by runs of the class. *)
Lemma replaceAll_join_run (n : bool) (items : list class_item) (rep x : jsstring)
    (ws : list jsstring) :
  x <> [] ->
  forallb (in_class n items) x = true ->
  forallb (word_of (fun c => negb (in_class n items c))) ws = true ->
  replaceAll (ClsPlus n items) [Text rep] (join x ws) = join rep ws.
Proof.
  intros Hx Hrun. induction ws as [|w ws IH]; [reflexivity|].
  cbn [forallb]. intros H. apply andb_true_iff in H as [Hw Hws].
  destruct (word_of_inv _ w Hw) as [_ Hwq].
  destruct ws as [|w' ws'].
  - apply replaceAll_cannot_start. exact Hwq.
  - rewrite !join_cons, replaceAll_copy by exact Hwq. f_equal.
    destruct x as [|a x]; [contradiction|].
    cbn [forallb] in Hrun. apply andb_true_iff in Hrun as [Ha Hx'].
    rewrite <- app_comm_cons, replaceAll_ClsPlus_cons, Ha.
    cbn [forallb] in Hws. apply andb_true_iff in Hws as [Hw' Hws'].
    destruct (join_head _ (a :: x) w' ws' Hw') as (b & r & E & Hb).
    apply negb_true_iff in Hb.
    rewrite E, (dropWhile_run _ x b r Hx' Hb), <- E.
    rewrite IH by (cbn [forallb]; rewrite Hw', Hws'; reflexivity).
    cbn [expand flat_map]. rewrite app_nil_r. reflexivity.
Qed.

Lemma split_on_join (sep : char) (ws : list jsstring) :
  ws <> [] ->
  forallb (forallb (fun c => negb (c =? sep))) ws = true ->
  split_on sep [] (join [sep] ws) = ws.
Proof.
  induction ws as [|w ws IH]; [contradiction|]. intros _ H.
  cbn [forallb] in H. apply andb_true_iff in H as [Hw Hws].
  destruct ws as [|w' ws'].
  - apply split_on_one, Hw.
  - rewrite join_cons, split_on_copy by exact Hw.
    cbn [app split_on]. rewrite N.eqb_refl, app_nil_r, rev_involutive.
    f_equal. apply IH; [discriminate | exact Hws].
Qed.

Lemma join_nil_concat (ws : list jsstring) : join [] ws = concat ws.
Proof.
  induction ws as [|w ws IH]; [reflexivity|].
  destruct ws as [|w' ws']; [cbn; rewrite app_nil_r; reflexivity|].
  rewrite join_cons, IH. reflexivity.
Qed.

Lemma filter_words_all (q : char -> bool) (ws : list jsstring) :
  forallb (word_of q) ws = true ->
  filter (fun w => negb (is_empty w)) ws = ws.
Proof.
  induction ws as [|w ws IH]; [reflexivity|].
  cbn [forallb filter]. intros H. apply andb_true_iff in H as [Hw Hws].
  destruct (word_of_inv q w Hw) as [Hne _].
  destruct w; [contradiction|]. cbn [is_empty negb]. rewrite (IH Hws). reflexivity.
Qed.

(** ** [camelCase] and [dotCase] on words *)

Lemma alnum_word_starts (sep : jsstring) (w : jsstring) (ws : list jsstring) :
  word_of is_alnum w = true ->
  forallb isWhiteSpace (join sep (w :: ws)) = false
  /\ is_empty (join sep (w :: ws)) = false.
Proof.
  intros Hw. destruct (join_head is_alnum sep w ws Hw) as (a & r & E & Ha).
  rewrite E. cbn [forallb is_empty]. rewrite (alnum_not_space a Ha).
  split; reflexivity.
Qed.

(** Words of ASCII letters and digits joined by runs of separators:
    [cleaned] is the words joined by single spaces. *)
Lemma cleaned_words (x : jsstring) (ws : list jsstring) :
  x <> [] ->
  forallb camel_separator x = true ->
  forallb (word_of is_alnum) ws = true ->
  cleaned (join x ws) = join (js " ") ws.
Proof.
  intros Hx Hsep Hws. unfold cleaned.
  rewrite (replaceAll_join_run false _ (js " ") x ws Hx).
  - rewrite replaceAll_ClsPlus_delete, filter_all.
    + apply (trim_words is_alnum); [exact alnum_not_space | exact Hws].
    + apply forallb_join; [reflexivity|].
      apply words_chars. apply (word_of_impl is_alnum); [|exact Hws].
      intros c Hc. rewrite class_not_alnum_or_space, negb_involutive.
      unfold alnum_or_space. rewrite Hc. reflexivity.
  - rewrite (forallb_ext_bool _ camel_separator); [exact Hsep|].
    exact class_camel_separator.
  - apply (word_of_impl is_alnum); [|exact Hws].
    intros c Hc. rewrite class_camel_separator, (alnum_not_camel_separator c Hc).
    reflexivity.
Qed.

Lemma words_of_cleaned (ws : list jsstring) :
  ws <> [] ->
  forallb (word_of is_alnum) ws = true ->
  split_on (ch " ") [] (join (js " ") ws) = ws.
Proof.
  intros Hne Hws. apply (split_on_join (ch " ") ws Hne).
  apply words_chars. apply (word_of_impl is_alnum); [|exact Hws].
  intros c Hc. apply negb_true_iff. char_solve.
Qed.

Lemma map_toLowerCase_words (ws : list jsstring) :
  forallb (word_of is_alnum) ws = true ->
  map toLowerCase ws = map (map lower1) ws.
Proof.
  intros H. apply map_ext_in. intros w Hw.
  apply toLowerCase_alnum.
  apply (proj1 (forallb_forall _ _) (words_chars _ _ H) w Hw).
Qed.

Lemma camel_word_capitalize (w : jsstring) (i : nat) :
  word_of is_alnum w = true -> camel_word w (S i) = capitalize w.
Proof.
  intros Hw. destruct (word_of_inv _ _ Hw) as [Hne Hq].
  destruct w as [|c t]; [contradiction|].
  cbn [forallb] in Hq. apply andb_true_iff in Hq as [Hc Ht].
  cbn [camel_word charAt0 slice1 tl capitalize].
  rewrite toUpperCase_ascii
    by (cbn [forallb]; rewrite (alnum_ascii c Hc); reflexivity).
  rewrite (toLowerCase_alnum t Ht). reflexivity.
Qed.

Lemma mapi_capitalize (ws : list jsstring) (i : nat) :
  forallb (word_of is_alnum) ws = true ->
  mapi_from camel_word (S i) ws = map capitalize ws.
Proof.
  revert i. induction ws as [|w ws IH]; intros i H; [reflexivity|].
  cbn [forallb] in H. apply andb_true_iff in H as [Hw Hws].
  cbn [mapi_from map]. rewrite (camel_word_capitalize w i Hw), (IH _ Hws).
  reflexivity.
Qed.

(** X1. [dotCase] on words of ASCII letters and digits joined by runs of
    its separators (white space, hyphens, underscores, dots): the words,
    lowered, joined by single dots. *)
Theorem dotCase_of_joined_words (x : jsstring) (ws : list jsstring) :
  x <> [] ->
  forallb camel_separator x = true ->
  forallb (word_of is_alnum) ws = true ->
  dotCase (VString (join x ws)) = Return (join (js ".") (map (map lower1) ws)).
Proof.
  intros Hx Hsep Hws. destruct ws as [|w ws]; [reflexivity|].
  assert (Hw : word_of is_alnum w = true)
    by (cbn [forallb] in Hws; apply andb_true_iff in Hws as [Hw _]; exact Hw).
  unfold dotCase.
  rewrite trim_empty_iff, (proj1 (alnum_word_starts x w ws Hw)).
  rewrite (cleaned_words x (w :: ws) Hx Hsep Hws).
  rewrite (proj2 (alnum_word_starts (js " ") w ws Hw)).
  rewrite (words_of_cleaned (w :: ws)) by (discriminate || exact Hws).
  rewrite (map_toLowerCase_words _ Hws). reflexivity.
Qed.

Lemma camelCase_words (x : jsstring) (w : jsstring) (ws : list jsstring) :
  x <> [] ->
  forallb camel_separator x = true ->
  forallb (word_of is_alnum) (w :: ws) = true ->
  camelCase (VString (join x (w :: ws)))
  = Return (map lower1 w ++ concat (map capitalize ws)).
Proof.
  intros Hx Hsep Hws.
  assert (H := Hws). cbn [forallb] in H. apply andb_true_iff in H as [Hw Hrest].
  unfold camelCase.
  rewrite trim_empty_iff, (proj1 (alnum_word_starts x w ws Hw)).
  rewrite (cleaned_words x (w :: ws) Hx Hsep Hws).
  rewrite (proj2 (alnum_word_starts (js " ") w ws Hw)).
  rewrite (words_of_cleaned (w :: ws)) by (discriminate || exact Hws).
  unfold mapi. cbn [mapi_from camel_word].
  rewrite (mapi_capitalize ws 0 Hrest), join_nil_concat.
  destruct (word_of_inv _ _ Hw) as [_ Hq].
  rewrite (toLowerCase_alnum w Hq). reflexivity.
Qed.

(** X2. [camelCase] on such words: the first word lowered, each of the
    others with its first letter raised and the rest lowered, nothing
    between them. *)
Theorem camelCase_of_joined_words (x : jsstring) (w : jsstring) (ws : list jsstring) :
  x <> [] ->
  forallb camel_separator x = true ->
  forallb (word_of is_alnum) (w :: ws) = true ->
  camelCase (VString (join x (w :: ws)))
  = Return (map lower1 w ++ concat (map capitalize ws)).
Proof. exact (camelCase_words x w ws). Qed.

Lemma filter_none (q : char -> bool) (x : list char) :
  forallb (fun c => negb (q c)) x = true -> filter q x = [].
Proof.
  induction x as [|c x IH]; [reflexivity|].
  cbn [forallb filter]. intros H. apply andb_true_iff in H as [Hc Hx].
  apply negb_true_iff in Hc. rewrite Hc. apply IH, Hx.
Qed.

Lemma blank_and_alnum (w : jsstring) :
  forallb isWhiteSpace w = true -> forallb is_alnum w = true -> w = [].
Proof.
  destruct w as [|c t]; [reflexivity|]. cbn [forallb].
  intros H1 H2. apply andb_true_iff in H1 as [H1 _], H2 as [H2 _].
  rewrite (alnum_not_space c H2) in H1. discriminate.
Qed.

(** A run of characters that are neither letters, digits nor separators
    is deleted from between two words, which become one. *)
Lemma cleaned_specials (w1 x w2 : jsstring) :
  forallb is_alnum w1 = true -> forallb is_alnum w2 = true ->
  forallb (fun c => negb (is_alnum c) && negb (camel_separator c)) x = true ->
  cleaned (w1 ++ x ++ w2) = w1 ++ w2.
Proof.
  intros H1 H2 Hx. unfold cleaned.
  rewrite (replaceAll_cannot_start (ClsPlus false _) [Text _]).
  - rewrite replaceAll_ClsPlus_delete, !filter_app.
    assert (Hk : forall w, forallb is_alnum w = true ->
              filter (fun c => negb (in_class true
                        [lower_az; upper_AZ; digit_09; Chr (ch " ")] c)) w = w).
    { intros w Hw. apply filter_all. apply (forallb_impl is_alnum); [|exact Hw].
      intros c Hc. rewrite class_not_alnum_or_space, negb_involutive.
      unfold alnum_or_space. rewrite Hc. reflexivity. }
    rewrite (Hk w1 H1), (Hk w2 H2), filter_none.
    + apply trim_no_space. rewrite forallb_app. apply andb_true_iff; split.
      * apply (forallb_impl is_alnum); [|exact H1].
        intros c Hc. rewrite (alnum_not_space c Hc). reflexivity.
      * apply (forallb_impl is_alnum); [|exact H2].
        intros c Hc. rewrite (alnum_not_space c Hc). reflexivity.
    + apply (forallb_impl (fun c => negb (is_alnum c) && negb (camel_separator c)));
        [|exact Hx].
      intros c Hc. rewrite class_not_alnum_or_space, !negb_involutive.
      apply negb_true_iff. char_solve.
  - rewrite !forallb_app. repeat (apply andb_true_iff; split).
    + apply (forallb_impl is_alnum); [|exact H1]. intros c Hc. cbn [can_start].
      rewrite class_camel_separator, (alnum_not_camel_separator c Hc). reflexivity.
    + apply (forallb_impl (fun c => negb (is_alnum c) && negb (camel_separator c)));
        [|exact Hx].
      intros c Hc. cbn [can_start]. rewrite class_camel_separator.
      apply andb_true_iff in Hc as [_ Hc]. exact Hc.
    + apply (forallb_impl is_alnum); [|exact H2]. intros c Hc. cbn [can_start].
      rewrite class_camel_separator, (alnum_not_camel_separator c Hc). reflexivity.
Qed.

(** X3. [camelCase] and [dotCase] do not split where they delete: two words
    of ASCII letters and digits with only other characters between them,
    none a separator, come out as one lowered word (["foo$%^bar"] gives
    ["foobar"] from both). *)
Theorem camelCase_dotCase_delete_without_splitting (w1 x w2 : jsstring) :
  forallb is_alnum w1 = true -> forallb is_alnum w2 = true ->
  forallb (fun c => negb (is_alnum c) && negb (camel_separator c)) x = true ->
  camelCase (VString (w1 ++ x ++ w2)) = Return (map lower1 (w1 ++ w2))
  /\ dotCase (VString (w1 ++ x ++ w2)) = Return (map lower1 (w1 ++ w2)).
Proof.
  intros H1 H2 Hx.
  assert (H12 : forallb is_alnum (w1 ++ w2) = true)
    by (rewrite forallb_app, H1, H2; reflexivity).
  unfold camelCase, dotCase. rewrite (cleaned_specials w1 x w2 H1 H2 Hx).
  destruct (is_empty (trim (w1 ++ x ++ w2))) eqn:Et.
  - rewrite trim_empty_iff, !forallb_app in Et.
    apply andb_true_iff in Et as [E1 Et]. apply andb_true_iff in Et as [_ E2].
    rewrite (blank_and_alnum w1 E1 H1), (blank_and_alnum w2 E2 H2).
    split; reflexivity.
  - destruct (w1 ++ w2) as [|c t] eqn:E; [split; reflexivity|].
    cbn [is_empty]. rewrite split_on_one.
    + unfold mapi. cbn [mapi_from camel_word map join].
      rewrite (toLowerCase_alnum _ H12). split; reflexivity.
    + apply (forallb_impl is_alnum); [|exact H12].
      intros d Hd. apply negb_true_iff. char_solve.
Qed.

(** ** [makeCamelCase] *)

Lemma replace_fn_from_skip (r : regex) (f : list char -> groups -> list char)
    (n : nat) (s : list char) :
  replace_fn_from r f n s = replaceAll_fn r f (skipn n s).
Proof.
  revert n; induction s as [|c t IH]; intros [|n]; try reflexivity.
  cbn [replace_fn_from skipn]. apply IH.
Qed.

Lemma replaceAll_fn_match (r : regex) (f : list char -> groups -> list char)
    (c : char) (t : list char) (g : groups) (rest : list char) :
  exec r (c :: t) = Some (g, rest) ->
  replaceAll_fn r f (c :: t)
  = f (firstn (length (c :: t) - length rest) (c :: t)) g ++ replaceAll_fn r f rest.
Proof.
  intros E. unfold replaceAll_fn at 1. cbn [replace_fn_from]. rewrite E.
  f_equal. rewrite replace_fn_from_skip. f_equal.
  apply exec_sound in E as (pre & Hs & Hne & _).
  destruct pre as [|c' pre]; [contradiction|].
  injection Hs as _ ->.
  rewrite length_app.
  replace (length pre + length rest - length rest)%nat with (length pre) by lia.
  apply skipn_length_app.
Qed.

Lemma replaceAll_fn_nomatch (r : regex) (f : list char -> groups -> list char)
    (c : char) (t : list char) :
  exec r (c :: t) = None ->
  replaceAll_fn r f (c :: t) = c :: replaceAll_fn r f t.
Proof.
  intros E. unfold replaceAll_fn. cbn [replace_fn_from]. rewrite E. reflexivity.
Qed.

Lemma replaceAll_fn_copy (r : regex) (f : list char -> groups -> list char)
    (w rest : list char) :
  forallb (fun c => negb (can_start r c)) w = true ->
  replaceAll_fn r f (w ++ rest) = w ++ replaceAll_fn r f rest.
Proof.
  induction w as [|c w IH]; cbn [app forallb]; intros H; [reflexivity|].
  apply andb_true_iff in H as [Hc Hw]. apply negb_true_iff in Hc.
  rewrite replaceAll_fn_nomatch by (apply exec_cannot_start, Hc).
  rewrite (IH Hw); reflexivity.
Qed.

(** A run of the class is taken whole when the rest of the pattern
    matches after it. *)
Lemma greedy_run (p : char -> bool) (k : list char -> match_result)
    (x r : list char) (res : groups * list char) :
  forallb p x = true ->
  match r with [] => True | d :: _ => p d = false end ->
  k r = Some res ->
  greedy p k (x ++ r) = Some res.
Proof.
  intros Hx Hr Hk. induction x as [|a x IH]; cbn [app].
  - destruct r as [|d t]; cbn [greedy]; [exact Hk|]. rewrite Hr. exact Hk.
  - cbn [forallb] in Hx. apply andb_true_iff in Hx as [Ha Hx].
    cbn [greedy]. rewrite Ha, (IH Hx). reflexivity.
Qed.

Lemma class_not_alnum (c : char) :
  in_class true [lower_az; upper_AZ; digit_09] c = negb (is_alnum c).
Proof. class_eval. Qed.

Lemma any_char_alnum (c : char) :
  is_alnum c = true ->
  in_class true [Chr 0x0A; Chr 0x0D; Chr 0x2028; Chr 0x2029] c = true.
Proof.
  intros H. unfold in_class. cbn [existsb item_matches xorb].
  apply negb_true_iff. char_solve.
Qed.

(** [/[^a-zA-Z0-9]+(.)/] at a run of other characters followed by a letter
    or a digit: the run and that character, which is the group. *)
Lemma exec_camel_re (x : list char) (d : char) (t : list char) :
  x <> [] ->
  forallb (fun c => negb (is_alnum c)) x = true ->
  is_alnum d = true ->
  exec camel_re (x ++ d :: t) = Some ([[d]], t).
Proof.
  intros Hne Hx Hd. destruct x as [|a x]; [contradiction|].
  cbn [forallb] in Hx. apply andb_true_iff in Hx as [Ha Hx].
  unfold exec. cbn [rmatch app]. rewrite class_not_alnum, Ha.
  apply greedy_run.
  - rewrite (forallb_ext_bool _ (fun c => negb (is_alnum c))); [exact Hx|].
    exact class_not_alnum.
  - rewrite class_not_alnum, Hd. reflexivity.
  - unfold any_char. cbn [rmatch]. rewrite (any_char_alnum d Hd).
    cbn [length app]. replace (S (length t) - length t)%nat with 1%nat by lia.
    reflexivity.
Qed.

Lemma makeCamelCase_copy (w r : list char) :
  forallb is_alnum w = true ->
  replaceAll_fn camel_re raise_group (w ++ r)
  = w ++ replaceAll_fn camel_re raise_group r.
Proof.
  intros H. apply replaceAll_fn_copy.
  apply (forallb_impl is_alnum); [|exact H].
  intros c Hc. cbn [can_start]. rewrite class_not_alnum, Hc. reflexivity.
Qed.

Lemma makeCamelCase_raise (x : list char) (d : char) (t : list char) :
  x <> [] ->
  forallb (fun c => negb (is_alnum c)) x = true ->
  is_alnum d = true ->
  replaceAll_fn camel_re raise_group (x ++ d :: t)
  = upper1 d :: replaceAll_fn camel_re raise_group t.
Proof.
  intros Hne Hx Hd.
  pose proof (exec_camel_re x d t Hne Hx Hd) as E.
  destruct x as [|a x]; [contradiction|].
  cbn [app] in *. rewrite (replaceAll_fn_match _ _ _ _ _ _ E).
  cbn [nth]. rewrite toUpperCase_ascii
    by (cbn [forallb]; rewrite (alnum_ascii d Hd); reflexivity).
  reflexivity.
Qed.

Lemma join_cons_word (x : jsstring) (d : char) (t : jsstring) (ws : list jsstring) :
  join x ((d :: t) :: ws) = d :: join x (t :: ws).
Proof. destruct ws; reflexivity. Qed.

(** The replacement, on lowered words joined by a run of other
    characters. *)
Lemma makeCamelCase_lowered (x : jsstring) :
  x <> [] ->
  forallb (fun c => negb (is_alnum c)) x = true ->
  forall (ws : list jsstring) (w : jsstring),
  forallb is_alnum w = true ->
  forallb (word_of is_alnum) ws = true ->
  replaceAll_fn camel_re raise_group (join x (w :: ws))
  = w ++ concat (map (fun v => match v with
                               | [] => []
                               | c :: t => upper1 c :: t
                               end) ws).
Proof.
  intros Hne Hx ws. induction ws as [|v ws IH]; intros w Hw Hws.
  - cbn [join map concat]. rewrite <- (app_nil_r w) at 1.
    rewrite (makeCamelCase_copy w [] Hw). reflexivity.
  - cbn [forallb] in Hws. apply andb_true_iff in Hws as [Hv Hws].
    destruct (word_of_inv _ _ Hv) as [Hvne Hvq].
    destruct v as [|d t]; [contradiction|].
    cbn [forallb] in Hvq. apply andb_true_iff in Hvq as [Hd Ht].
    rewrite join_cons, join_cons_word, (makeCamelCase_copy w _ Hw).
    rewrite (makeCamelCase_raise x d _ Hne Hx Hd).
    rewrite (IH t Ht Hws). cbn [map concat]. reflexivity.
Qed.

Lemma special_lower1 (c : char) : ascii_special c = true -> lower1 c = c.
Proof. unfold ascii_special. intros H. char_solve. Qed.

Lemma special_not_alnum (c : char) :
  ascii_special c = true -> negb (is_alnum c) = true.
Proof. unfold ascii_special. intros H. apply andb_true_iff in H as [_ H]. exact H. Qed.

Lemma upper1_lower1 (c : char) : is_alnum c = true -> upper1 (lower1 c) = upper1 c.
Proof. intros H. char_solve. Qed.

Lemma lowered_words (ws : list jsstring) :
  forallb (word_of is_alnum) ws = true ->
  forallb (word_of is_alnum) (map (map lower1) ws) = true.
Proof.
  induction ws as [|w ws IH]; [reflexivity|].
  cbn [forallb map]. intros H. apply andb_true_iff in H as [Hw Hws].
  rewrite (IH Hws), andb_true_r.
  destruct (word_of_inv _ _ Hw) as [Hne Hq]. unfold word_of.
  rewrite forallb_map, (forallb_impl is_alnum _ w alnum_lower1 Hq), andb_true_r.
  destruct w; [contradiction | reflexivity].
Qed.

Lemma capitalize_lowered (ws : list jsstring) :
  forallb (word_of is_alnum) ws = true ->
  map (fun v => match v with [] => [] | c :: t => upper1 c :: t end)
      (map (map lower1) ws)
  = map capitalize ws.
Proof.
  intros H. rewrite map_map. apply map_ext_in. intros w Hw.
  apply (proj1 (forallb_forall _ _) H) in Hw.
  destruct (word_of_inv _ _ Hw) as [Hne Hq].
  destruct w as [|c t]; [contradiction|].
  cbn [forallb] in Hq. apply andb_true_iff in Hq as [Hc _].
  cbn [map capitalize]. rewrite (upper1_lower1 c Hc). reflexivity.
Qed.

Lemma toLowerCase_ascii (s : jsstring) :
  forallb is_ascii s = true -> toLowerCase s = map lower1 s.
Proof.
  intros H. apply toLowerCase_written_out.
  apply (forallb_impl is_ascii); [|exact H]. intros c Hc. char_solve.
Qed.

Lemma makeCamelCase_words (x : jsstring) (w : jsstring) (ws : list jsstring) :
  x <> [] ->
  forallb ascii_special x = true ->
  forallb (word_of is_alnum) (w :: ws) = true ->
  makeCamelCase (join x (w :: ws)) = map lower1 w ++ concat (map capitalize ws).
Proof.
  intros Hne Hx Hws.
  assert (H := Hws). cbn [forallb] in H. apply andb_true_iff in H as [Hw Hrest].
  destruct (word_of_inv _ _ Hw) as [_ Hwq].
  unfold makeCamelCase.
  rewrite toLowerCase_ascii.
  - rewrite map_join.
    rewrite (map_id_on lower1 x)
      by (intros c Hc; apply special_lower1;
          apply (proj1 (forallb_forall _ _) Hx c Hc)).
    cbn [map]. rewrite makeCamelCase_lowered.
    + rewrite (capitalize_lowered ws Hrest). reflexivity.
    + exact Hne.
    + apply (forallb_impl ascii_special); [exact special_not_alnum | exact Hx].
    + rewrite forallb_map. apply (forallb_impl is_alnum); [exact alnum_lower1 | exact Hwq].
    + apply lowered_words, Hrest.
  - apply forallb_join.
    + apply (forallb_impl ascii_special); [|exact Hx].
      intros c Hc. unfold ascii_special in Hc.
      apply andb_true_iff in Hc as [Hc _]. exact Hc.
    + apply words_chars. apply (word_of_impl is_alnum); [exact alnum_ascii | exact Hws].
Qed.

(** X4. [makeCamelCase] on words of ASCII letters and digits joined by a run
    of other ASCII characters: the first word lowered, each of the others
    with its first letter raised and the rest lowered, the runs gone. *)
Theorem makeCamelCase_of_joined_words (x : jsstring) (w : jsstring)
    (ws : list jsstring) :
  x <> [] ->
  forallb ascii_special x = true ->
  forallb (word_of is_alnum) (w :: ws) = true ->
  makeCamelCase (join x (w :: ws)) = map lower1 w ++ concat (map capitalize ws).
Proof. exact (makeCamelCase_words x w ws). Qed.

(** X5. On words joined by a run of ASCII separators of [camelCase], the
    two camel-case converters agree. *)
Theorem makeCamelCase_agrees_with_camelCase (x : jsstring) (w : jsstring)
    (ws : list jsstring) :
  x <> [] ->
  forallb (fun c => is_ascii c && camel_separator c) x = true ->
  forallb (word_of is_alnum) (w :: ws) = true ->
  camelCase (VString (join x (w :: ws))) = Return (makeCamelCase (join x (w :: ws))).
Proof.
  intros Hne Hx Hws.
  rewrite makeCamelCase_words; [|exact Hne | | exact Hws].
  - apply camelCase_words; [exact Hne | | exact Hws].
    apply (forallb_impl (fun c => is_ascii c && camel_separator c)); [|exact Hx].
    intros c Hc. apply andb_true_iff in Hc as [_ Hc]. exact Hc.
  - apply (forallb_impl (fun c => is_ascii c && camel_separator c)); [|exact Hx].
    intros c Hc. unfold ascii_special. apply andb_true_iff in Hc as [Ha Hc].
    rewrite Ha. cbn [andb]. apply negb_true_iff.
    destruct (is_alnum c) eqn:E; [|reflexivity].
    rewrite (alnum_not_camel_separator c E) in Hc. discriminate.
Qed.

(** X6. The ends of the input of [makeCamelCase].  A run of other
    characters before the first word raises its first letter; a single
    other character after the last word stays. *)
Theorem makeCamelCase_at_the_ends (x : jsstring) (w : jsstring) (c : char) :
  x <> [] ->
  forallb ascii_special x = true ->
  ascii_special c = true ->
  word_of is_alnum w = true ->
  makeCamelCase (x ++ w) = capitalize w
  /\ makeCamelCase (w ++ [c]) = map lower1 w ++ [c].
Proof.
  intros Hne Hx Hc Hw. destruct (word_of_inv _ _ Hw) as [Hwne Hwq].
  assert (Hxa : forallb is_ascii x = true).
  { apply (forallb_impl ascii_special); [|exact Hx].
    intros d Hd. unfold ascii_special in Hd.
    apply andb_true_iff in Hd as [Hd _]. exact Hd. }
  assert (Hwa : forallb is_ascii w = true)
    by (apply (forallb_impl is_alnum); [exact alnum_ascii | exact Hwq]).
  assert (Hlw : forallb is_alnum (map lower1 w) = true)
    by (rewrite forallb_map; apply (forallb_impl is_alnum);
        [exact alnum_lower1 | exact Hwq]).
  unfold makeCamelCase. split.
  - rewrite toLowerCase_ascii by (rewrite forallb_app, Hxa, Hwa; reflexivity).
    rewrite map_app.
    rewrite (map_id_on lower1 x)
      by (intros d Hd; apply special_lower1;
          apply (proj1 (forallb_forall _ _) Hx d Hd)).
    destruct w as [|d t]; [contradiction|].
    cbn [forallb] in Hwq. apply andb_true_iff in Hwq as [Hd Ht].
    cbn [map capitalize].
    rewrite makeCamelCase_raise.
    + rewrite (upper1_lower1 d Hd). f_equal.
      rewrite <- (app_nil_r (map lower1 t)) at 1.
      rewrite makeCamelCase_copy; [apply app_nil_r|].
      rewrite forallb_map. apply (forallb_impl is_alnum); [exact alnum_lower1 | exact Ht].
    + exact Hne.
    + apply (forallb_impl ascii_special); [exact special_not_alnum | exact Hx].
    + apply alnum_lower1, Hd.
  - assert (Hca : is_ascii c = true)
      by (unfold ascii_special in Hc; apply andb_true_iff in Hc as [Hc _]; exact Hc).
    rewrite toLowerCase_ascii
      by (rewrite forallb_app, Hwa; cbn [forallb]; rewrite Hca; reflexivity).
    rewrite map_app. cbn [map]. rewrite (special_lower1 c Hc).
    rewrite (makeCamelCase_copy _ _ Hlw). f_equal.
    apply replaceAll_fn_nomatch.
    unfold exec. cbn [rmatch greedy]. rewrite class_not_alnum.
    rewrite (special_not_alnum c Hc). reflexivity.
Qed.

(** ** [toKebabCase] on words *)

(** What [toKebabCase] returns depends on its input through the first
    replacement only. *)
Lemma toKebabCase_same_separated (s s' : jsstring) :
  is_empty (trim s) = false -> is_empty (trim s') = false ->
  replaceAll sep_re [Text (js " ")] s = replaceAll sep_re [Text (js " ")] s' ->
  toKebabCase (VString s) = toKebabCase (VString s').
Proof.
  intros H H' E. unfold toKebabCase. rewrite H, H', E. reflexivity.
Qed.

Lemma kebab_words_are_words (ts : list jsstring) :
  forallb kebab_word ts = true ->
  forallb (word_of (fun c => is_lower c || is_digit c)) ts = true.
Proof.
  induction ts as [|w ts IH]; [reflexivity|].
  cbn [forallb]. intros H. apply andb_true_iff in H as [Hw Hts].
  rewrite (IH Hts), andb_true_r.
  destruct (kebab_word_inv w Hw) as (Hne & Hq & _).
  unfold word_of. rewrite Hq, andb_true_r. destruct w; [contradiction | reflexivity].
Qed.

(** X7. [toKebabCase] on kebab-case words joined by runs of its separators
    (underscores, hyphens, white space): the words joined by single
    hyphens. *)
Theorem toKebabCase_of_joined_words (x : jsstring) (ts : list jsstring) :
  x <> [] ->
  forallb kebab_separator x = true ->
  forallb kebab_word ts = true ->
  toKebabCase (VString (join x ts)) = Return (join (js "-") ts).
Proof.
  intros Hne Hx Hts. destruct ts as [|w ts]; [reflexivity|].
  rewrite <- (kebab_fixed (w :: ts) Hts).
  assert (Hw : word_of (fun c => is_lower c || is_digit c) w = true).
  { pose proof (kebab_words_are_words _ Hts) as G. cbn [forallb] in G.
    apply andb_true_iff in G as [G _]. exact G. }
  assert (Hstart : forall sep, is_empty (trim (join sep (w :: ts))) = false).
  { intros sep. rewrite trim_empty_iff.
    destruct (join_head _ sep w ts Hw) as (a & r & E & Ha).
    rewrite E. cbn [forallb].
    replace (isWhiteSpace a) with false; [reflexivity|]. symmetry. char_solve. }
  apply toKebabCase_same_separated; [apply Hstart | apply Hstart |].
  assert (Hwords : forallb (word_of (fun c => negb (in_class false
                     [Chr (ch "_"); Chr (ch "-"); WhiteSpace] c))) (w :: ts) = true).
  { apply (word_of_impl (fun c => is_lower c || is_digit c));
      [|apply kebab_words_are_words, Hts].
    intros c Hc. rewrite class_kebab_separator. apply negb_true_iff. char_solve. }
  rewrite (replaceAll_join_run false _ (js " ") x (w :: ts) Hne); [| |exact Hwords].
  - rewrite (replaceAll_join_run false _ (js " ") (js "-") (w :: ts));
      [reflexivity | discriminate | reflexivity | exact Hwords].
  - rewrite (forallb_ext_bool _ kebab_separator); [exact Hx|].
    exact class_kebab_separator.
Qed.

Lemma blank_and_lower (w : jsstring) :
  forallb isWhiteSpace w = true -> forallb is_lower w = true -> w = [].
Proof.
  destruct w as [|c t]; [reflexivity|]. cbn [forallb].
  intros H1 H2. apply andb_true_iff in H1 as [H1 _], H2 as [H2 _].
  exfalso. char_solve.
Qed.

(** X8. [toKebabCase] does not split where it deletes: two lower-case words
    with only other ASCII characters between them, none a separator, come
    out as one word (["special@#chars"] gives ["specialchars"]). *)
Theorem toKebabCase_deletes_without_splitting (w1 x w2 : jsstring) :
  forallb is_lower w1 = true -> forallb is_lower w2 = true ->
  forallb (fun c => ascii_special c && negb (kebab_separator c)) x = true ->
  toKebabCase (VString (w1 ++ x ++ w2)) = Return (w1 ++ w2).
Proof.
  intros H1 H2 Hx.
  set (sp := fun c => ascii_special c && negb (kebab_separator c)) in *.
  assert (Hall : forall q : char -> bool,
            (forall c, is_lower c = true -> q c = true) ->
            (forall c, sp c = true -> q c = true) ->
            forallb q (w1 ++ x ++ w2) = true).
  { intros q Hl Hs. rewrite !forallb_app.
    rewrite (forallb_impl is_lower q w1 Hl H1), (forallb_impl is_lower q w2 Hl H2),
      (forallb_impl sp q x Hs Hx). reflexivity. }
  destruct (is_empty (trim (w1 ++ x ++ w2))) eqn:Et.
  - unfold toKebabCase. rewrite Et.
    rewrite trim_empty_iff, !forallb_app in Et.
    apply andb_true_iff in Et as [E1 Et]. apply andb_true_iff in Et as [_ E2].
    rewrite (blank_and_lower w1 E1 H1), (blank_and_lower w2 E2 H2). reflexivity.
  - rewrite (toKebabCase_plain _ (w1 ++ x ++ w2) [w1 ++ w2] Et).
    + destruct (w1 ++ w2) as [|c t] eqn:E; [reflexivity|].
      cbn [filter is_empty negb join]. rewrite <- E. f_equal.
      apply toLowerCase_lower. rewrite forallb_app, H1, H2. reflexivity.
    + apply replaceAll_cannot_start. apply Hall; intros c Hc; cbn [can_start];
        rewrite class_kebab_separator.
      * apply negb_true_iff. char_solve.
      * subst sp. apply andb_true_iff in Hc as [_ Hc]. exact Hc.
    + apply Hall; intros c Hc; apply negb_true_iff.
      * char_solve.
      * subst sp. unfold ascii_special in Hc. char_solve.
    + apply adj_free_no_digit. apply Hall; intros c Hc; apply negb_true_iff.
      * char_solve.
      * subst sp. unfold ascii_special in Hc. char_solve.
    + apply Hall; intros c Hc.
      * char_solve.
      * subst sp. unfold ascii_special in Hc. char_solve.
    + rewrite !filter_app.
      rewrite (filter_all _ w1), (filter_all _ w2), filter_none.
      * apply split_cannot_start. cbn [app]. rewrite forallb_app.
        apply andb_true_iff; split.
        -- apply (forallb_impl is_lower); [|exact H1].
           intros c Hc. cbn [can_start]. rewrite class_space.
           apply negb_true_iff. char_solve.
        -- apply (forallb_impl is_lower); [|exact H2].
           intros c Hc. cbn [can_start]. rewrite class_space.
           apply negb_true_iff. char_solve.
      * apply (forallb_impl sp); [|exact Hx].
        intros c Hc. subst sp. unfold ascii_special in Hc.
        apply negb_true_iff. char_solve.
      * apply (forallb_impl is_lower); [|exact H2].
        intros c Hc. unfold is_letter. rewrite Hc. reflexivity.
      * apply (forallb_impl is_lower); [|exact H1].
        intros c Hc. unfold is_letter. rewrite Hc. reflexivity.
Qed.

(** ** [toKebabCase] on camelCase and PascalCase *)

Lemma insert_between_skip (p q : char -> bool) (a : char) (r : list char) :
  p a = false -> insert_between p q (a :: r) = a :: insert_between p q r.
Proof.
  intros Ha. destruct r as [|b r]; [reflexivity|].
  rewrite insert_between_cons, Ha. reflexivity.
Qed.

(** A space is set between a lower-case word and the capital after it. *)
Lemma insert_between_word_capital (p q : char -> bool) (w : list char) (c : char)
    (r : list char) :
  w <> [] ->
  forallb p w = true -> forallb (fun a => negb (q a)) w = true ->
  q c = true ->
  insert_between p q (w ++ c :: r) = w ++ 0x20 :: c :: insert_between p q r.
Proof.
  intros Hne Hp Hq Hc. induction w as [|a w IH]; [contradiction|].
  cbn [forallb] in Hp, Hq.
  apply andb_true_iff in Hp as [Ha Hp], Hq as [_ Hq].
  destruct w as [|b w].
  - cbn [app]. rewrite insert_between_cons, Ha, Hc. reflexivity.
  - change ((a :: b :: w) ++ c :: r) with (a :: b :: (w ++ c :: r)).
    rewrite insert_between_cons.
    assert (Hb : q b = false)
      by (cbn [forallb] in Hq; apply andb_true_iff in Hq as [Hb _];
          apply negb_true_iff in Hb; exact Hb).
    rewrite Hb, andb_false_r.
    change (b :: w ++ c :: r) with ((b :: w) ++ c :: r).
    rewrite IH by (discriminate || assumption). reflexivity.
Qed.

Lemma class_lower_digit' (c : char) :
  in_class false [lower_az; digit_09] c = is_lower c || is_digit c.
Proof. class_eval. Qed.

Lemma cap_word_inv (v : jsstring) :
  cap_word v = true ->
  exists c t, v = c :: t /\ is_upper c = true /\ t <> []
              /\ forallb is_lower t = true.
Proof.
  destruct v as [|c t]; [discriminate|]. cbn [cap_word]. intros H.
  apply andb_true_iff in H as [Hc Ht].
  destruct (word_of_inv _ _ Ht) as [Hne Hl].
  exists c, t. repeat split; assumption.
Qed.

Lemma lower_upper_on_capitals (caps : list jsstring) :
  forallb cap_word caps = true ->
  forall w, w <> [] -> forallb is_lower w = true ->
  insert_between (in_class false [lower_az; digit_09]) (in_class false [upper_AZ])
                 (w ++ concat caps)
  = join (js " ") (w :: caps).
Proof.
  induction caps as [|v caps IH]; intros Hcaps w Hne Hw.
  - cbn [concat join]. rewrite app_nil_r. apply insert_between_id.
    apply adj_free_no_second. apply (forallb_impl is_lower); [|exact Hw].
    intros c Hc. rewrite class_upper. apply negb_true_iff. char_solve.
  - cbn [forallb] in Hcaps. apply andb_true_iff in Hcaps as [Hv Hcaps].
    destruct (cap_word_inv v Hv) as (c & t & -> & Hc & Htne & Ht).
    cbn [concat]. rewrite <- app_comm_cons.
    rewrite insert_between_word_capital.
    + rewrite (IH Hcaps t Htne Ht), join_cons, join_cons_word. reflexivity.
    + exact Hne.
    + apply (forallb_impl is_lower); [|exact Hw].
      intros d Hd. rewrite class_lower_digit'. rewrite Hd. reflexivity.
    + apply (forallb_impl is_lower); [|exact Hw].
      intros d Hd. rewrite class_upper. apply negb_true_iff. char_solve.
    + rewrite class_upper. exact Hc.
Qed.

Lemma adj_free_impl (bad bad' : char -> char -> bool) (s : list char) :
  (forall a b, bad' a b = true -> bad a b = true) ->
  adj_free bad s = true -> adj_free bad' s = true.
Proof.
  intros Hb. induction s as [|a t IH]; [reflexivity|].
  destruct t as [|b t]; [reflexivity|].
  rewrite !adj_free_cons. intros H. apply andb_true_iff in H as [Hab Ht].
  rewrite (IH Ht), andb_true_r. apply negb_true_iff in Hab.
  apply negb_true_iff. destruct (bad' a b) eqn:E; [|reflexivity].
  rewrite (Hb a b E) in Hab. discriminate.
Qed.

Lemma adj_free_after_first (q : char -> bool) (c : char) (t : list char) :
  forallb (fun b => negb (q b)) t = true ->
  adj_free (fun _ b => q b) (c :: t) = true.
Proof.
  revert c. induction t as [|b t IH]; intros c H; [reflexivity|].
  cbn [forallb] in H. apply andb_true_iff in H as [Hb Ht].
  rewrite adj_free_cons, Hb, (IH b Ht). reflexivity.
Qed.

(** No capital next to a capital: [/([A-Z]+)([A-Z][a-z0-9]+)/] changes
    nothing. *)
Lemma acronym_step_no_adjacent (y : jsstring) :
  adj_free (fun a b => is_upper a && is_upper b) y = true ->
  replaceAll acronym_re space_between y = y.
Proof.
  induction y as [|c t IH]; [reflexivity|]. intros H.
  rewrite replaceAll_nomatch.
  - f_equal. apply IH. apply (adj_free_tail _ c), H.
  - destruct (is_upper c) eqn:Hc.
    + unfold exec. cbn [rmatch]. rewrite class_upper, Hc.
      destruct t as [|d t]; [reflexivity|].
      rewrite adj_free_cons, Hc in H. apply andb_true_iff in H as [Hd _].
      cbn [andb] in Hd. apply negb_true_iff in Hd.
      cbn [greedy]. rewrite class_upper, Hd.
      reflexivity.
    + apply exec_cannot_start. cbn [can_start]. rewrite class_upper. exact Hc.
Qed.

(** From the third replacement on, for words of letters with no capital
    after their first letter, joined by single spaces. *)
Lemma toKebabCase_of_spaced_words (s : jsstring) (W : list jsstring) :
  is_empty (trim s) = false ->
  replaceAll lower_upper_re space_between (replaceAll sep_re [Text (js " ")] s)
  = join (js " ") W ->
  forallb (word_of is_letter) W = true ->
  forallb (adj_free (fun _ b => is_upper b)) W = true ->
  toKebabCase (VString s) = Return (join (js "-") (map (map lower1) W)).
Proof.
  intros Hne Hy HW Hcap. unfold toKebabCase. rewrite Hne. cbv zeta. rewrite Hy.
  set (y := join (js " ") W).
  assert (Hchars : forall q : char -> bool,
            q 0x20 = true -> (forall c, is_letter c = true -> q c = true) ->
            forallb q y = true).
  { intros q Hsp Hq. apply forallb_join; [cbn; rewrite Hsp; reflexivity|].
    apply words_chars. apply (word_of_impl is_letter); assumption. }
  rewrite acronym_step_no_adjacent.
  2:{ apply (adj_free_join _ 0x20).
      - intros x. replace (is_upper 0x20) with false by reflexivity.
        rewrite andb_false_r. split; reflexivity.
      - clear - Hcap. induction W as [|w W IH]; [reflexivity|].
        cbn [forallb] in *. apply andb_true_iff in Hcap as [Hw HW].
        rewrite (IH HW), andb_true_r.
        apply (adj_free_impl (fun _ b => is_upper b)); [|exact Hw].
        intros a b H. apply andb_true_iff in H as [_ H]. exact H. }
  assert (Hadj : adj_free letter_digit y = true).
  { apply adj_free_no_digit. apply Hchars; [reflexivity|].
    intros c Hc. apply negb_true_iff. char_solve. }
  rewrite (letter_digit_step_id y Hadj), (digit_letter_step_id y Hadj).
  assert (Hwr : forallb written_out y = true)
    by (apply Hchars; [reflexivity | intros c Hc; char_solve]).
  rewrite (strip_written_out y Hwr), filter_all.
  2:{ apply Hchars; [reflexivity|]. intros c Hc. rewrite Hc. reflexivity. }
  unfold split_u. rewrite (code_points_bmp y (written_out_bmp y Hwr)).
  destruct W as [|w W]; [reflexivity|].
  assert (Hsplit : split (ClsPlus false [WhiteSpace]) y = w :: W).
  { apply (split_join false [WhiteSpace] 0x20); [reflexivity | discriminate |].
    intros v Hv. apply (proj1 (forallb_forall _ _) HW) in Hv.
    destruct (word_of_inv _ _ Hv) as [Hvne Hvq]. split; [exact Hvne|].
    apply (forallb_impl is_letter); [|exact Hvq].
    intros c Hc. rewrite class_space. apply negb_true_iff. char_solve. }
  rewrite Hsplit, map_fixed.
  2:{ intros v Hv. apply code_units_bmp.
      apply (proj1 (forallb_forall _ _) HW) in Hv.
      destruct (word_of_inv _ _ Hv) as [_ Hvq].
      apply (forallb_impl is_letter); [|exact Hvq].
      intros c Hc. apply N.ltb_lt. char_solve. }
  rewrite (filter_words_all is_letter _ HW).
  rewrite toLowerCase_written_out.
  - rewrite map_join. reflexivity.
  - apply forallb_join; [reflexivity|].
    apply words_chars. apply (word_of_impl is_letter); [|exact HW].
    intros c Hc. char_solve.
Qed.

Lemma letters_not_separated (s : jsstring) :
  forallb is_letter s = true ->
  replaceAll sep_re [Text (js " ")] s = s.
Proof.
  intros H. apply replaceAll_cannot_start.
  apply (forallb_impl is_letter); [|exact H].
  intros c Hc. cbn [can_start]. rewrite class_kebab_separator.
  apply negb_true_iff. char_solve.
Qed.

Lemma cap_words_letters (caps : list jsstring) :
  forallb cap_word caps = true ->
  forallb (word_of is_letter) caps = true
  /\ forallb (adj_free (fun _ b => is_upper b)) caps = true.
Proof.
  induction caps as [|v caps IH]; [split; reflexivity|].
  cbn [forallb]. intros H. apply andb_true_iff in H as [Hv Hcaps].
  destruct (IH Hcaps) as (IH1 & IH2).
  destruct (cap_word_inv v Hv) as (c & t & -> & Hc & Htne & Ht).
  rewrite IH1, IH2, !andb_true_r. split.
  - unfold word_of. cbn [is_empty negb forallb andb].
    unfold is_letter at 1. rewrite Hc, orb_true_r. cbn [andb].
    apply (forallb_impl is_lower); [|exact Ht].
    intros d Hd. unfold is_letter. rewrite Hd. reflexivity.
  - apply adj_free_after_first. apply (forallb_impl is_lower); [|exact Ht].
    intros d Hd. apply negb_true_iff. char_solve.
Qed.

Lemma lower_word_letters (w : jsstring) :
  w <> [] -> forallb is_lower w = true ->
  word_of is_letter w = true /\ adj_free (fun _ b => is_upper b) w = true.
Proof.
  intros Hne Hw. destruct w as [|a t]; [contradiction|]. split.
  - unfold word_of. cbn [is_empty negb andb].
    apply (forallb_impl is_lower); [|exact Hw].
    intros d Hd. unfold is_letter. rewrite Hd. reflexivity.
  - cbn [forallb] in Hw. apply andb_true_iff in Hw as [_ Hw].
    apply adj_free_after_first. apply (forallb_impl is_lower); [|exact Hw].
    intros d Hd. apply negb_true_iff. char_solve.
Qed.

Lemma concat_caps_letters (caps : list jsstring) :
  forallb cap_word caps = true -> forallb is_letter (concat caps) = true.
Proof.
  intros H. destruct (cap_words_letters caps H) as (H1 & _).
  apply words_chars in H1. clear H.
  induction caps as [|v caps IH]; [reflexivity|].
  cbn [forallb concat] in *. apply andb_true_iff in H1 as [Hv Hc].
  rewrite forallb_app, Hv, (IH Hc). reflexivity.
Qed.

(** X9. [toKebabCase] splits camelCase and PascalCase before each capital.
    The input is a lower-case word, possibly empty, followed by capitalised
    words; the result is those words, lowered, joined by hyphens. *)
Theorem toKebabCase_splits_before_capitals (pre : jsstring) (caps : list jsstring) :
  forallb is_lower pre = true ->
  forallb cap_word caps = true ->
  toKebabCase (VString (pre ++ concat caps))
  = Return (join (js "-")
              (filter (fun w => negb (is_empty w)) (pre :: map (map lower1) caps))).
Proof.
  intros Hpre Hcaps.
  destruct (cap_words_letters caps Hcaps) as (HcW & HcA).
  pose proof (concat_caps_letters caps Hcaps) as Hcl.
  assert (Hpl : forallb is_letter pre = true).
  { apply (forallb_impl is_lower); [|exact Hpre].
    intros d Hd. unfold is_letter. rewrite Hd. reflexivity. }
  assert (Hlowered : forallb (word_of is_letter) (map (map lower1) caps) = true).
  { clear - HcW. induction caps as [|v caps IH]; [reflexivity|].
    cbn [forallb map] in *. apply andb_true_iff in HcW as [Hv Hc].
    rewrite (IH Hc), andb_true_r. destruct (word_of_inv _ _ Hv) as [Hne Hq].
    unfold word_of. rewrite forallb_map.
    rewrite (forallb_impl is_letter (fun c => is_letter (lower1 c)) v); [|
      intros c Hc'; rewrite lower1_letter; exact Hc' | exact Hq].
    destruct v; [contradiction | reflexivity]. }
  destruct pre as [|a pre].
  - cbn [app filter is_empty negb].
    rewrite (filter_words_all is_letter _ Hlowered).
    destruct caps as [|v caps]; [reflexivity|].
    cbn [forallb] in Hcaps. apply andb_true_iff in Hcaps as [Hv Hrest].
    destruct (cap_word_inv v Hv) as (c & t & -> & Hc & Htne & Ht).
    apply (toKebabCase_of_spaced_words _ ((c :: t) :: caps)); [| |exact HcW | exact HcA].
    + rewrite trim_empty_iff. cbn [concat app forallb].
      replace (isWhiteSpace c) with false; [reflexivity|]. symmetry. char_solve.
    + rewrite (letters_not_separated _ Hcl), replaceAll_pair.
      cbn [concat]. rewrite <- app_comm_cons, insert_between_skip.
      * rewrite (lower_upper_on_capitals caps Hrest t Htne Ht), join_cons_word.
        reflexivity.
      * rewrite class_lower_digit'. char_solve.
  - destruct (lower_word_letters (a :: pre) ltac:(discriminate) Hpre) as [HpW HpA].
    cbn [filter is_empty negb].
    rewrite (filter_words_all is_letter _ Hlowered).
    rewrite <- (toLowerCase_lower (a :: pre) Hpre) at 2.
    rewrite (toLowerCase_written_out (a :: pre)).
    2:{ apply (forallb_impl is_lower); [|exact Hpre]. intros d Hd. char_solve. }
    change (map lower1 (a :: pre) :: map (map lower1) caps)
      with (map (map lower1) ((a :: pre) :: caps)).
    apply toKebabCase_of_spaced_words.
    + rewrite trim_empty_iff. cbn [app forallb].
      cbn [forallb] in Hpre. apply andb_true_iff in Hpre as [Ha _].
      replace (isWhiteSpace a) with false; [reflexivity|]. symmetry. char_solve.
    + rewrite letters_not_separated by (rewrite forallb_app, Hpl, Hcl; reflexivity).
      rewrite replaceAll_pair.
      apply (lower_upper_on_capitals caps Hcaps); [discriminate | exact Hpre].
    + cbn [forallb]. rewrite HpW, HcW. reflexivity.
    + cbn [forallb]. rewrite HpA, HcA. reflexivity.
Qed.

(** ** [to_snake_case] *)

Lemma dropWhile_head_false (p : char -> bool) (s : list char) (c : char) (t : list char) :
  dropWhile p s = c :: t -> p c = false.
Proof.
  induction s as [|a s IH]; cbn [dropWhile]; [discriminate|].
  destruct (p a) eqn:Ha; [exact IH|].
  intros E. injection E as <- _. exact Ha.
Qed.

Lemma dropWhile_idem (p : char -> bool) (s : list char) :
  dropWhile p (dropWhile p s) = dropWhile p s.
Proof.
  destruct (dropWhile p s) as [|c t] eqn:E; [reflexivity|].
  apply dropWhile_head, (dropWhile_head_false p s c t E).
Qed.

Lemma py_strip_idem (chars s : pystring) :
  py_strip chars (py_strip chars s) = py_strip chars s.
Proof.
  unfold py_strip. set (p := fun c => existsb (N.eqb c) chars).
  unfold dropWhileEnd.
  destruct (dropWhile_split p (rev (dropWhile p s))) as (pre & E & _).
  set (r := dropWhile p (rev (dropWhile p s))) in *.
  assert (Hhead : dropWhile p (rev r) = rev r).
  { destruct (rev r) as [|a x] eqn:Er; [reflexivity|].
    apply dropWhile_head.
    apply (f_equal (@rev char)) in E.
    rewrite rev_involutive, rev_app_distr, Er in E.
    cbn [app] in E. apply (dropWhile_head_false p s a _ E). }
  rewrite Hhead, rev_involutive. unfold r. rewrite dropWhile_idem. reflexivity.
Qed.

Lemma class_snake_separator (c : char) :
  in_class false [PyWhiteSpace; Chr (ch "-")] c = snake_separator c.
Proof. apply class_py_separator. Qed.

(** No capital: [re.sub(r'([A-Z]+)', r'_\1', text)] changes nothing. *)
Lemma capitals_step_id (s : pystring) :
  forallb (fun c => negb (is_upper c)) s = true ->
  replaceAll capitals_re underscore_before s = s.
Proof.
  intros H. apply replaceAll_cannot_start.
  rewrite (forallb_ext_bool _ (fun c => negb (is_upper c))); [exact H|].
  intros c. cbn [can_start]. rewrite class_upper. reflexivity.
Qed.

(** No white space and no hyphen: [re.sub(r'[\s\-]+', '_', text)] changes
    nothing. *)
Lemma separators_step_id (s : pystring) :
  forallb (fun c => negb (snake_separator c)) s = true ->
  replaceAll snake_sep_re [Text (py "_")] s = s.
Proof.
  intros H. apply replaceAll_cannot_start.
  rewrite (forallb_ext_bool _ (fun c => negb (snake_separator c))); [exact H|].
  intros c. cbn [can_start]. rewrite class_snake_separator. reflexivity.
Qed.

Lemma py_lower_ascii (s : pystring) :
  forallb is_ascii s = true -> py_lower s = map lower1 s.
Proof. intros H. unfold py_lower. rewrite H. reflexivity. Qed.

Lemma snake_plain_inv (s : pystring) :
  forallb snake_plain s = true ->
  forallb is_ascii s = true
  /\ forallb (fun c => negb (is_upper c)) s = true
  /\ forallb (fun c => negb (snake_separator c)) s = true.
Proof.
  intros H. repeat split; (apply (forallb_impl snake_plain); [|exact H]);
    intros c Hc; unfold snake_plain in Hc;
    apply andb_true_iff in Hc as [Hc H3]; apply andb_true_iff in Hc as [H1 H2];
    assumption.
Qed.

Lemma lower1_not_upper (c : char) : is_upper c = false -> lower1 c = c \/ is_ascii c = false.
Proof.
  intros H. destruct (is_ascii c) eqn:Ha; [left | right; reflexivity].
  revert H Ha. char_solve.
Qed.

Lemma py_lower_plain (s : pystring) :
  forallb snake_plain s = true -> py_lower s = s.
Proof.
  intros H. destruct (snake_plain_inv s H) as (Ha & Hu & _).
  rewrite (py_lower_ascii s Ha). apply map_id_on.
  intros c Hin. apply (proj1 (forallb_forall _ _) H) in Hin. unfold snake_plain in Hin.
  apply andb_true_iff in Hin as [Hc _]. apply andb_true_iff in Hc as [H1 H2].
  apply negb_true_iff in H2.
  destruct (lower1_not_upper c H2) as [E|E]; [exact E | congruence].
Qed.

(** X10. [to_snake_case] keeps every character but capitals, white space and
    hyphens.  An ASCII string without these is returned as it is, but for
    the underscores at its ends: a dot, [@] or [!] stays, where the
    JavaScript converters delete it or split at it. *)
Theorem to_snake_case_keeps_other_characters (s : pystring) :
  forallb snake_plain s = true ->
  to_snake_case s = py_strip (py "_") s.
Proof.
  intros H. destruct (snake_plain_inv s H) as (_ & Hu & Hs).
  unfold to_snake_case. cbv zeta.
  rewrite (capitals_step_id s Hu), (separators_step_id s Hs), (py_lower_plain s H).
  reflexivity.
Qed.

Lemma snake_result_chars (s : pystring) :
  forallb is_ascii s = true ->
  forallb snake_plain
    (py_lower (replaceAll snake_sep_re [Text (py "_")]
                 (replaceAll capitals_re underscore_before s))) = true.
Proof.
  intros H.
  set (t1 := replaceAll capitals_re underscore_before s).
  assert (H1 : forallb is_ascii t1 = true).
  { apply forallb_replaceAll; [|exact H].
    intros t [E|[E|[]]]; [injection E as <-; reflexivity | discriminate]. }
  set (t2 := replaceAll snake_sep_re [Text (py "_")] t1).
  assert (H2 : forallb (fun c => is_ascii c && negb (snake_separator c)) t2 = true).
  { apply forallb_replaceAll_ClsPlus; [reflexivity|].
    apply (forallb_impl is_ascii); [|exact H1].
    intros c Hc. rewrite class_snake_separator, Hc.
    destruct (snake_separator c); reflexivity. }
  rewrite py_lower_ascii.
  - rewrite forallb_map.
    apply (forallb_impl (fun c => is_ascii c && negb (snake_separator c))); [|exact H2].
    intros c Hc. apply andb_true_iff in Hc as [Ha Hs]. snake_solve.
  - apply (forallb_impl (fun c => is_ascii c && negb (snake_separator c))); [|exact H2].
    intros c Hc. apply andb_true_iff in Hc as [Ha _]. exact Ha.
Qed.

Lemma to_snake_case_output (s : pystring) :
  forallb is_ascii s = true ->
  forallb snake_plain (to_snake_case s) = true
  /\ py_strip (py "_") (to_snake_case s) = to_snake_case s.
Proof.
  intros H. unfold to_snake_case. cbv zeta. split.
  - unfold py_strip. apply forallb_dropWhileEnd, forallb_dropWhile.
    apply snake_result_chars, H.
  - apply py_strip_idem.
Qed.

(** X11. On an ASCII string [to_snake_case] is idempotent; its result has no
    capital, no white space and no hyphen, and [strip('_')] has nothing
    left to remove from it. *)
Theorem to_snake_case_idempotent_on_ascii (s : pystring) :
  forallb is_ascii s = true ->
  to_snake_case (to_snake_case s) = to_snake_case s
  /\ forallb snake_plain (to_snake_case s) = true.
Proof.
  intros H. destruct (to_snake_case_output s H) as [Hp Hs].
  split; [|exact Hp].
  destruct (snake_plain_inv _ Hp) as (_ & Hu & Hsep).
  unfold to_snake_case at 1. cbv zeta.
  rewrite (capitals_step_id _ Hu), (separators_step_id _ Hsep), (py_lower_plain _ Hp).
  exact Hs.
Qed.

(** *** Words *)

Lemma py_strip_words (q : char -> bool) (chars sep : pystring) (ws : list jsstring) :
  (forall c, q c = true -> existsb (N.eqb c) chars = false) ->
  forallb (word_of q) ws = true ->
  py_strip chars (join sep ws) = join sep ws.
Proof.
  intros Hq H. destruct ws as [|w ws]; [reflexivity|].
  assert (Hw : word_of q w = true)
    by (cbn [forallb] in H; apply andb_true_iff in H as [Hw _]; exact Hw).
  destruct (join_head q sep w ws Hw) as (a & r & E & Ha).
  destruct (join_last sep (w :: ws) ltac:(discriminate)) as [pre Epre].
  destruct (word_of_inv q _ (last_word q (w :: ws) ltac:(discriminate) H))
    as [Hlne Hl].
  unfold py_strip. rewrite E, (dropWhile_head _ a r (Hq a Ha)), <- E, Epre.
  apply dropWhileEnd_keep; [exact Hlne|].
  apply (forallb_impl q); [|exact Hl].
  intros c Hc. rewrite (Hq c Hc). reflexivity.
Qed.

Lemma lower_or_digit_no_underscore (c : char) :
  lower_or_digit c = true -> existsb (N.eqb c) (py "_") = false.
Proof.
  intros H. change (py "_") with [95]. cbn [existsb]. rewrite orb_false_r.
  snake_solve.
Qed.

Lemma lower_or_digit_plain (c : char) : lower_or_digit c = true -> snake_plain c = true.
Proof. intros H. snake_solve. Qed.

Lemma lower_words_plain (x : pystring) (ws : list jsstring) :
  forallb snake_plain x = true ->
  forallb (word_of lower_or_digit) ws = true ->
  forallb snake_plain (join x ws) = true.
Proof.
  intros Hx H. apply forallb_join; [exact Hx|].
  apply words_chars, (word_of_impl lower_or_digit); [|exact H].
  exact lower_or_digit_plain.
Qed.

(** X12. [to_snake_case] on lower-case words separated by white space and
    hyphens: the words joined by single underscores, one for each run of
    separators. *)
Theorem to_snake_case_of_joined_words (x : pystring) (ws : list pystring) :
  x <> [] ->
  forallb snake_separator x = true ->
  forallb (word_of lower_or_digit) ws = true ->
  to_snake_case (join x ws) = join (py "_") ws.
Proof.
  intros Hne Hx H. unfold to_snake_case. cbv zeta.
  rewrite capitals_step_id.
  2:{ apply forallb_join.
      - apply (forallb_impl snake_separator); [|exact Hx]. intros c Hc. snake_solve.
      - apply words_chars, (word_of_impl lower_or_digit); [|exact H].
        intros c Hc. snake_solve. }
  rewrite (replaceAll_join_run false [PyWhiteSpace; Chr (ch "-")] (py "_") x ws Hne).
  2:{ rewrite (forallb_ext_bool _ snake_separator); [exact Hx|].
      exact class_snake_separator. }
  2:{ apply (word_of_impl lower_or_digit); [|exact H].
      intros c Hc. rewrite class_snake_separator. snake_solve. }
  rewrite py_lower_plain by (apply lower_words_plain; [reflexivity | exact H]).
  apply (py_strip_words lower_or_digit); [exact lower_or_digit_no_underscore | exact H].
Qed.

(** *** Capitals *)

Lemma run_word_inv (w : pystring) :
  run_word w = true ->
  exists c u a l, w = c :: u ++ a :: l /\ is_upper c = true
                  /\ forallb is_upper u = true
                  /\ forallb lower_or_digit (a :: l) = true.
Proof.
  destruct w as [|c t]; [discriminate|]. cbn [run_word]. intros H.
  apply andb_true_iff in H as [Hc Ht].
  destruct (word_of_inv _ _ Ht) as [Hne Hl].
  destruct (dropWhile_split is_upper t) as (u & E & Hu).
  destruct (dropWhile is_upper t) as [|a l]; [contradiction|].
  exists c, u, a, l. rewrite E at 1. repeat split; assumption.
Qed.

Lemma exec_capitals (c : char) (u r : list char) :
  is_upper c = true ->
  forallb is_upper u = true ->
  match r with [] => True | d :: _ => is_upper d = false end ->
  exec capitals_re (c :: u ++ r) = Some ([c :: u], r).
Proof.
  intros Hc Hu Hr. unfold exec. cbn [rmatch]. rewrite class_upper, Hc.
  apply greedy_run.
  - rewrite (forallb_ext_bool _ is_upper); [exact Hu | exact class_upper].
  - destruct r as [|d r]; [exact I | rewrite class_upper; exact Hr].
  - do 2 f_equal. f_equal.
    change (c :: u ++ r) with ((c :: u) ++ r).
    rewrite length_app, Nat.add_sub, firstn_app, Nat.sub_diag, firstn_all.
    cbn [firstn]. apply app_nil_r.
Qed.

Lemma lower_or_digit_copy (l rest : list char) :
  forallb lower_or_digit l = true ->
  replaceAll capitals_re underscore_before (l ++ rest)
  = l ++ replaceAll capitals_re underscore_before rest.
Proof.
  intros H. apply replaceAll_copy.
  apply (forallb_impl lower_or_digit); [|exact H].
  intros c Hc. cbn [can_start]. rewrite class_upper. snake_solve.
Qed.

Lemma separators_copy (x rest : list char) :
  forallb snake_separator x = true ->
  replaceAll capitals_re underscore_before (x ++ rest)
  = x ++ replaceAll capitals_re underscore_before rest.
Proof.
  intros H. apply replaceAll_copy.
  apply (forallb_impl snake_separator); [|exact H].
  intros c Hc. cbn [can_start]. rewrite class_upper. snake_solve.
Qed.

(** The first substitution, on words that start with capitals, joined by
    [x]: an underscore before each word. *)
Lemma capitals_step_words (x : pystring) (caps : list jsstring) :
  forallb snake_separator x = true ->
  forallb run_word caps = true ->
  caps <> [] ->
  replaceAll capitals_re underscore_before (join x caps)
  = py "_" ++ join (x ++ py "_") caps.
Proof.
  intros Hx. induction caps as [|v caps IH]; [contradiction|]. intros H _.
  cbn [forallb] in H. apply andb_true_iff in H as [Hv Hcaps].
  destruct (run_word_inv v Hv) as (c & u & a & l & -> & Hc & Hu & Hl).
  assert (Ha : is_upper a = false).
  { cbn [forallb] in Hl. apply andb_true_iff in Hl as [Ha _]. snake_solve. }
  destruct caps as [|v' caps'].
  - cbn [join]. rewrite (replaceAll_match _ _ _ _ _ _ (exec_capitals c u (a :: l) Hc Hu Ha)).
    rewrite <- (app_nil_r (a :: l)) at 1.
    rewrite (lower_or_digit_copy _ _ Hl), replaceAll_nil, app_nil_r.
    cbn [expand flat_map nth pred]. rewrite app_nil_r, <- app_assoc. reflexivity.
  - rewrite !join_cons.
    change ((c :: u ++ a :: l) ++ x ++ join x (v' :: caps'))
      with (c :: (u ++ a :: l) ++ x ++ join x (v' :: caps')).
    rewrite <- app_assoc.
    rewrite (replaceAll_match _ _ c _ [c :: u] ((a :: l) ++ x ++ join x (v' :: caps'))).
    2:{ apply (exec_capitals c u _ Hc Hu). exact Ha. }
    rewrite (lower_or_digit_copy _ _ Hl), (separators_copy _ _ Hx).
    rewrite (IH Hcaps ltac:(discriminate)).
    cbn [expand flat_map nth pred]. rewrite app_nil_r.
    repeat (rewrite <- app_assoc || rewrite <- app_comm_cons). reflexivity.
Qed.

(** [[...]+] replaced by [rep], on words joined by a run of the class
    followed by other characters. *)
Lemma replaceAll_join_run_then (n : bool) (items : list class_item)
    (rep x y : jsstring) (ws : list jsstring) :
  x <> [] -> forallb (in_class n items) x = true ->
  y <> [] -> forallb (fun c => negb (in_class n items c)) y = true ->
  forallb (forallb (fun c => negb (in_class n items c))) ws = true ->
  replaceAll (ClsPlus n items) [Text rep] (join (x ++ y) ws) = join (rep ++ y) ws.
Proof.
  intros Hx Hrun Hy Hny. induction ws as [|w ws IH]; [reflexivity|].
  cbn [forallb]. intros H. apply andb_true_iff in H as [Hw Hws].
  destruct ws as [|w' ws'].
  - apply replaceAll_cannot_start. exact Hw.
  - rewrite !join_cons, replaceAll_copy by exact Hw. f_equal.
    rewrite <- (IH Hws). clear IH.
    generalize (join (x ++ y) (w' :: ws')) as J. intros J.
    destruct x as [|a x]; [contradiction|].
    destruct y as [|b y]; [contradiction|].
    cbn [forallb] in Hrun. apply andb_true_iff in Hrun as [Ha Hx'].
    rewrite <- !app_assoc, <- !app_comm_cons, replaceAll_ClsPlus_cons, Ha.
    assert (Hb : in_class n items b = false).
    { cbn [forallb] in Hny. apply andb_true_iff in Hny as [Hb _].
      apply negb_true_iff in Hb. exact Hb. }
    rewrite (dropWhile_run _ x b _ Hx' Hb).
    rewrite (app_comm_cons y J b).
    rewrite (replaceAll_copy (ClsPlus n items) [Text rep] (b :: y) J Hny).
    cbn [expand flat_map]. rewrite app_nil_r, <- ?app_assoc. reflexivity.
Qed.

Lemma py_strip_leading (chars u s : pystring) :
  forallb (fun c => existsb (N.eqb c) chars) u = true ->
  py_strip chars (u ++ s) = py_strip chars s.
Proof.
  intros H. unfold py_strip. f_equal.
  induction u as [|a u IH]; [reflexivity|].
  cbn [forallb] in H. apply andb_true_iff in H as [Ha Hu].
  cbn [app dropWhile]. rewrite Ha. exact (IH Hu).
Qed.

Lemma underscore_fixed (k : pystring) :
  forallb underscore k = true ->
  forallb is_ascii k = true /\ map lower1 k = k.
Proof.
  intros H. split.
  - apply (forallb_impl underscore); [|exact H].
    intros c Hc. unfold underscore in Hc. change (py "_") with [95] in Hc.
    cbn [existsb] in Hc. rewrite orb_false_r in Hc. char_solve.
  - apply map_id_on. intros c Hin.
    apply (proj1 (forallb_forall _ _) H) in Hin. unfold underscore in Hin.
    change (py "_") with [95] in Hin.
    cbn [existsb] in Hin. rewrite orb_false_r in Hin. char_solve.
Qed.

Lemma lowered_snake_words (W : list jsstring) :
  forallb (word_of is_alnum) W = true ->
  forallb (word_of lower_or_digit) (map (map lower1) W) = true.
Proof.
  induction W as [|w W IH]; [reflexivity|].
  cbn [forallb map]. intros H. apply andb_true_iff in H as [Hw HW].
  rewrite (IH HW), andb_true_r.
  destruct (word_of_inv _ _ Hw) as [Hne Hq].
  unfold word_of. rewrite forallb_map.
  rewrite (forallb_impl is_alnum (fun c => lower_or_digit (lower1 c)) w); [| |exact Hq].
  - destruct w; [contradiction | reflexivity].
  - intros c Hc. snake_solve.
Qed.

(** The end of [to_snake_case], on words of letters and digits joined by
    underscores, after underscores. *)
Lemma snake_finish (u k : pystring) (W : list jsstring) :
  forallb underscore u = true ->
  forallb underscore k = true ->
  forallb (word_of is_alnum) W = true ->
  py_strip (py "_") (py_lower (u ++ join k W)) = join k (map (map lower1) W).
Proof.
  intros Hu Hk HW.
  destruct (underscore_fixed u Hu) as [Hua Hul].
  destruct (underscore_fixed k Hk) as [Hka Hkl].
  rewrite py_lower_ascii.
  2:{ rewrite forallb_app, Hua. apply forallb_join; [exact Hka|].
      apply words_chars, (word_of_impl is_alnum); [|exact HW].
      intros c Hc. char_solve. }
  rewrite map_app, Hul, map_join, Hkl.
  rewrite (py_strip_leading _ u _ Hu).
  apply (py_strip_words lower_or_digit);
    [exact lower_or_digit_no_underscore | apply lowered_snake_words, HW].
Qed.

Lemma snake_finish_words (k : pystring) (W : list jsstring) :
  forallb underscore k = true ->
  forallb (word_of is_alnum) W = true ->
  py_strip (py "_") (py_lower (join k W)) = join k (map (map lower1) W).
Proof. intros Hk HW. exact (snake_finish [] k W eq_refl Hk HW). Qed.

Lemma run_words_alnum (caps : list jsstring) :
  forallb run_word caps = true -> forallb (word_of is_alnum) caps = true.
Proof.
  induction caps as [|v caps IH]; [reflexivity|].
  cbn [forallb]. intros H. apply andb_true_iff in H as [Hv Hcaps].
  rewrite (IH Hcaps), andb_true_r.
  destruct (run_word_inv v Hv) as (c & u & a & l & -> & Hc & Hu & Hl).
  unfold word_of. cbn [is_empty negb andb forallb].
  rewrite forallb_app.
  rewrite (forallb_impl is_upper is_alnum u); [| |exact Hu].
  - rewrite (forallb_impl lower_or_digit is_alnum (a :: l)); [| |exact Hl].
    + replace (is_alnum c) with true; [reflexivity|]. symmetry. char_solve.
    + intros d Hd. snake_solve.
  - intros d Hd. char_solve.
Qed.

Lemma lower_word_alnum (w : pystring) :
  word_of lower_or_digit w = true ->
  word_of is_alnum w = true /\ map lower1 w = w.
Proof.
  intros H. destruct (word_of_inv _ _ H) as [Hne Hq]. split.
  - unfold word_of. rewrite (forallb_impl lower_or_digit is_alnum w); [| |exact Hq].
    + destruct w; [contradiction | reflexivity].
    + intros c Hc. snake_solve.
  - apply map_id_on. intros c Hin.
    apply (proj1 (forallb_forall _ _) Hq) in Hin. snake_solve.
Qed.

Lemma no_separator_in_words (k : pystring) (W : list jsstring) :
  forallb underscore k = true ->
  forallb (word_of is_alnum) W = true ->
  forallb (fun c => negb (snake_separator c)) (join k W) = true.
Proof.
  intros Hk HW. apply forallb_join.
  - apply (forallb_impl underscore); [|exact Hk].
    intros c Hc. unfold underscore in Hc. change (py "_") with [95] in Hc.
    cbn [existsb] in Hc. rewrite orb_false_r in Hc. snake_solve.
  - apply words_chars, (word_of_impl is_alnum); [|exact HW].
    intros c Hc. snake_solve.
Qed.

(** X13. [to_snake_case] sets an underscore before each run of capitals,
    and keeps the run together: on a lower-case word, possibly empty,
    followed by words that start with capitals, the result is the words,
    lowered, joined by underscores ([parseXMLFile] gives [parse_xmlfile]). *)
Theorem to_snake_case_splits_before_capitals (pre : pystring) (caps : list pystring) :
  forallb lower_or_digit pre = true ->
  forallb run_word caps = true ->
  to_snake_case (pre ++ concat caps)
  = join (py "_") (filter (fun w => negb (is_empty w)) (pre :: map (map lower1) caps)).
Proof.
  intros Hpre Hcaps.
  pose proof (run_words_alnum caps Hcaps) as Hal.
  pose proof (lowered_snake_words caps Hal) as Hlow.
  unfold to_snake_case. cbv zeta.
  rewrite (lower_or_digit_copy _ _ Hpre), <- join_nil_concat.
  cbn [filter]. rewrite (filter_words_all lower_or_digit _ Hlow).
  destruct caps as [|v caps].
  - cbn [join map]. rewrite replaceAll_nil, app_nil_r.
    destruct pre as [|a pre]; [reflexivity|].
    assert (Hw : word_of lower_or_digit (a :: pre) = true) by exact Hpre.
    destruct (lower_word_alnum _ Hw) as [Hwa Hwl].
    change (a :: pre) with (join (py "_") [a :: pre]) at 1.
    rewrite separators_step_id
      by (apply no_separator_in_words; [reflexivity | cbn [forallb]; rewrite Hwa; reflexivity]).
    rewrite snake_finish_words; [|reflexivity | cbn [forallb]; rewrite Hwa; reflexivity].
    rewrite map_cons, Hwl. reflexivity.
  - rewrite (capitals_step_words [] _ eq_refl Hcaps ltac:(discriminate)).
    cbn [app]. destruct pre as [|a pre].
    + cbn [app is_empty negb].
      rewrite separators_step_id.
      * apply snake_finish; [reflexivity | reflexivity | exact Hal].
      * rewrite forallb_app, (no_separator_in_words (py "_") _ eq_refl Hal). reflexivity.
    + assert (Hw : word_of lower_or_digit (a :: pre) = true) by exact Hpre.
      destruct (lower_word_alnum _ Hw) as [Hwa Hwl].
      cbn [is_empty negb].
      rewrite <- join_cons.
      assert (HW : forallb (word_of is_alnum) ((a :: pre) :: v :: caps) = true)
        by (cbn [forallb] in *; rewrite Hwa; exact Hal).
      rewrite separators_step_id by (apply no_separator_in_words; [reflexivity | exact HW]).
      rewrite snake_finish_words; [|reflexivity | exact HW].
      rewrite map_cons, Hwl. reflexivity.
Qed.

(** X14. In [to_snake_case] a separator followed by a capital gives two
    underscores, one from each substitution: on a lower-case word and words
    that start with capitals, separated by white space and hyphens, the
    result joins the lowered words by [__] ([hello World] gives
    [hello__world]). *)
Theorem to_snake_case_separator_before_capital (x w : pystring) (caps : list pystring) :
  x <> [] ->
  forallb snake_separator x = true ->
  word_of lower_or_digit w = true ->
  forallb run_word caps = true ->
  to_snake_case (join x (w :: caps))
  = join (py "__") (w :: map (map lower1) caps).
Proof.
  intros Hne Hx Hw Hcaps.
  pose proof (run_words_alnum caps Hcaps) as Hal.
  destruct (lower_word_alnum _ Hw) as [Hwa Hwl].
  destruct (word_of_inv _ _ Hw) as [_ Hwq].
  assert (HW : forallb (word_of is_alnum) (w :: caps) = true)
    by (cbn [forallb]; rewrite Hwa; exact Hal).
  unfold to_snake_case. cbv zeta.
  assert (E1 : replaceAll capitals_re underscore_before (join x (w :: caps))
               = join (x ++ py "_") (w :: caps)).
  { destruct caps as [|v caps].
    - cbn [join]. apply capitals_step_id.
      apply (forallb_impl lower_or_digit); [|exact Hwq]. intros c Hc. snake_solve.
    - rewrite !join_cons, (lower_or_digit_copy _ _ Hwq), (separators_copy _ _ Hx).
      rewrite capitals_step_words; [|exact Hx | exact Hcaps | discriminate].
      rewrite <- !app_assoc. reflexivity. }
  rewrite E1.
  rewrite (replaceAll_join_run_then false [PyWhiteSpace; Chr (ch "-")] (py "_") x (py "_")).
  - change (py "_" ++ py "_") with (py "__").
    rewrite snake_finish_words; [|reflexivity | exact HW].
    cbn [map]. rewrite Hwl. reflexivity.
  - exact Hne.
  - rewrite (forallb_ext_bool _ snake_separator); [exact Hx | exact class_snake_separator].
  - discriminate.
  - reflexivity.
  - apply words_chars, (word_of_impl is_alnum); [|exact HW].
    intros c Hc. rewrite class_snake_separator. snake_solve.
Qed.

(** ** The shape of the result of [toKebabCase] *)

Lemma boundaries_ascii (s : jsstring) :
  forallb is_ascii s = true ->
  forallb is_ascii
    (replaceAll digit_letter_re space_between
       (replaceAll letter_digit_re space_between
          (replaceAll acronym_re space_between
             (replaceAll lower_upper_re space_between
                (replaceAll sep_re [Text (js " ")] s))))) = true.
Proof.
  intros H.
  assert (Hsp : forall t, In (Text t) space_between -> forallb is_ascii t = true).
  { intros t [E|[E|[E|[]]]]; try discriminate. injection E as <-. reflexivity. }
  repeat (apply forallb_replaceAll; [exact Hsp|]).
  apply forallb_replaceAll; [|exact H].
  intros t [E|[]]. injection E as <-. reflexivity.
Qed.

(** X15. On an ASCII string the result of [toKebabCase] is made of words
    joined by single hyphens, each word not empty and of lower-case letters
    and digits: no hyphen at either end, no two hyphens in a row, no other
    character. *)
Theorem toKebabCase_ascii_result (s : jsstring) :
  forallb is_ascii s = true ->
  exists ts,
    toKebabCase (VString s) = Return (join (js "-") ts)
    /\ forallb (word_of lower_or_digit) ts = true.
Proof.
  intros H. unfold toKebabCase.
  destruct (is_empty (trim s)); [exists []; split; reflexivity|].
  cbv zeta.
  pose proof (boundaries_ascii s H) as Hy.
  set (y := replaceAll digit_letter_re _ _) in *.
  assert (Hwr : forallb written_out y = true).
  { apply (forallb_impl is_ascii); [|exact Hy]. intros c Hc. char_solve. }
  rewrite (strip_written_out y Hwr).
  set (z := filter _ y).
  assert (Hbmp : forallb (fun c => c <? 0xD800) z = true).
  { apply forallb_forall. intros c Hc. apply filter_In in Hc as [Hc _].
    apply (proj1 (forallb_forall _ _) (written_out_bmp y Hwr) c Hc). }
  assert (Hz : forallb (fun c => is_alnum c || isWhiteSpace c) z = true).
  { apply forallb_forall. intros c Hc. apply filter_In in Hc as [Hc Hk].
    apply (proj1 (forallb_forall _ _) Hy) in Hc.
    destruct (isWhiteSpace c); [apply orb_true_r|].
    rewrite orb_false_r in Hk. clear - Hc Hk. char_solve. }
  assert (Hpieces : forall w, In w (split (ClsPlus false [WhiteSpace]) z) ->
            forallb is_alnum w = true).
  { intros w Hw.
    apply split_from_ClsPlus_infix in Hw as [Hn (x & z' & E)]; [|reflexivity].
    cbn [rev app] in E.
    rewrite E, !forallb_app in Hz.
    apply andb_true_iff in Hz as [_ Hz]. apply andb_true_iff in Hz as [Hz _].
    apply forallb_forall. intros c Hc.
    apply (proj1 (forallb_forall _ _) Hz) in Hc as Hc1.
    apply (proj1 (forallb_forall _ _) Hn) in Hc as Hc2.
    rewrite class_space in Hc2. apply negb_true_iff in Hc2.
    rewrite Hc2, orb_false_r in Hc1. exact Hc1. }
  unfold split_u. rewrite (code_points_bmp z Hbmp).
  rewrite map_fixed.
  2:{ intros w Hw. apply code_units_bmp.
      apply (forallb_impl is_alnum); [|apply (Hpieces w Hw)].
      intros c Hc. apply N.ltb_lt. char_solve. }
  set (ts := filter _ (split _ z)).
  assert (Hts : forallb (word_of is_alnum) ts = true).
  { apply forallb_forall. intros w Hw. subst ts.
    apply filter_In in Hw as [Hw Hne].
    unfold word_of. rewrite Hne, (Hpieces w Hw). reflexivity. }
  clearbody ts. clear Hpieces.
  exists (map (map lower1) ts). split.
  - rewrite toLowerCase_written_out.
    + rewrite map_join. reflexivity.
    + apply forallb_join; [reflexivity|].
      apply words_chars, (word_of_impl is_alnum); [exact alnum_written_out | exact Hts].
  - apply lowered_snake_words, Hts.
Qed.

(** ** An empty word in [camelCase] and [dotCase] *)

Lemma word_of_mono (p q : char -> bool) (w : list char) :
  (forall c, p c = true -> q c = true) ->
  word_of p w = true -> word_of q w = true.
Proof.
  intros Hpq H. destruct (word_of_inv p w H) as [Hne Hp].
  unfold word_of. rewrite (forallb_impl p q w Hpq Hp).
  destruct w; [contradiction | reflexivity].
Qed.

(** Deleted characters between two runs of separators leave two spaces in
    [cleaned]. *)
Lemma cleaned_separated_specials (w1 w2 x y : jsstring) :
  word_of is_alnum w1 = true -> word_of is_alnum w2 = true ->
  x <> [] -> forallb camel_separator x = true ->
  word_of (fun c => negb (is_alnum c) && negb (camel_separator c)) y = true ->
  cleaned (join x [w1; y; w2]) = join (js " ") [w1; []; w2].
Proof.
  intros H1 H2 Hx Hsep Hy.
  destruct (word_of_inv _ _ H1) as [Hne1 Hq1].
  destruct (word_of_inv _ _ H2) as [Hne2 Hq2].
  destruct (word_of_inv _ _ Hy) as [_ Hqy].
  unfold cleaned.
  rewrite (replaceAll_join_run false _ (js " ") x [w1; y; w2] Hx).
  - rewrite replaceAll_ClsPlus_delete.
    change (join (js " ") [w1; y; w2]) with (w1 ++ js " " ++ y ++ js " " ++ w2).
    rewrite !filter_app.
    assert (Hk : forall w, forallb is_alnum w = true ->
              filter (fun c => negb (in_class true
                        [lower_az; upper_AZ; digit_09; Chr (ch " ")] c)) w = w).
    { intros w Hw. apply filter_all. apply (forallb_impl is_alnum); [|exact Hw].
      intros c Hc. rewrite class_not_alnum_or_space, negb_involutive.
      unfold alnum_or_space. rewrite Hc. reflexivity. }
    rewrite (Hk w1 Hq1), (Hk w2 Hq2), (filter_none _ y).
    + change (filter _ (js " ")) with (js " ").
      destruct w1 as [|a t]; [contradiction|].
      cbn [forallb] in Hq1. apply andb_true_iff in Hq1 as [Ha _].
      change (join (js " ") [a :: t; []; w2])
        with ((a :: t) ++ js " " ++ [] ++ js " " ++ w2).
      assert (E : (a :: t) ++ js " " ++ [] ++ js " " ++ w2
                  = a :: (t ++ js " " ++ js " ") ++ w2)
        by (cbn [app]; rewrite <- !app_assoc; reflexivity).
      rewrite E. apply trim_keep; [exact (alnum_not_space a Ha) | exact Hne2 |].
      apply (forallb_impl is_alnum); [|exact Hq2].
      intros c Hc. rewrite (alnum_not_space c Hc). reflexivity.
    + apply (forallb_impl (fun c => negb (is_alnum c) && negb (camel_separator c)));
        [|exact Hqy].
      intros c Hc. rewrite class_not_alnum_or_space, !negb_involutive.
      apply negb_true_iff. char_solve.
  - rewrite (forallb_ext_bool _ camel_separator); [exact Hsep|].
    exact class_camel_separator.
  - assert (Ha : forall c, is_alnum c = true ->
              negb (in_class false [WhiteSpace; Chr (ch "-"); Chr (ch "_"); Chr (ch ".")] c)
              = true).
    { intros c Hc. rewrite class_camel_separator, (alnum_not_camel_separator c Hc).
      reflexivity. }
    assert (Hs : forall c, negb (is_alnum c) && negb (camel_separator c) = true ->
              negb (in_class false [WhiteSpace; Chr (ch "-"); Chr (ch "_"); Chr (ch ".")] c)
              = true).
    { intros c Hc. rewrite class_camel_separator.
      apply andb_true_iff in Hc as [_ Hc]. exact Hc. }
    cbn [forallb].
    rewrite (word_of_mono _ _ w1 Ha H1), (word_of_mono _ _ y Hs Hy),
      (word_of_mono _ _ w2 Ha H2).
    reflexivity.
Qed.

(** X16. Deleted characters with separators on both sides leave an empty
    word: for two words of ASCII letters and digits, with a run of
    separators, then characters that are neither, then the separators
    again between them ([Tom & Jerry]), [dotCase] joins three words, the
    second one empty, and returns two dots in a row ([tom..jerry]);
    [camelCase] adds nothing for the empty word. *)
Theorem empty_word_between_separators (w1 w2 x y : jsstring) :
  word_of is_alnum w1 = true -> word_of is_alnum w2 = true ->
  x <> [] -> forallb camel_separator x = true ->
  word_of (fun c => negb (is_alnum c) && negb (camel_separator c)) y = true ->
  dotCase (VString (w1 ++ x ++ y ++ x ++ w2))
  = Return (join (js ".") [map lower1 w1; []; map lower1 w2])
  /\ camelCase (VString (w1 ++ x ++ y ++ x ++ w2))
     = Return (map lower1 w1 ++ capitalize w2).
Proof.
  intros H1 H2 Hx Hsep Hy.
  destruct (word_of_inv _ _ H1) as [Hne1 Hq1].
  destruct (word_of_inv _ _ H2) as [Hne2 Hq2].
  change (w1 ++ x ++ y ++ x ++ w2) with (join x [w1; y; w2]).
  unfold dotCase, camelCase.
  rewrite trim_empty_iff, (proj1 (alnum_word_starts x w1 [y; w2] H1)).
  rewrite (cleaned_separated_specials w1 w2 x y H1 H2 Hx Hsep Hy).
  rewrite (proj2 (alnum_word_starts (js " ") w1 [[]; w2] H1)).
  assert (Hsplit : split_on (ch " ") [] (join (js " ") [w1; []; w2]) = [w1; []; w2]).
  { apply (split_on_join (ch " ") [w1; []; w2]); [discriminate|].
    cbn [forallb]. rewrite andb_true_r.
    rewrite (forallb_impl is_alnum _ w1), (forallb_impl is_alnum _ w2);
      try reflexivity; try assumption;
      intros c Hc; apply negb_true_iff; char_solve. }
  rewrite Hsplit. split.
  - cbn [map]. rewrite (toLowerCase_alnum w1 Hq1), (toLowerCase_alnum w2 Hq2).
    reflexivity.
  - unfold mapi. cbn [mapi_from].
    rewrite (camel_word_capitalize w2 1 H2). cbn [camel_word].
    rewrite (toLowerCase_alnum w1 Hq1), join_nil_concat.
    cbn [concat]. change (toUpperCase (charAt0 [])) with (@nil char).
    cbn [app]. rewrite app_nil_r. reflexivity.
Qed.

(** ** [toKebabCase]: after the five replacements *)

Lemma alnum_not_separated (s : jsstring) :
  forallb is_alnum s = true ->
  replaceAll sep_re [Text (js " ")] s = s.
Proof.
  intros H. apply replaceAll_cannot_start.
  apply (forallb_impl is_alnum); [|exact H].
  intros c Hc. cbn [can_start]. rewrite class_kebab_separator.
  apply negb_true_iff. char_solve.
Qed.

(** The special characters, the split, the join and the lowering, on words
    of ASCII letters and digits joined by single spaces. *)
Lemma toKebabCase_finish (s : jsstring) (W : list jsstring) :
  is_empty (trim s) = false ->
  replaceAll digit_letter_re space_between
    (replaceAll letter_digit_re space_between
       (replaceAll acronym_re space_between
          (replaceAll lower_upper_re space_between
             (replaceAll sep_re [Text (js " ")] s)))) = join (js " ") W ->
  forallb (word_of is_alnum) W = true ->
  toKebabCase (VString s) = Return (join (js "-") (map (map lower1) W)).
Proof.
  intros Hne Hy HW. unfold toKebabCase. rewrite Hne. cbv zeta. rewrite Hy.
  set (y := join (js " ") W).
  assert (Hchars : forall q : char -> bool,
            q 0x20 = true -> (forall c, is_alnum c = true -> q c = true) ->
            forallb q y = true).
  { intros q Hsp Hq. apply forallb_join; [cbn; rewrite Hsp; reflexivity|].
    apply words_chars. apply (word_of_impl is_alnum); assumption. }
  assert (Hwr : forallb written_out y = true)
    by (apply Hchars; [reflexivity | intros c Hc; char_solve]).
  rewrite (strip_written_out y Hwr), filter_all.
  2:{ apply Hchars; [reflexivity|]. intros c Hc.
      unfold is_alnum in Hc. apply orb_true_iff in Hc as [Hc|Hc]; rewrite Hc;
        rewrite ?orb_true_r; reflexivity. }
  unfold split_u. rewrite (code_points_bmp y (written_out_bmp y Hwr)).
  destruct W as [|w W]; [reflexivity|].
  assert (Hsplit : split (ClsPlus false [WhiteSpace]) y = w :: W).
  { apply (split_join false [WhiteSpace] 0x20); [reflexivity | discriminate |].
    intros v Hv. apply (proj1 (forallb_forall _ _) HW) in Hv.
    destruct (word_of_inv _ _ Hv) as [Hvne Hvq]. split; [exact Hvne|].
    apply (forallb_impl is_alnum); [|exact Hvq].
    intros c Hc. rewrite class_space, (alnum_not_space c Hc). reflexivity. }
  rewrite Hsplit, map_fixed.
  2:{ intros v Hv. apply code_units_bmp.
      apply (proj1 (forallb_forall _ _) HW) in Hv.
      destruct (word_of_inv _ _ Hv) as [_ Hvq].
      apply (forallb_impl is_alnum); [|exact Hvq].
      intros c Hc. apply N.ltb_lt. char_solve. }
  rewrite (filter_words_all is_alnum _ HW).
  rewrite toLowerCase_written_out.
  - rewrite map_join. reflexivity.
  - apply forallb_join; [reflexivity|].
    apply words_chars. apply (word_of_impl is_alnum); [|exact HW].
    exact alnum_written_out.
Qed.

(** ** [toKebabCase]: letters and digits *)

Lemma insert_between_skip_all (p q : char -> bool) (w r : list char) :
  forallb (fun c => negb (p c)) w = true ->
  insert_between p q (w ++ r) = w ++ insert_between p q r.
Proof.
  induction w as [|a w IH]; [reflexivity|]. cbn [forallb]. intros H.
  apply andb_true_iff in H as [Ha Hw]. apply negb_true_iff in Ha.
  cbn [app]. rewrite (insert_between_skip p q a _ Ha), (IH Hw). reflexivity.
Qed.

(** A word of [p] and a word of [q] after it: one space between them. *)
Lemma insert_between_two (p q : char -> bool) (w1 w2 r : list char) :
  w1 <> [] -> forallb p w1 = true -> forallb (fun c => negb (q c)) w1 = true ->
  w2 <> [] -> forallb q w2 = true -> forallb (fun c => negb (p c)) w2 = true ->
  insert_between p q (w1 ++ w2 ++ r) = w1 ++ 0x20 :: w2 ++ insert_between p q r.
Proof.
  intros Hne1 Hp1 Hq1 Hne2 Hq2 Hp2.
  destruct w2 as [|c w2]; [contradiction|].
  cbn [forallb] in Hq2, Hp2.
  apply andb_true_iff in Hq2 as [Hc _], Hp2 as [_ Hp2].
  cbn [app].
  rewrite (insert_between_word_capital p q w1 c _ Hne1 Hp1 Hq1 Hc).
  rewrite (insert_between_skip_all p q w2 r Hp2). reflexivity.
Qed.

Lemma insert_between_none (p q : char -> bool) (w : list char) :
  forallb (fun c => negb (q c)) w = true -> insert_between p q w = w.
Proof. intros H. apply insert_between_id, adj_free_no_second, H. Qed.

(** The two replacements between letters and digits, on lower-case
    letters, digits, lower-case letters. *)
Lemma letters_digits_letters (l1 d l2 : jsstring) :
  forallb is_lower l1 = true -> word_of is_digit d = true ->
  forallb is_lower l2 = true ->
  replaceAll digit_letter_re space_between
    (replaceAll letter_digit_re space_between (l1 ++ d ++ l2))
  = join (js " ") (filter (fun w => negb (is_empty w)) [l1; d; l2]).
Proof.
  intros H1 Hd H2. destruct (word_of_inv _ _ Hd) as [Hdne Hdq].
  rewrite !replaceAll_pair.
  set (L := in_class false [lower_az; upper_AZ]).
  set (D := in_class false [digit_09]).
  assert (HL : forall l, forallb is_lower l = true ->
             forallb L l = true /\ forallb (fun c => negb (D c)) l = true).
  { intros l Hl. split; (apply (forallb_impl is_lower); [|exact Hl]); intros c Hc;
      unfold L, D; rewrite ?class_letter, ?class_digit;
      [|apply negb_true_iff]; char_solve. }
  assert (HD : forallb D d = true /\ forallb (fun c => negb (L c)) d = true).
  { split; (apply (forallb_impl is_digit); [|exact Hdq]); intros c Hc;
      unfold L, D; rewrite ?class_letter, ?class_digit;
      [exact Hc | apply negb_true_iff; char_solve]. }
  destruct (HL l1 H1) as [HL1 HnD1]. destruct (HL l2 H2) as [HL2 HnD2].
  destruct HD as [HDd HnLd].
  assert (E5 : insert_between D L (d ++ l2)
               = join (js " ") (filter (fun w => negb (is_empty w)) [d; l2])).
  { destruct d as [|c d]; [contradiction|]. destruct l2 as [|b l2].
    - rewrite app_nil_r. apply insert_between_none, HnLd.
    - rewrite <- (app_nil_r (b :: l2)) at 1.
      rewrite (insert_between_two D L (c :: d) (b :: l2) []);
        try assumption; try discriminate.
      rewrite app_nil_r. reflexivity. }
  destruct l1 as [|a l1].
  - cbn [app]. rewrite (insert_between_skip_all L D d l2 HnLd).
    rewrite (insert_between_none L D l2 HnD2). exact E5.
  - rewrite (insert_between_two L D (a :: l1) d l2);
      try assumption; try discriminate.
    rewrite (insert_between_none L D l2 HnD2).
    replace ((a :: l1) ++ 0x20 :: d ++ l2) with (((a :: l1) ++ [0x20]) ++ d ++ l2)
      by (rewrite <- app_assoc; reflexivity).
    rewrite insert_between_skip_all.
    + rewrite E5, <- app_assoc.
      destruct d as [|c d]; [contradiction|].
      destruct l2 as [|b l2]; reflexivity.
    + rewrite forallb_app, HnD1. reflexivity.
Qed.

(** X17. [toKebabCase] separates digits from letters on both sides: on
    lower-case letters, then digits, then lower-case letters, each run of
    letters possibly empty, the result is the runs that are not empty,
    joined by hyphens ([item123name] gives [item-123-name]). *)
Theorem toKebabCase_separates_digits (l1 d l2 : jsstring) :
  forallb is_lower l1 = true -> word_of is_digit d = true ->
  forallb is_lower l2 = true ->
  toKebabCase (VString (l1 ++ d ++ l2))
  = Return (join (js "-") (filter (fun w => negb (is_empty w)) [l1; d; l2])).
Proof.
  intros H1 Hd H2. destruct (word_of_inv _ _ Hd) as [Hdne Hdq].
  set (W := filter (fun w => negb (is_empty w)) [l1; d; l2]).
  assert (HW : forallb (word_of lower_or_digit) W = true).
  { apply forallb_forall. intros w Hw. apply filter_In in Hw as [Hw Hne].
    unfold word_of. rewrite Hne. cbn [andb].
    destruct Hw as [<-|[<-|[<-|[]]]].
    - apply (forallb_impl is_lower); [|exact H1]. intros c Hc. snake_solve.
    - apply (forallb_impl is_digit); [|exact Hdq]. intros c Hc. snake_solve.
    - apply (forallb_impl is_lower); [|exact H2]. intros c Hc. snake_solve. }
  assert (Hal : forallb (word_of is_alnum) W = true).
  { apply (word_of_impl lower_or_digit); [|exact HW]. intros c Hc. snake_solve. }
  assert (Hs : forallb lower_or_digit (l1 ++ d ++ l2) = true).
  { rewrite !forallb_app.
    rewrite (forallb_impl is_lower lower_or_digit l1), (forallb_impl is_digit lower_or_digit d),
      (forallb_impl is_lower lower_or_digit l2); try reflexivity; try assumption;
      intros c Hc; snake_solve. }
  assert (Hfix : map (map lower1) W = W).
  { apply map_fixed. intros w Hw. apply map_id_on. intros c Hc.
    apply (proj1 (forallb_forall _ _) (words_chars _ _ HW)) in Hw.
    apply (proj1 (forallb_forall _ _) Hw) in Hc. snake_solve. }
  rewrite <- Hfix. apply toKebabCase_finish; [| |exact Hal].
  - rewrite trim_empty_iff.
    destruct (forallb isWhiteSpace (l1 ++ d ++ l2)) eqn:E; [|reflexivity].
    rewrite !forallb_app in E. apply andb_true_iff in E as [_ E].
    apply andb_true_iff in E as [E _].
    destruct d as [|c d]; [contradiction|].
    cbn [forallb] in E, Hdq.
    apply andb_true_iff in E as [E _], Hdq as [Hc _]. char_solve.
  - rewrite alnum_not_separated
      by (apply (forallb_impl lower_or_digit); [|exact Hs]; intros c Hc; snake_solve).
    assert (Hup : forallb (fun c => negb (is_upper c)) (l1 ++ d ++ l2) = true)
      by (apply (forallb_impl lower_or_digit); [|exact Hs]; intros c Hc; snake_solve).
    rewrite (lower_upper_step_id _ Hup), (acronym_step_id _ Hup).
    apply letters_digits_letters; assumption.
Qed.

(** ** [toKebabCase]: a run of capitals before capitalised words *)

Lemma firstn_length_app (x r : list char) :
  firstn (length (x ++ r) - length r) (x ++ r) = x.
Proof.
  rewrite length_app, Nat.add_sub, firstn_app, Nat.sub_diag, firstn_all.
  cbn [firstn]. apply app_nil_r.
Qed.

(** [p+] gives back its last character when the rest of the pattern needs
    it. *)
Lemma greedy_give_back (p : char -> bool) (k : list char -> match_result)
    (x : list char) (c : char) (r : list char) (res : groups * list char) :
  forallb p x = true -> p c = true ->
  match r with [] => True | d :: _ => p d = false end ->
  k r = None -> k (c :: r) = Some res ->
  greedy p k (x ++ c :: r) = Some res.
Proof.
  intros Hx Hc Hr Hk0 Hk1. induction x as [|a x IH]; cbn [app].
  - cbn [greedy]. rewrite Hc.
    replace (greedy p k r) with (k r); [rewrite Hk0; exact Hk1|].
    destruct r as [|d r]; [reflexivity|]. cbn [greedy]. rewrite Hr. reflexivity.
  - cbn [forallb] in Hx. apply andb_true_iff in Hx as [Ha Hx].
    cbn [greedy]. rewrite Ha, (IH Hx). reflexivity.
Qed.

Lemma exec_acronym (acr : list char) (c : char) (t rest : list char) :
  acr <> [] -> forallb is_upper acr = true -> is_upper c = true ->
  t <> [] -> forallb is_lower t = true ->
  match rest with [] => True | d :: _ => is_lower d || is_digit d = false end ->
  exec acronym_re (acr ++ c :: t ++ rest) = Some ([acr; c :: t], rest).
Proof.
  intros Hane Hacr Hc Htne Ht Hrest.
  destruct acr as [|a acr]; [contradiction|].
  destruct t as [|b t]; [contradiction|].
  cbn [forallb] in Hacr, Ht.
  apply andb_true_iff in Hacr as [Ha Hacr], Ht as [Hb Ht].
  unfold exec. cbn [rmatch app]. rewrite class_upper, Ha.
  apply greedy_give_back.
  - rewrite (forallb_ext_bool _ is_upper); [exact Hacr | exact class_upper].
  - rewrite class_upper. exact Hc.
  - rewrite class_upper. clear - Hb. char_solve.
  - rewrite class_upper. replace (is_upper b) with false; [reflexivity|].
    symmetry. clear - Hb. char_solve.
  - rewrite class_upper, Hc, class_lower_digit', Hb. cbn [orb].
    apply greedy_run.
    + apply (forallb_impl is_lower); [|exact Ht].
      intros d Hd. rewrite class_lower_digit', Hd. reflexivity.
    + destruct rest as [|d rest]; [exact I|]. rewrite class_lower_digit'. exact Hrest.
    + cbn [app]. do 2 f_equal. f_equal; [|f_equal].
      * exact (firstn_length_app (a :: acr) (c :: b :: t ++ rest)).
      * change (c :: b :: t ++ rest) with ((c :: b :: t) ++ rest).
        apply firstn_length_app.
Qed.


Lemma capitalised_no_adjacent_capitals (w : jsstring) (caps : list jsstring) :
  forallb is_lower w = true -> forallb cap_word caps = true ->
  adj_free (fun a b => is_upper a && is_upper b) (join (js " ") (w :: caps)) = true.
Proof.
  intros Hw Hcaps. destruct (cap_words_letters caps Hcaps) as [_ HcA].
  apply (adj_free_join _ 0x20).
  - intros x. replace (is_upper 0x20) with false by reflexivity.
    rewrite andb_false_r. split; reflexivity.
  - assert (G : forall ws, forallb (adj_free (fun _ b => is_upper b)) ws = true ->
              forallb (adj_free (fun a b => is_upper a && is_upper b)) ws = true).
    { induction ws as [|v ws IH]; [reflexivity|].
      cbn [forallb]. intros H. apply andb_true_iff in H as [Hv Hws].
      rewrite (IH Hws), andb_true_r.
      apply (adj_free_impl (fun _ b => is_upper b)); [|exact Hv].
      intros a b H. apply andb_true_iff in H as [_ H]. exact H. }
    apply G. cbn [forallb]. rewrite HcA, andb_true_r.
    destruct w as [|a w]; [reflexivity|].
    cbn [forallb] in Hw. apply andb_true_iff in Hw as [_ Hw].
    apply adj_free_after_first. apply (forallb_impl is_lower); [|exact Hw].
    intros d Hd. apply negb_true_iff. char_solve.
Qed.

(** The first three replacements, on capitals followed by capitalised
    words. *)
Lemma acronym_steps (acr v : jsstring) (rest : list jsstring) :
  word_of is_upper acr = true -> forallb cap_word (v :: rest) = true ->
  replaceAll acronym_re space_between
    (replaceAll lower_upper_re space_between (acr ++ concat (v :: rest)))
  = join (js " ") (acr :: v :: rest).
Proof.
  intros Hacr Hcaps. destruct (word_of_inv _ _ Hacr) as [Hane Hup].
  assert (Hcaps' := Hcaps). cbn [forallb] in Hcaps'.
  apply andb_true_iff in Hcaps' as [Hv Hrest].
  destruct (cap_word_inv v Hv) as (c & t & -> & Hc & Htne & Ht).
  rewrite replaceAll_pair, insert_between_skip_all.
  2:{ apply (forallb_impl is_upper); [|exact Hup].
      intros d Hd. rewrite class_lower_digit'. apply negb_true_iff. char_solve. }
  cbn [concat]. rewrite <- app_comm_cons, insert_between_skip
    by (rewrite class_lower_digit'; clear - Hc; char_solve).
  rewrite (lower_upper_on_capitals rest Hrest t Htne Ht).
  pose proof (capitalised_no_adjacent_capitals t rest Ht Hrest) as Hadj.
  rewrite join_cons, join_cons_word.
  destruct acr as [|a acr]; [contradiction|].
  destruct rest as [|v' rest'].
  - cbn [join] in *. rewrite <- (app_nil_r t) at 1. cbn [app].
    rewrite (replaceAll_match _ _ a _ [a :: acr; c :: t] []).
    + rewrite replaceAll_nil, app_nil_r.
      cbn [expand flat_map nth pred]. rewrite app_nil_r, <- ?app_assoc. reflexivity.
    + apply (exec_acronym (a :: acr) c t []); try assumption; try discriminate.
      exact I.
  - rewrite join_cons in *. cbn [app].
    rewrite (replaceAll_match _ _ a _ [a :: acr; c :: t]
               (js " " ++ join (js " ") (v' :: rest'))).
    + rewrite acronym_step_no_adjacent by (apply (adj_free_suffix _ t), Hadj).
      cbn [expand flat_map nth pred]. rewrite app_nil_r, <- !app_assoc. reflexivity.
    + apply (exec_acronym (a :: acr) c t); try assumption; try discriminate.
      reflexivity.
Qed.

(** X18. [toKebabCase] sets a boundary between a run of capitals and the
    capitalised word after it, the last capital of the run going to the
    word: on capitals followed by capitalised words, the result is the run
    and the words, lowered, joined by hyphens ([XMLHttpRequest] is the run
    [XML] and the words [Http] and [Request]). *)
Theorem toKebabCase_acronym_before_words (acr : jsstring) (caps : list jsstring) :
  word_of is_upper acr = true ->
  forallb cap_word caps = true ->
  caps <> [] ->
  toKebabCase (VString (acr ++ concat caps))
  = Return (join (js "-") (map (map lower1) (acr :: caps))).
Proof.
  intros Hacr Hcaps Hne. destruct caps as [|v rest]; [contradiction|].
  destruct (word_of_inv _ _ Hacr) as [Hane Hup].
  destruct (cap_words_letters _ Hcaps) as [HcW _].
  pose proof (concat_caps_letters _ Hcaps) as Hcl.
  assert (HW : forallb (word_of is_letter) (acr :: v :: rest) = true).
  { change (word_of is_letter acr && forallb (word_of is_letter) (v :: rest) = true).
    rewrite HcW, andb_true_r.
    apply (word_of_mono is_upper); [|exact Hacr].
    intros c Hc. unfold is_letter. rewrite Hc. apply orb_true_r. }
  assert (Hs : forallb is_letter (acr ++ concat (v :: rest)) = true).
  { rewrite forallb_app, Hcl, andb_true_r.
    apply (forallb_impl is_upper); [|exact Hup].
    intros c Hc. unfold is_letter. rewrite Hc. apply orb_true_r. }
  apply toKebabCase_finish.
  - rewrite trim_empty_iff. destruct acr as [|a acr]; [contradiction|].
    cbn [forallb] in Hup. apply andb_true_iff in Hup as [Ha _].
    cbn [app forallb]. replace (isWhiteSpace a) with false; [reflexivity|].
    symmetry. clear - Ha. char_solve.
  - rewrite (letters_not_separated _ Hs), (acronym_steps acr v rest Hacr Hcaps).
    assert (Hadj : adj_free letter_digit (join (js " ") (acr :: v :: rest)) = true).
    { apply adj_free_no_digit. apply forallb_join; [reflexivity|].
      apply words_chars, (word_of_impl is_letter); [|exact HW].
      intros c Hc. apply negb_true_iff. char_solve. }
    rewrite (letter_digit_step_id _ Hadj), (digit_letter_step_id _ Hadj).
    reflexivity.
  - apply (word_of_impl is_letter); [|exact HW].
    intros c Hc. unfold is_alnum. rewrite Hc. reflexivity.
Qed.

(** ** [toKebabCase] applied twice *)






End Converters.

(** ** Counterexamples and instances

    The statements below are closed: they speak of every table of the
    runtime, or are taken at [no_tables]. *)

(** C3, as stated, fails: [camelCase("foo bar")] is ["fooBar"], and
    [camelCase("fooBar")] is ["foobar"], whatever the tables. *)
Lemma camelCase_not_idempotent :
  ~ exists U : UnicodeData,
      forall o, camelCase U (VString (js "foo bar")) = Return o ->
                camelCase U (VString o) = Return o.
Proof.
  intros [U H].
  assert (E : camelCase U (VString (js "foo bar")) = Return (js "fooBar"))
    by (vm_compute; reflexivity).
  apply H in E. vm_compute in E. discriminate.
Qed.


(** C5 at a space, a tab and an ideographic space, and at a space, a line
    feed and a next-line character. *)
Lemma blank_input_gives_empty_witness :
  toKebabCase no_tables (VString [0x20; 0x09; 0x3000]) = Return []
  /\ camelCase no_tables (VString [0x20; 0x09; 0x3000]) = Return []
  /\ dotCase no_tables (VString [0x20; 0x09; 0x3000]) = Return []
  /\ to_snake_case no_tables [0x20; 0x0A; 0x85] = [].
Proof.
  apply (blank_input_gives_empty no_tables [0x20; 0x09; 0x3000] [0x20; 0x0A; 0x85]);
    reflexivity.
Defined.


(** C9 at ["Привет Мир"]. *)
Lemma camelCase_dotCase_ascii_only_witness :
  camelCase no_tables (VString (js "Привет Мир")) = Return []
  /\ dotCase no_tables (VString (js "Привет Мир")) = Return [].
Proof.
  apply (proj2 (proj2 (proj2 (proj2
           (camelCase_dotCase_ascii_only no_tables (js "Привет Мир")))))).
  reflexivity.
Defined.

(** C10 at ["hello.world"]. *)
Lemma dot_is_no_separator_of_toKebabCase_witness :
  toKebabCase no_tables (VString (js "hello.world")) = Return (js "helloworld")
  /\ camelCase no_tables (VString (js "hello.world")) = Return (js "helloWorld")
  /\ dotCase no_tables (VString (js "hello.world")) = Return (js "hello.world").
Proof.
  apply (proj2 (proj2
           (dot_is_no_separator_of_toKebabCase no_tables
              (js "hello") (js "orld") (ch "w")
              ltac:(discriminate) eq_refl eq_refl))).
Defined.

(** ** Instances of the theorems on words *)

(** X1 at ["Foo-_ bar2-_ BAZ"]. *)
Lemma dotCase_of_joined_words_witness :
  dotCase no_tables (VString (js "Foo-_ bar2-_ BAZ")) = Return (js "foo.bar2.baz").
Proof.
  apply (dotCase_of_joined_words no_tables (js "-_ ") [js "Foo"; js "bar2"; js "BAZ"]);
    [discriminate | reflexivity | reflexivity].
Defined.

(** X2 at ["foo. BAR. baz9"]. *)
Lemma camelCase_of_joined_words_witness :
  camelCase no_tables (VString (js "foo. BAR. baz9")) = Return (js "fooBarBaz9").
Proof.
  apply (camelCase_of_joined_words no_tables (js ". ") (js "foo") [js "BAR"; js "baz9"]);
    [discriminate | reflexivity | reflexivity].
Defined.

(** X3 at ["foo$%^bar"], which the tests of the source expect to be split. *)
Lemma camelCase_dotCase_delete_without_splitting_witness :
  camelCase no_tables (VString (js "foo$%^bar")) = Return (js "foobar")
  /\ dotCase no_tables (VString (js "foo$%^bar")) = Return (js "foobar").
Proof.
  apply (camelCase_dotCase_delete_without_splitting no_tables
           (js "foo") (js "$%^") (js "bar")); reflexivity.
Defined.

(** X4 at ["Hello@#wORLD"]. *)
Lemma makeCamelCase_of_joined_words_witness :
  makeCamelCase no_tables (js "Hello@#wORLD") = js "helloWorld".
Proof.
  apply (makeCamelCase_of_joined_words no_tables (js "@#") (js "Hello") [js "wORLD"]);
    [discriminate | reflexivity | reflexivity].
Defined.

(** X5 at ["foo-_bar"]. *)
Lemma makeCamelCase_agrees_with_camelCase_witness :
  camelCase no_tables (VString (js "foo-_bar"))
  = Return (makeCamelCase no_tables (js "foo-_bar")).
Proof.
  apply (makeCamelCase_agrees_with_camelCase no_tables (js "-_") (js "foo") [js "bar"]);
    [discriminate | reflexivity | reflexivity].
Defined.

(** X6 at ["--foo"] and ["foo!"]. *)
Lemma makeCamelCase_at_the_ends_witness :
  makeCamelCase no_tables (js "--foo") = js "Foo"
  /\ makeCamelCase no_tables (js "foo!") = js "foo!".
Proof.
  apply (makeCamelCase_at_the_ends no_tables (js "--") (js "foo") (ch "!"));
    [discriminate | reflexivity | reflexivity | reflexivity].
Defined.

(** X7 at ["foo_ -42_ -bar"]. *)
Lemma toKebabCase_of_joined_words_witness :
  toKebabCase no_tables (VString (js "foo_ -42_ -bar")) = Return (js "foo-42-bar").
Proof.
  apply (toKebabCase_of_joined_words no_tables (js "_ -") [js "foo"; js "42"; js "bar"]);
    [discriminate | reflexivity | reflexivity].
Defined.

(** X8 at ["special@#chars"]. *)
Lemma toKebabCase_deletes_without_splitting_witness :
  toKebabCase no_tables (VString (js "special@#chars")) = Return (js "specialchars").
Proof.
  apply (toKebabCase_deletes_without_splitting no_tables
           (js "special") (js "@#") (js "chars")); reflexivity.
Defined.

(** X9 at ["myVariableName"]. *)
Lemma toKebabCase_splits_before_capitals_witness :
  toKebabCase no_tables (VString (js "myVariableName")) = Return (js "my-variable-name").
Proof.
  apply (toKebabCase_splits_before_capitals no_tables
           (js "my") [js "Variable"; js "Name"]); reflexivity.
Defined.

(** X10 at ["_a.b@c_"]. *)
Lemma to_snake_case_keeps_other_characters_witness :
  to_snake_case no_tables (py "_a.b@c_") = py "a.b@c".
Proof.
  apply (to_snake_case_keeps_other_characters no_tables (py "_a.b@c_")). reflexivity.
Defined.

(** X11 at ["Hello World-foo"]. *)
Lemma to_snake_case_idempotent_on_ascii_witness :
  to_snake_case no_tables (to_snake_case no_tables (py "Hello World-foo"))
  = to_snake_case no_tables (py "Hello World-foo")
  /\ forallb snake_plain (to_snake_case no_tables (py "Hello World-foo")) = true.
Proof.
  apply (to_snake_case_idempotent_on_ascii no_tables (py "Hello World-foo")). reflexivity.
Defined.

(** X12 at ["hello -big -world2"]. *)
Lemma to_snake_case_of_joined_words_witness :
  to_snake_case no_tables (py "hello -big -world2") = py "hello_big_world2".
Proof.
  apply (to_snake_case_of_joined_words no_tables (py " -")
           [py "hello"; py "big"; py "world2"]);
    [discriminate | reflexivity | reflexivity].
Defined.

(** X13 at ["parseXMLFileV2"]. *)
Lemma to_snake_case_splits_before_capitals_witness :
  to_snake_case no_tables (py "parseXMLFileV2") = py "parse_xmlfile_v2".
Proof.
  apply (to_snake_case_splits_before_capitals no_tables
           (py "parse") [py "XMLFile"; py "V2"]); reflexivity.
Defined.

(** X14 at ["hello World"]. *)
Lemma to_snake_case_separator_before_capital_witness :
  to_snake_case no_tables (py "hello World") = py "hello__world".
Proof.
  apply (to_snake_case_separator_before_capital no_tables
           (py " ") (py "hello") [py "World"]);
    [discriminate | reflexivity | reflexivity | reflexivity].
Defined.

(** X15 at ["  Foo@Bar_baz 42x "]. *)
Lemma toKebabCase_ascii_result_witness :
  exists ts,
    toKebabCase no_tables (VString (js "  Foo@Bar_baz 42x ")) = Return (join (js "-") ts)
    /\ forallb (word_of lower_or_digit) ts = true.
Proof.
  apply (toKebabCase_ascii_result no_tables (js "  Foo@Bar_baz 42x ")). reflexivity.
Defined.

(** X16 at ["Tom & Jerry"]. *)
Lemma empty_word_between_separators_witness :
  dotCase no_tables (VString (js "Tom & Jerry")) = Return (js "tom..jerry")
  /\ camelCase no_tables (VString (js "Tom & Jerry")) = Return (js "tomJerry").
Proof.
  apply (empty_word_between_separators no_tables
           (js "Tom") (js "Jerry") (js " ") (js "&"));
    [reflexivity | reflexivity | discriminate | reflexivity | reflexivity].
Defined.

(** X17 at ["item123name"]. *)
Lemma toKebabCase_separates_digits_witness :
  toKebabCase no_tables (VString (js "item123name")) = Return (js "item-123-name").
Proof.
  apply (toKebabCase_separates_digits no_tables (js "item") (js "123") (js "name"));
    reflexivity.
Defined.

(** X18 at ["XMLHttpRequest"]. *)
Lemma toKebabCase_acronym_before_words_witness :
  toKebabCase no_tables (VString (js "XMLHttpRequest")) = Return (js "xml-http-request").
Proof.
  apply (toKebabCase_acronym_before_words no_tables
           (js "XML") [js "Http"; js "Request"]);
    [reflexivity | reflexivity | discriminate].
Defined.
